(** * Control-flow graphs of EVM transactions: a model of evm-cfg-py

    A shallow embedding of the stack-value analyzer, the static CFG
    builder, the two dynamic (trace driven) CFG builders and the trace
    formatter, followed by the properties established about them.

    Conventions.
    - Python [dict]s that are only looked up are [gmap]s.
    - A Python list used as a stack keeps its top at the END of the list,
      as [append] and [pop] have it.
    - Python exceptions are explicit: a function that can raise returns a
      [result]. *)

From Stdlib Require Import ZArith String Ascii HexString.
From stdpp Require Import base option list gmap strings.

Local Open Scope Z_scope.

(** ** Python exceptions *)

Inductive exn : Set := ValueError | KeyError | IndexError | RuntimeError.

Inductive result (A : Type) : Type :=
| Ok (a : A)
| Raise (e : exn).
Arguments Ok {A} a.
Arguments Raise {A} e.

#[global] Instance result_ret : MRet result := fun _ a => Ok a.
#[global] Instance result_bind : MBind result := fun _ _ f m =>
  match m with
  | Ok a => f a
  | Raise e => Raise e
  end.
#[global] Instance result_fmap : FMap result := fun _ _ f m =>
  match m with
  | Ok a => Ok (f a)
  | Raise e => Raise e
  end.

Definition is_Ok {A : Type} (r : result A) : bool :=
  match r with
  | Ok _ => true
  | Raise _ => false
  end.

(** ** Strings the way Python reads them *)

Module PyStr.

(** [s[n:]] *)
Fixpoint from (n : nat) (s : string) : string :=
  match n, s with
  | O, _ => s
  | S n', String _ s' => from n' s'
  | S _, EmptyString => EmptyString
  end.

(** The blanks [int] skips around a numeral.  A character stands for
    the code point of its number: below 128 the blanks are the ones of
    C's [isspace] (tab, line feed, vertical tab, form feed, carriage
    return, space), and of the code points from 128 to 255 Python takes
    U+0085 and U+00A0 for blanks. *)
Definition is_space (c : ascii) : bool :=
  let k := nat_of_ascii c in
  bool_decide (9 ≤ k ≤ 13 ∨ k = 32 ∨ k = 133 ∨ k = 160)%nat.

Fixpoint skip_spaces (s : string) : string :=
  match s with
  | EmptyString => EmptyString
  | String c s' => if is_space c then skip_spaces s' else s
  end.

(** The value of a digit: [0-9], then [a-z] or [A-Z] from ten on. *)
Definition digit_value (c : ascii) : option Z :=
  let k := Z.of_nat (nat_of_ascii c) in
  if decide (48 ≤ k ≤ 57) then Some (k - 48)
  else if decide (97 ≤ k ≤ 122) then Some (k - 87)
  else if decide (65 ≤ k ≤ 90) then Some (k - 55)
  else None.

(** The digits of a numeral in base [base], single underscores allowed
    between them: the value read so far, the number of digits and what
    is left of the string; [None] for two underscores in a row and for
    an underscore not followed by a digit. *)
Fixpoint scan_digits (base : Z) (s : string) (after_underscore : bool)
  (acc : Z) (count : nat) : option (Z * nat * string) :=
  match s with
  | EmptyString =>
      if after_underscore then None else Some (acc, count, s)
  | String c s' =>
      if Ascii.eqb c "_" then
        if after_underscore then None
        else scan_digits base s' true acc count
      else
        match digit_value c with
        | Some d =>
            if decide (d < base) then
              scan_digits base s' false (base * acc + d) (S count)
            else if after_underscore then None
            else Some (acc, count, s)
        | None =>
            if after_underscore then None else Some (acc, count, s)
        end
  end.

(** [sys.get_int_max_str_digits()] as CPython 3.11 and later set it by
    default: [int] refuses a numeral of more digits in a base that is
    not a power of two, so in base 10 and not in base 16. *)
Definition max_str_digits : nat := 4300.

(** [int(s, base)] for base 10 and base 16, as CPython reads a string:
    blanks, an optional sign, for base 16 an optional [0x] or [0X] that
    one underscore may follow, at least one digit, blanks.  [None]
    stands for the [ValueError] Python raises. *)
Definition int_of (base : Z) (s : string) : option Z :=
  let s1 := skip_spaces s in
  let '(sign, s2) :=
    match s1 with
    | String "+" r => (1, r)
    | String "-" r => (-1, r)
    | _ => (1, s1)
    end in
  let s3 :=
    if decide (base = 16) then
      match s2 with
      | String "0" (String "x" r) | String "0" (String "X" r) =>
          match r with
          | String "_" r' => r'
          | _ => r
          end
      | _ => s2
      end
    else s2 in
  match s3 with
  | String "_" _ => None
  | _ =>
      match scan_digits base s3 false 0 0 with
      | Some (value, count, rest) =>
          if decide (count = 0%nat) then None
          else if bool_decide (base = 10 ∧ (max_str_digits < count)%nat)
          then None
          else match skip_spaces rest with
               | EmptyString => Some (sign * value)
               | String _ _ => None
               end
      | None => None
      end
  end.

(** [int(s)] *)
Definition int (s : string) : option Z := int_of 10 s.

(** [int(s, 16)] *)
Definition int16 (s : string) : option Z := int_of 16 s.

Definition hex_digit (c : ascii) : bool :=
  let k := nat_of_ascii c in
  bool_decide (48 ≤ k ≤ 57 ∨ 97 ≤ k ≤ 102 ∨ 65 ≤ k ≤ 70)%nat.

Fixpoint all_hex (s : string) : bool :=
  match s with
  | EmptyString => true
  | String c s' => hex_digit c && all_hex s'
  end.

(** [Web3.to_hex(n)] on an [int]: [0x] and lowercase digits without
    padding, [-0x..] below zero. *)
Definition to_hex (n : Z) : string := HexString.of_Z n.

Definition upper_ascii (c : ascii) : ascii :=
  let k := nat_of_ascii c in
  if decide (97 ≤ k ≤ 122)%nat then ascii_of_nat (k - 32) else c.

(** [s.upper()] on ASCII text *)
Fixpoint upper (s : string) : string :=
  match s with
  | EmptyString => EmptyString
  | String c s' => String (upper_ascii c) (upper s')
  end.

Definition lower_ascii (c : ascii) : ascii :=
  let k := nat_of_ascii c in
  if decide (65 ≤ k ≤ 90)%nat then ascii_of_nat (k + 32) else c.

(** [s.lower()] on ASCII text *)
Fixpoint lower (s : string) : string :=
  match s with
  | EmptyString => EmptyString
  | String c s' => String (lower_ascii c) (lower s')
  end.

Definition startswith (s p : string) : bool := String.prefix p s.

(** [s.lstrip(chars)]: drop leading characters as long as they are among
    [chars]. *)
Fixpoint lstrip (chars : list ascii) (s : string) : string :=
  match s with
  | EmptyString => EmptyString
  | String c s' =>
      if bool_decide (c ∈ chars) then lstrip chars s' else s
  end.

End PyStr.

(** [name in [...]] on strings *)
Definition name_in (s : string) (l : list string) : bool :=
  bool_decide (s ∈ l).

(** ** SimpleStackValueAnalyzer (cfg_static_complete.py) *)

Module SimpleStackValueAnalyzer.

(** What the analyzer reads of a disassembled instruction.  [operand] is
    the immediate of a PUSHn, an [int]. *)
Record Instruction : Set := {
  pc : Z;
  name : string;
  operand : Z
}.

#[global] Instance Instruction_eq_dec : EqDecision Instruction.
Proof. solve_decision. Defined.

(** [self.instr_by_pc]: the dict comprehension keeps the last
    instruction of each pc. *)
Definition instr_by_pc (instructions : list Instruction)
  : gmap Z Instruction :=
  foldl (fun m instr => <[pc instr := instr]> m) ∅ instructions.

(** [l.index(x)]: position of the first element equal to [x]. *)
Definition index (instructions : list Instruction) (x : Instruction)
  : option nat :=
  fst <$> list_find (fun y => y = x) instructions.

(** [stack[i]] with Python's negative indices. *)
Definition getitem (stack : list Z) (i : Z) : option Z :=
  if decide (0 ≤ i) then stack !! Z.to_nat i
  else if decide (0 ≤ Z.of_nat (length stack) + i)
       then stack !! Z.to_nat (Z.of_nat (length stack) + i)
       else None.

(** [stack[i] = v] with Python's negative indices, for an index
    [stack[i]] has just been read at. *)
Definition setitem (stack : list Z) (i : Z) (v : Z) : list Z :=
  if decide (0 ≤ i) then <[Z.to_nat i := v]> stack
  else <[Z.to_nat (Z.of_nat (length stack) + i) := v]> stack.

(** [stack.pop()] *)
Definition pop (stack : list Z) : option (list Z * Z) :=
  match last stack with
  | Some x => Some (removelast stack, x)
  | None => None
  end.

(** What one iteration of the loop does next. *)
Inductive flow : Set :=
| Next (stack : list Z)
| Break
| ReturnNone
| Throw (e : exn).

Definition arithmetic : list string := ["ADD"; "SUB"; "MUL"; "DIV"]%string.

(** The body of the [for] loop of [get_jump_target]. *)
Definition step (instr : Instruction) (stack : list Z) : flow :=
  if PyStr.startswith (name instr) "PUSH" then
    Next (stack ++ [operand instr])
  else if PyStr.startswith (name instr) "DUP" then
    match PyStr.int (PyStr.from 3 (name instr)) with
    | None => Throw ValueError
    | Some n =>
        if decide (n ≤ Z.of_nat (length stack)) then
          match getitem stack (n - 1) with
          | Some v => Next (stack ++ [v])
          | None => Throw IndexError
          end
        else ReturnNone
    end
  else if PyStr.startswith (name instr) "SWAP" then
    match PyStr.int (PyStr.from 4 (name instr)) with
    | None => Throw ValueError
    | Some n =>
        if decide (n + 1 ≤ Z.of_nat (length stack)) then
          match getitem stack (- n - 1), getitem stack (- 1) with
          | Some deep, Some top =>
              Next (setitem (setitem stack (- 1) deep) (- n - 1) top)
          | _, _ => Throw IndexError
          end
        else ReturnNone
    end
  else if name_in (name instr) ["POP"%string] then
    match pop stack with
    | Some (stack', _) => Next stack'
    | None => ReturnNone
    end
  else if name_in (name instr) arithmetic then
    if decide (2 ≤ Z.of_nat (length stack)) then
      match pop stack with
      | Some (stack1, val1) =>
          match pop stack1 with
          | Some (stack2, val2) =>
              (* [int(val)] is the identity on the ints the stack holds *)
              let num1 := val1 in
              let num2 := val2 in
              let result :=
                if String.eqb (name instr) "ADD" then num2 + num1
                else if String.eqb (name instr) "SUB" then num2 - num1
                else if String.eqb (name instr) "MUL" then num2 * num1
                else (* DIV *)
                  if decide (num1 = 0) then 0 else num2 `div` num1 in
              Next (stack2 ++ [result])
          | None => Throw IndexError
          end
      | None => Throw IndexError
      end
    else ReturnNone
  else Break.

(** The [for] loop over [scan], the instructions in the order the loop
    visits them, followed by the final [if stack: return stack[-1]]. *)
Fixpoint simulate (scan : list Instruction) (stack : list Z)
  : result (option Z) :=
  match scan with
  | [] => Ok (last stack)
  | instr :: scan' =>
      match step instr stack with
      | Next stack' => simulate scan' stack'
      | Break => Ok (last stack)
      | ReturnNone => Ok None
      | Throw e => Raise e
      end
  end.

Definition get_jump_target (instructions : list Instruction) (jump_pc : Z)
  : result (option Z) :=
  match instr_by_pc instructions !! jump_pc with
  | None => Ok None
  | Some jump_instr =>
      if name_in (name jump_instr) ["JUMP"; "JUMPI"]%string then
        match index instructions jump_instr with
        | Some i => simulate (reverse (take i instructions)) []
        | None => Raise ValueError
        end
      else Ok None
  end.

(** The same analysis with the prefix visited in its original forward
    order: the reading the specification prescribes. *)
Definition get_jump_target_forward
  (instructions : list Instruction) (jump_pc : Z) : result (option Z) :=
  match instr_by_pc instructions !! jump_pc with
  | None => Ok None
  | Some jump_instr =>
      if name_in (name jump_instr) ["JUMP"; "JUMPI"]%string then
        match index instructions jump_instr with
        | Some i => simulate (take i instructions) []
        | None => Raise ValueError
        end
      else Ok None
  end.

(** An opcode the loop interprets (any branch but the final [else]). *)
Definition supported (instr : Instruction) : bool :=
  PyStr.startswith (name instr) "PUSH"
  || PyStr.startswith (name instr) "DUP"
  || PyStr.startswith (name instr) "SWAP"
  || name_in (name instr) ["POP"%string]
  || name_in (name instr) arithmetic.

(** The mnemonics of the disassembler's table number DUP from 1 and
    SWAP from 1: DUP1 .. DUP16, SWAP1 .. SWAP16.  What matters to the
    loop is that the number reads as an [int], at least 1 after DUP and
    not negative after SWAP. *)
Definition well_named (instr : Instruction) : bool :=
  if PyStr.startswith (name instr) "PUSH" then true
  else if PyStr.startswith (name instr) "DUP" then
    match PyStr.int (PyStr.from 3 (name instr)) with
    | Some n => bool_decide (1 ≤ n)
    | None => false
    end
  else if PyStr.startswith (name instr) "SWAP" then
    match PyStr.int (PyStr.from 4 (name instr)) with
    | Some n => bool_decide (0 ≤ n)
    | None => false
    end
  else true.

End SimpleStackValueAnalyzer.

Module SVA := SimpleStackValueAnalyzer.

(** ** Basic blocks (basic_block.py) *)

Module BasicBlock.

(** Modelled from the spec: the class [Block] of basic_block.py, which is
    not among the sources.  Its fields are the ones the builders and
    main.py read; a pc is a hexadecimal string, an instruction a pair
    [(pc, opcode)]. *)
Record Block : Set := {
  address : string;
  start_pc : string;
  end_pc : string;
  terminator : string;
  instructions : list (string * string)
}.

#[global] Instance Block_eq_dec : EqDecision Block.
Proof. solve_decision. Defined.

(** The key [(block.address, block.start_pc)] of the builders' indexes. *)
Definition key (b : Block) : string * string := (address b, start_pc b).

End BasicBlock.

Abbreviation Block := BasicBlock.Block.

(** ** The CFG data structure (cfg_structure.py) *)

Module CFGStructure.

(** Modelled from the spec: the classes [BlockNode], [Edge] and [CFG] of
    cfg_structure.py, which is not among the sources.  A node wraps the
    basic block it was made from and exposes its fields; two nodes are
    the same node when they wrap the same block. *)
Record BlockNode : Set := { base_block : Block }.

Definition address (n : BlockNode) : string :=
  BasicBlock.address (base_block n).
Definition start_pc (n : BlockNode) : string :=
  BasicBlock.start_pc (base_block n).
Definition instructions (n : BlockNode) : list (string * string) :=
  BasicBlock.instructions (base_block n).

Record Edge : Set := {
  edge_id : nat;
  source : BlockNode;
  target : BlockNode;
  edge_type : string
}.

Record CFG : Set := {
  tx_hash : string;
  nodes : list BlockNode;
  edges : list Edge;
  _next_edge_id : nat
}.

#[global] Instance BlockNode_eq_dec : EqDecision BlockNode.
Proof. solve_decision. Defined.
#[global] Instance Edge_eq_dec : EqDecision Edge.
Proof. solve_decision. Defined.

(** Modelled from the spec: [CFG(tx_hash=...)], an empty graph whose
    edge counter starts at 0. *)
Definition new (tx_hash : string) : CFG :=
  {| tx_hash := tx_hash; nodes := []; edges := []; _next_edge_id := 0 |}.

(** Modelled from the spec: [add_node(n)] of the ordered node
    collection. *)
Definition add_node (cfg : CFG) (n : BlockNode) : CFG :=
  {| tx_hash := tx_hash cfg;
     nodes := nodes cfg ++ [n];
     edges := edges cfg;
     _next_edge_id := _next_edge_id cfg |}.

(** Modelled from the spec: [add_edge(source, target, kind)], which
    gives the new edge the next id of the monotonic counter. *)
Definition add_edge (cfg : CFG) (source target : BlockNode)
  (edge_type : string) : CFG :=
  {| tx_hash := tx_hash cfg;
     nodes := nodes cfg;
     edges := edges cfg ++
              [{| edge_id := _next_edge_id cfg; source := source;
                  target := target; edge_type := edge_type |}];
     _next_edge_id := S (_next_edge_id cfg) |}.

Definition touches (n : BlockNode) (e : Edge) : Prop :=
  source e = n ∨ target e = n.

(** Modelled from the spec: [remove_node(n)], which also removes every
    edge with [source == n] or [target == n]; ids are never reused, the
    counter is left alone. *)
Definition remove_node (cfg : CFG) (n : BlockNode) : CFG :=
  {| tx_hash := tx_hash cfg;
     nodes := filter (fun m => m ≠ n) (nodes cfg);
     edges := filter (fun e => ¬ touches n e) (edges cfg);
     _next_edge_id := _next_edge_id cfg |}.

End CFGStructure.

Import CFGStructure.

(** A [for] loop whose body can raise. *)
Fixpoint for_each {A S : Type} (body : S → A → result S) (s : S)
  (l : list A) : result S :=
  match l with
  | [] => Ok s
  | x :: l' =>
      match body s x with
      | Ok s' => for_each body s' l'
      | Raise e => Raise e
      end
  end.

(** ** StaticCompleteCFGBuilder (cfg_static_complete.py) *)

Module StaticCompleteCFGBuilder.

Definition lower_hex (c : ascii) : bool :=
  let k := nat_of_ascii c in
  bool_decide (48 ≤ k ≤ 57 ∨ 97 ≤ k ≤ 102)%nat.

(** [re.findall(r"[0-9a-f]{2}", s)] *)
Fixpoint findall_hex_pairs (s : string) : list string :=
  match s with
  | String a t =>
      match t with
      | String b s' =>
          if lower_hex a && lower_hex b
          then String a (String b EmptyString) :: findall_hex_pairs s'
          else findall_hex_pairs t
      | EmptyString => []
      end
  | EmptyString => []
  end.

Definition edge_type_map : gmap string string :=
  list_to_map
    [("JUMP", "JUMP"); ("JUMPI", "JUMPI"); ("CALL", "CALL");
     ("CALLCODE", "CALL"); ("DELEGATECALL", "DELEGATECALL");
     ("STATICCALL", "STATICCALL"); ("RETURN", "RETURN");
     ("REVERT", "REVERT"); ("SELFDESTRUCT", "DESTRUCT");
     ("STOP", "TERMINATE"); ("INVALID", "INVALID");
     ("CREATE", "CREATE"); ("CREATE2", "CREATE");
     ("SEQUENCE", "SEQUENCE"); ("CONDITION_TRUE", "CONDITION_TRUE");
     ("CONDITION_FALSE", "CONDITION_FALSE")]%string.

Definition _get_edge_type (opcode : string) : string :=
  default "UNKNOWN"%string (edge_type_map !! opcode).

Definition _get_opcode_length (opcode : string) : Z :=
  if PyStr.startswith opcode "PUSH" then
    match PyStr.int (PyStr.from 4 opcode) with
    | Some n => 1 + n
    | None => 1
    end
  else 1.

Definition _connect_blocks (cfg : CFG) (current_node next_node : BlockNode)
  (edge_type : string) : CFG :=
  {| tx_hash := tx_hash cfg;
     nodes := nodes cfg;
     edges := edges cfg ++
              [{| edge_id := _next_edge_id cfg; source := current_node;
                  target := next_node; edge_type := edge_type |}];
     _next_edge_id := S (_next_edge_id cfg) |}.

Section Builder.

(** [self.sva.instructions], the disassembly of the contract's
    bytecode, [self.contract_bytecode] and [self.contract_blocks]. *)
Variable sva_instructions : list SVA.Instruction.
Variable contract_bytecode : string.
Variable contract_blocks : list Block.

Definition contract_address : string :=
  match contract_blocks with
  | b :: _ => BasicBlock.address b
  | [] =>
      String.append "0x"
        (String.concat ""
           (take 20 (findall_hex_pairs (PyStr.from 2 contract_bytecode))))
  end.

Definition block_by_start_pc : gmap (string * string) Block :=
  foldl (fun m block => <[BasicBlock.key block := block]> m)
    ∅ contract_blocks.

Definition pc_to_start_pc : gmap (string * string) string :=
  foldl
    (fun m block =>
       foldl
         (fun m' instr =>
            <[(BasicBlock.address block, instr.1) :=
                BasicBlock.start_pc block]> m')
         m (BasicBlock.instructions block))
    ∅ contract_blocks.

Definition _find_block_by_start_pc (address start_pc : string)
  : result Block :=
  match block_by_start_pc !! (address, start_pc) with
  | Some block => Ok block
  | None => Raise ValueError
  end.

Definition _find_block_by_pc (address pc : string) : result Block :=
  match pc_to_start_pc !! (address, pc) with
  | Some start_pc => _find_block_by_start_pc address start_pc
  | None => Raise ValueError
  end.

(** The [try] block each rule of [build_static_cfg] repeats:
    find the block holding [pc_hex], look its node up in [node_map]
    and connect; [except ValueError: pass].  [avoid_self_loop] is the
    extra test [target_node != current_node] of the two jump rules. *)
Definition connect_to_pc (avoid_self_loop : bool) (cfg : CFG)
  (node_map : gmap (string * string) BlockNode)
  (current_node : BlockNode) (address pc_hex edge_type : string)
  : result CFG :=
  match _find_block_by_pc address pc_hex with
  | Ok found =>
      match node_map !! BasicBlock.key found with
      | Some node =>
          if avoid_self_loop && bool_decide (node = current_node)
          then Ok cfg
          else Ok (_connect_blocks cfg current_node node edge_type)
      | None => Ok cfg
      end
  | Raise ValueError => Ok cfg
  | Raise e => Raise e
  end.

(** The body of the second loop of [build_static_cfg]. *)
Definition connect_block (node_map : gmap (string * string) BlockNode)
  (cfg : CFG) (block : Block) : result CFG :=
  match node_map !! BasicBlock.key block with
  | None => Raise KeyError
  | Some current_node =>
      match last (BasicBlock.instructions block) with
      | None => Ok cfg
      | Some (pc, terminator_opcode) =>
          match PyStr.int16 pc with
          | None => Raise ValueError
          | Some pc_int =>
              if String.eqb terminator_opcode "JUMPI" then
                let next_pc_hex :=
                  PyStr.to_hex (pc_int + _get_opcode_length "JUMPI") in
                cfg1 ← connect_to_pc false cfg node_map current_node
                         (BasicBlock.address block) next_pc_hex
                         (_get_edge_type "CONDITION_FALSE");
                target_pc_int ← SVA.get_jump_target sva_instructions pc_int;
                match target_pc_int with
                | Some t =>
                    connect_to_pc true cfg1 node_map current_node
                      (BasicBlock.address block) (PyStr.to_hex t)
                      (_get_edge_type "CONDITION_TRUE")
                | None => Ok cfg1
                end
              else if String.eqb terminator_opcode "JUMP" then
                target_pc_int ← SVA.get_jump_target sva_instructions pc_int;
                match target_pc_int with
                | Some t =>
                    connect_to_pc true cfg node_map current_node
                      (BasicBlock.address block) (PyStr.to_hex t)
                      (_get_edge_type "JUMP")
                | None => Ok cfg
                end
              else if name_in terminator_opcode
                        ["STOP"; "RETURN"; "REVERT"; "INVALID";
                         "SELFDESTRUCT"]%string then
                Ok cfg
              else if name_in terminator_opcode
                        ["CALL"; "CALLCODE"; "DELEGATECALL"; "STATICCALL";
                         "CREATE"; "CREATE2"]%string then
                connect_to_pc false cfg node_map current_node
                  (BasicBlock.address block)
                  (PyStr.to_hex
                     (pc_int + _get_opcode_length terminator_opcode))
                  (_get_edge_type terminator_opcode)
              else
                connect_to_pc false cfg node_map current_node
                  (BasicBlock.address block)
                  (PyStr.to_hex
                     (pc_int + _get_opcode_length terminator_opcode))
                  (_get_edge_type "SEQUENCE")
          end
      end
  end.

(** The first loop of [build_static_cfg]: one node per block. *)
Definition add_block_node
  (st : CFG * gmap (string * string) BlockNode) (block : Block)
  : CFG * gmap (string * string) BlockNode :=
  let node := {| base_block := block |} in
  (add_node st.1 node, <[(address node, start_pc node) := node]> st.2).

Definition has_incoming_edge (cfg : CFG) (node : BlockNode) : bool :=
  bool_decide (Exists (fun edge => target edge = node) (edges cfg)).

(** The test under which the first loop of
    [remove_unreachable_instruction_blocks] appends [node] to
    [to_remove]. *)
Definition unreachable (cfg : CFG) (node : BlockNode) : bool :=
  negb (has_incoming_edge cfg node)
  && negb (String.eqb (BasicBlock.start_pc (base_block node)) "0x0")
  && match head (BasicBlock.instructions (base_block node)) with
     | Some first_instruction =>
         negb (String.eqb first_instruction.2 "JUMPDEST")
     | None => false
     end.

Definition remove_unreachable_instruction_blocks (cfg : CFG)
  (node_map : gmap (string * string) BlockNode)
  : result (CFG * gmap (string * string) BlockNode) :=
  let to_remove := filter (fun node => unreachable cfg node) (nodes cfg) in
  for_each
    (fun st node =>
       match st.2 !! (address node, start_pc node) with
       | Some _ =>
           Ok (remove_node st.1 node,
               delete (address node, start_pc node) st.2)
       | None => Raise KeyError
       end)
    (cfg, node_map) to_remove.

(** The graph and [node_map] after node creation. *)
Definition create_nodes : CFG * gmap (string * string) BlockNode :=
  foldl add_block_node
    (CFGStructure.new (String.append "static_complete_" contract_address), ∅)
    contract_blocks.

(** The graph after node creation and edge synthesis, before pruning. *)
Definition synthesize_edges
  : result (CFG * gmap (string * string) BlockNode) :=
  let st := create_nodes in
  cfg' ← for_each (connect_block st.2) st.1 contract_blocks;
  Ok (cfg', st.2).

Definition build_static_cfg : result CFG :=
  st ← synthesize_edges;
  st' ← remove_unreachable_instruction_blocks st.1 st.2;
  Ok st'.1.

End Builder.

End StaticCompleteCFGBuilder.

Module Static := StaticCompleteCFGBuilder.

(** ** Standardized traces (evm_information.py) *)

Module EvmInformation.

Record StandardizedStep : Set := {
  address : string;
  pc : string;
  opcode : string;
  stack : list string
}.

Record StandardizedTrace : Set := {
  tx_hash : string;
  steps : list StandardizedStep
}.

(** One record of [structLogs], as [step.get] reads it: [pc] (default
    0), [op] (default the empty string) and [stack] (default the empty
    list, top of stack last). *)
Record StructLog : Set := {
  log_pc : Z;
  log_op : string;
  log_stack : list string
}.

Definition call_opcodes : list string :=
  ["CALL"; "CALLCODE"; "DELEGATECALL"; "STATICCALL"]%string.
Definition create_opcodes : list string := ["CREATE"; "CREATE2"]%string.
Definition halt_opcodes : list string :=
  ["STOP"; "RETURN"; "REVERT"; "INVALID"; "SELFDESTRUCT"]%string.

(** The local variables of the loop of [get_standardized_trace]. *)
Record tracker : Set := {
  current_address : string;
  next_address : string;
  call_stack : list string;
  emitted : list StandardizedStep
}.

Section TraceFormatter.

(** [Web3.to_checksum_address], a function of the web3 library:
    [None] when it raises. *)
Variable to_checksum_address : string → option string.

Definition _normalize_address (address : string) : string :=
  if String.eqb address "" then ""%string
  else match to_checksum_address address with
       | Some checksum_addr => PyStr.lower checksum_addr
       | None => ""%string
       end.

Definition _normalize_pc (pc : Z) : string := PyStr.to_hex pc.

Definition _normalize_stack (raw_stack : list string) : list string :=
  map (fun item =>
         if String.eqb item "" then "0x"%string
         else if PyStr.startswith item "0x" then item
         else String.append "0x" item)
    raw_stack.

(** [raw_stack[-2]], read under the test [len(raw_stack) >= 2] *)
Definition second_from_top (raw_stack : list string) : option string :=
  raw_stack !! (length raw_stack - 2)%nat.

(** The body of the loop over [struct_logs]. *)
Definition ingest (t : tracker) (step : StructLog) : tracker :=
  let pc := log_pc step in
  let opcode := PyStr.upper (log_op step) in
  let raw_stack := log_stack step in
  let '(call_stack', next_address') :=
    if name_in opcode call_opcodes then
      if decide (2 ≤ length raw_stack)%nat then
        match second_from_top raw_stack with
        | Some item =>
            let to_address := _normalize_address item in
            if String.eqb to_address "" then
              (call_stack t, next_address t)
            else (call_stack t ++ [current_address t], to_address)
        | None => (call_stack t, next_address t)
        end
      else (call_stack t, next_address t)
    else if name_in opcode create_opcodes then
      (* [new_address = ""], so the inner [if] never fires *)
      (call_stack t, next_address t)
    else if name_in opcode halt_opcodes
            && bool_decide (1 < length (call_stack t))%nat then
      match last (call_stack t) with
      | Some caller => (removelast (call_stack t), caller)
      | None => (call_stack t, next_address t)
      end
    else (call_stack t, current_address t) in
  {| current_address := next_address';
     next_address := next_address';
     call_stack := call_stack';
     emitted := emitted t ++
                [{| address := current_address t;
                    pc := _normalize_pc pc;
                    opcode := opcode;
                    stack := _normalize_stack raw_stack |}] |}.

(** The tracker before the first step; [tx_to] is what
    [_get_initial_address] fetched. *)
Definition start (tx_to : string) : tracker :=
  let initial_address := _normalize_address tx_to in
  {| current_address := initial_address;
     next_address := initial_address;
     call_stack :=
       if String.eqb initial_address "" then [] else [initial_address];
     emitted := [] |}.

Definition get_standardized_trace (tx_hash tx_to : string)
  (struct_logs : list StructLog) : StandardizedTrace :=
  {| tx_hash := tx_hash;
     steps := emitted (foldl ingest (start tx_to) struct_logs) |}.

End TraceFormatter.

(** [extract_contracts_from_trace]: the set of the non-empty address
    labels of the steps. *)
Definition extract_contracts_from_trace (standardized_trace : StandardizedTrace)
  : gset string :=
  list_to_set
    (filter (fun a => a ≠ ""%string) (address <$> steps standardized_trace)).

End EvmInformation.

Abbreviation StandardizedStep := EvmInformation.StandardizedStep.

(** ** The dynamic builders (cfg_transaction.py, cfg_contract.py) *)

(** What a builder prints: the warning of a skipped step, with the index
    of the step and the [(address, pc)] that was not found. *)
Inductive printed : Set :=
| Warning (step_index : nat) (address pc : string).

(** The variables the walk over the steps updates. *)
Record walk : Set := {
  cfg : CFG;
  processed_nodes : gmap (string * string) BlockNode;
  current_node : BlockNode;
  output : list printed
}.

(** "Reuse or create the next node", then [cfg.add_edge] and
    [current_node = next_node]: the tail both builders share. *)
Definition enter_block (w : walk) (next_base_block : Block)
  (edge_type : string) : walk :=
  let next_node_key := BasicBlock.key next_base_block in
  let '(next_node, processed, cfg1) :=
    match processed_nodes w !! next_node_key with
    | Some node => (node, processed_nodes w, cfg w)
    | None =>
        let node := {| base_block := next_base_block |} in
        (node, <[next_node_key := node]> (processed_nodes w),
         add_node (cfg w) node)
    end in
  {| cfg := add_edge cfg1 (current_node w) next_node edge_type;
     processed_nodes := processed;
     current_node := next_node;
     output := output w |}.

Definition warn (w : walk) (step_index : nat) (step : StandardizedStep)
  : walk :=
  {| cfg := cfg w;
     processed_nodes := processed_nodes w;
     current_node := current_node w;
     output := output w ++
               [Warning step_index (EvmInformation.address step)
                  (EvmInformation.pc step)] |}.

(** "Create the first node". *)
Definition first_walk (tx_hash : string) (current_base_block : Block)
  : walk :=
  let current_node := {| base_block := current_base_block |} in
  {| cfg := add_node (CFGStructure.new tx_hash) current_node;
     processed_nodes := {[BasicBlock.key current_base_block := current_node]};
     current_node := current_node;
     output := [] |}.

(** [_get_edge_type], the same method in both classes. *)
Definition _get_edge_type (opcode : string) : string :=
  if name_in opcode ["JUMP"; "JUMPI"]%string then "JUMP"%string
  else if name_in opcode
            ["CALL"; "CALLCODE"; "DELEGATECALL"; "STATICCALL"]%string
       then "CALL"%string
  else if name_in opcode ["RETURN"; "REVERT"]%string then "RETURN"%string
  else if String.eqb opcode "SELFDESTRUCT" then "DESTRUCT"%string
  else if name_in opcode ["STOP"; "INVALID"]%string then "TERMINATE"%string
  else if name_in opcode ["CREATE"; "CREATE2"]%string then "CREATE"%string
  else "UNKNOWN"%string.

(** [self.base_block_map], filled the same way by both constructors:
    the last block of each key stays. *)
Definition base_block_map (blocks : list Block)
  : gmap (string * string) Block :=
  foldl (fun m block => <[BasicBlock.key block := block]> m) ∅ blocks.

Module CFGConstructor.

Definition split_opcodes : list string :=
  ["JUMP"; "JUMPI"; "CALL"; "CALLCODE"; "DELEGATECALL"; "STATICCALL";
   "CREATE"; "CREATE2"; "STOP"; "RETURN"; "REVERT"; "INVALID";
   "SELFDESTRUCT"]%string.

Section Constructor.

Variable all_base_blocks : list Block.

Definition _find_base_block (address pc : string) : result Block :=
  match base_block_map all_base_blocks !! (address, pc) with
  | Some block => Ok block
  | None => Raise ValueError
  end.

(** The [while] loop of [construct_cfg]; [steps] is what is left of
    the trace from [current_step_idx] on. *)
Fixpoint loop (steps : list StandardizedStep) (current_step_idx : nat)
  (w : walk) : result walk :=
  match steps with
  | [] => Ok w
  | current_step :: rest =>
      let current_opcode := EvmInformation.opcode current_step in
      if name_in current_opcode split_opcodes then
        match rest with
        | [] => Ok w
        | next_step :: _ =>
            match _find_base_block (EvmInformation.address next_step)
                    (EvmInformation.pc next_step) with
            | Ok next_base_block =>
                loop rest (S current_step_idx)
                  (enter_block w next_base_block
                     (_get_edge_type current_opcode))
            | Raise ValueError =>
                loop rest (S current_step_idx)
                  (warn w (S current_step_idx) next_step)
            | Raise e => Raise e
            end
        end
      else loop rest (S current_step_idx) w
  end.

(** [construct_cfg]: the graph and what was printed. *)
Definition construct_cfg (trace : EvmInformation.StandardizedTrace)
  : result (CFG * list printed) :=
  let tx_hash := EvmInformation.tx_hash trace in
  match EvmInformation.steps trace with
  | [] => Ok (CFGStructure.new tx_hash, [])
  | first_step :: _ =>
      match _find_base_block (EvmInformation.address first_step)
              (EvmInformation.pc first_step) with
      | Ok current_base_block =>
          w ← loop (EvmInformation.steps trace) 0%nat
                (first_walk tx_hash current_base_block);
          Ok (cfg w, output w)
      | Raise ValueError => Raise RuntimeError
      | Raise e => Raise e
      end
  end.

End Constructor.

End CFGConstructor.

Module ContractCFGConnector.

Definition split_opcodes : list string :=
  ["JUMP"; "JUMPI"; "CALL"; "CALLCODE"; "DELEGATECALL"; "STATICCALL";
   "CREATE"; "CREATE2"; "STOP"; "RETURN"; "REVERT"; "INVALID";
   "SELFdestruct"]%string.

Section Connector.

Variable contract_blocks : list Block.

Definition contract_address : string :=
  match contract_blocks with
  | b :: _ => BasicBlock.address b
  | [] => ""%string
  end.

Definition pc_to_start_pc : gmap (string * string) string :=
  foldl
    (fun m block =>
       foldl
         (fun m' instr =>
            <[(BasicBlock.address block, instr.1) :=
                BasicBlock.start_pc block]> m')
         m (BasicBlock.instructions block))
    ∅ contract_blocks.

Definition _find_base_block (address start_pc : string) : result Block :=
  match base_block_map contract_blocks !! (address, start_pc) with
  | Some block => Ok block
  | None => Raise ValueError
  end.

(** The body of both [try] blocks: [pc_to_start_pc[pc_key]], which
    raises [KeyError], then [_find_base_block]. *)
Definition block_of_step (step : StandardizedStep) : result Block :=
  match pc_to_start_pc !!
          (EvmInformation.address step, EvmInformation.pc step) with
  | Some start_pc =>
      _find_base_block (EvmInformation.address step) start_pc
  | None => Raise KeyError
  end.

(** The [while] loop of [connect_contract_cfg]. *)
Fixpoint loop (contract_steps : list StandardizedStep)
  (current_step_idx : nat) (w : walk) : result walk :=
  match contract_steps with
  | [] => Ok w
  | current_step :: rest =>
      let current_opcode := EvmInformation.opcode current_step in
      if name_in current_opcode split_opcodes then
        match rest with
        | [] => Ok w
        | next_step :: _ =>
            match block_of_step next_step with
            | Ok next_base_block =>
                loop rest (S current_step_idx)
                  (enter_block w next_base_block
                     (_get_edge_type current_opcode))
            | Raise KeyError | Raise ValueError =>
                loop rest (S current_step_idx)
                  (warn w (S current_step_idx) next_step)
            | Raise e => Raise e
            end
        end
      else loop rest (S current_step_idx) w
  end.

Definition connect_contract_cfg (contract_steps : list StandardizedStep)
  : result (CFG * list printed) :=
  let tx_hash := String.append "contract_" contract_address in
  match contract_blocks, contract_steps with
  | [], _ | _, [] => Ok (CFGStructure.new tx_hash, [])
  | _ :: _, first_step :: _ =>
      match block_of_step first_step with
      | Ok current_base_block =>
          w ← loop contract_steps 0%nat
                (first_walk tx_hash current_base_block);
          Ok (cfg w, output w)
      | Raise KeyError | Raise ValueError => Raise RuntimeError
      | Raise e => Raise e
      end
  end.

End Connector.

End ContractCFGConnector.

(** ** The entry point (main.py) *)

Module Main.

(** The directory name [create_result_directory] derives from the
    transaction hash, [tx_hash.lstrip('0x')]; the directory is
    [Result/<that name>]. *)
Definition tx_dir_name (tx_hash : string) : string :=
  PyStr.lstrip ["0"%char; "x"%char] tx_hash.

(** [addr.lstrip('0x')[:8]], the part of a contract address that names
    its DOT files. *)
Definition short_addr (addr : string) : string :=
  String.substring 0 8 (PyStr.lstrip ["0"%char; "x"%char] addr).

(** The body of the loop over [contracts]: the blocks and the steps of
    one contract, and the graph built from them; [None] when the
    contract has no block and is skipped. *)
Definition contract_blocks (all_blocks : list Block) (contract_addr : string)
  : list Block :=
  filter (fun b => BasicBlock.address b = contract_addr) all_blocks.

Definition contract_steps (standardized_trace : EvmInformation.StandardizedTrace)
  (contract_addr : string) : list StandardizedStep :=
  filter (fun step => EvmInformation.address step = contract_addr)
    (EvmInformation.steps standardized_trace).

Definition contract_cfg (all_blocks : list Block)
  (standardized_trace : EvmInformation.StandardizedTrace)
  (contract_addr : string) : option (result (CFG * list printed)) :=
  match contract_blocks all_blocks contract_addr with
  | [] => None
  | _ :: _ =>
      Some (ContractCFGConnector.connect_contract_cfg
              (contract_blocks all_blocks contract_addr)
              (contract_steps standardized_trace contract_addr))
  end.

End Main.

(** * Vocabulary of the statements *)

(** A map filled by a loop of [m[f(x)] = g(x)] over a list. *)
Definition fold_insert {K V A : Type} `{Countable K} (f : A → K) (g : A → V)
  (m : gmap K V) (l : list A) : gmap K V :=
  foldl (fun m x => <[f x := g x]> m) m l.

Definition node_of (b : Block) : BlockNode := {| base_block := b |}.

(** [pc_hex] is the pc of one of the instructions of [b]. *)
Definition holds (b : Block) (pc_hex : string) : Prop :=
  pc_hex ∈ (BasicBlock.instructions b).*1.

(** Connect pairs of nodes one after the other, as successive calls of
    [_connect_blocks] do. *)
Definition connect_all (cfg : CFG)
  (l : list (BlockNode * BlockNode * string)) : CFG :=
  foldl (fun c e => Static._connect_blocks c e.1.1 e.1.2 e.2) cfg l.

(** The loop body run over [scan], the instructions in visiting order,
    from [stack]: the abstract stack at the end, or the way an iteration
    ended the loop. *)
Fixpoint scanned (scan : list SVA.Instruction) (stack : list Z) : SVA.flow :=
  match scan with
  | [] => SVA.Next stack
  | instr :: scan' =>
      match SVA.step instr stack with
      | SVA.Next stack' => scanned scan' stack'
      | ended => ended
      end
  end.

(** The abstract stack is too short for [instr]: POP on the empty stack,
    an arithmetic opcode on fewer than two elements, DUPn on fewer than
    n, SWAPn on fewer than n + 1. *)
Definition too_short (instr : SVA.Instruction) (stack : list Z) : Prop :=
  (SVA.name instr = "POP"%string ∧ stack = [])
  ∨ (name_in (SVA.name instr) SVA.arithmetic = true
     ∧ (length stack < 2)%nat)
  ∨ (∃ n, PyStr.startswith (SVA.name instr) "DUP" = true
          ∧ PyStr.int (PyStr.from 3 (SVA.name instr)) = Some n
          ∧ Z.of_nat (length stack) < n)
  ∨ (∃ n, PyStr.startswith (SVA.name instr) "SWAP" = true
          ∧ PyStr.int (PyStr.from 4 (SVA.name instr)) = Some n
          ∧ Z.of_nat (length stack) < n + 1).

(** The graph [cfg] with one more edge for each triple of [added], in
    the order of the list: the new edges follow the edges of [cfg] and
    take the ids from [cfg]'s counter on; the nodes and the name of the
    graph stay. *)
Definition appended (cfg : CFG)
  (added : list (BlockNode * BlockNode * string)) : CFG :=
  {| tx_hash := tx_hash cfg;
     nodes := nodes cfg;
     edges := edges cfg ++
              imap (fun i e =>
                      {| edge_id := (_next_edge_id cfg + i)%nat;
                         source := e.1.1;
                         target := e.1.2;
                         edge_type := e.2 |})
                added;
     _next_edge_id := (_next_edge_id cfg + length added)%nat |}.

Definition node_key (n : BlockNode) : string * string :=
  (address n, start_pc n).

(** The ids of the edges, in list order, are 0, 1, ..., E - 1 and the
    counter stands at E. *)
Definition contiguous_ids (cfg : CFG) : Prop :=
  edge_id <$> edges cfg = seq 0 (length (edges cfg))
  ∧ _next_edge_id cfg = length (edges cfg).

(** The step emitted for a raw step when the current address is [a]. *)
Definition labelled (a : string) (step : EvmInformation.StructLog)
  : StandardizedStep :=
  {| EvmInformation.address := a;
     EvmInformation.pc :=
       EvmInformation._normalize_pc (EvmInformation.log_pc step);
     EvmInformation.opcode := PyStr.upper (EvmInformation.log_op step);
     EvmInformation.stack :=
       EvmInformation._normalize_stack (EvmInformation.log_stack step) |}.

(** The start pcs of the nodes and, for each edge, its id, the start pcs
    of its ends and its kind. *)
Definition summary (cfg : CFG)
  : list string * list (nat * string * string * string) :=
  (start_pc <$> nodes cfg,
   (fun e => (edge_id e, start_pc (source e), start_pc (target e),
              edge_type e)) <$> edges cfg).

(** What one rule of the static builder adds for the block [block] and
    the successor pc [pc_hex]: when the lookup finds a block of the same
    contract holding that pc, one edge of kind [kind] to it (none when
    [avoid_self_loop] is set and that block is [block] itself); when no
    block of the contract holds the pc, nothing. *)
Definition successor_edges (blocks : list Block) (block : Block)
  (avoid_self_loop : bool) (pc_hex kind : string)
  (added : list (BlockNode * BlockNode * string)) : Prop :=
  match Static._find_block_by_pc blocks (BasicBlock.address block) pc_hex with
  | Ok found =>
      added = (if avoid_self_loop && bool_decide (found = block) then []
               else [(node_of block, node_of found, kind)])
      ∧ found ∈ blocks
      ∧ BasicBlock.address found = BasicBlock.address block
      ∧ holds found pc_hex
  | Raise _ =>
      added = []
      ∧ ∀ b, b ∈ blocks →
             BasicBlock.address b = BasicBlock.address block →
             ¬ holds b pc_hex
  end.

(** The edge kinds the static builder uses. *)
Definition static_kinds : list string :=
  ["CONDITION_FALSE"; "CONDITION_TRUE"; "JUMP"; "CALL"; "DELEGATECALL";
   "STATICCALL"; "CREATE"; "SEQUENCE"]%string.

(** An edge of a static graph over the nodes [N]: it joins two of them,
    has one of the static kinds and, when it stands for a jump, does not
    come back to its source. *)
Definition static_edge (N : list BlockNode) (e : Edge) : Prop :=
  source e ∈ N ∧ target e ∈ N ∧ edge_type e ∈ static_kinds
  ∧ (edge_type e ∈ ["JUMP"; "CONDITION_TRUE"]%string → source e ≠ target e).

(** The fields of a raw step that do not depend on the tracker. *)
Definition content (step : EvmInformation.StructLog)
  : string * string * list string :=
  (EvmInformation._normalize_pc (EvmInformation.log_pc step),
   PyStr.upper (EvmInformation.log_op step),
   EvmInformation._normalize_stack (EvmInformation.log_stack step)).

Definition content_of (e : StandardizedStep)
  : string * string * list string :=
  (EvmInformation.pc e, EvmInformation.opcode e, EvmInformation.stack e).

(** An opcode that neither calls nor returns to a caller. *)
Definition stays (t : EvmInformation.tracker)
  (step : EvmInformation.StructLog) : Prop :=
  name_in (PyStr.upper (EvmInformation.log_op step))
    EvmInformation.call_opcodes = false
  ∧ (name_in (PyStr.upper (EvmInformation.log_op step))
       EvmInformation.halt_opcodes = false
     ∨ (length (EvmInformation.call_stack t) ≤ 1)%nat).

(** The edges [es], in list order, form one walk that starts at [from]:
    each edge leaves the node the one before it entered. *)
Fixpoint walks (from : BlockNode) (es : list Edge) : Prop :=
  match es with
  | [] => True
  | e :: es' => source e = from ∧ walks (target e) es'
  end.

(** The node the walk [es] from [from] ends at. *)
Fixpoint walk_end (from : BlockNode) (es : list Edge) : BlockNode :=
  match es with
  | [] => from
  | e :: es' => walk_end (target e) es'
  end.

(** What holds of the variables of a dynamic builder's loop, whatever
    blocks it is made to enter: the graph starts with the node [first],
    no two nodes share a key, [processed_nodes] indexes exactly the
    nodes of the graph by their keys, and the edges are one walk from
    [first] to [current_node] over nodes of the graph. *)
Definition well_formed (first : BlockNode) (w : walk) : Prop :=
  head (nodes (cfg w)) = Some first
  ∧ NoDup (node_key <$> nodes (cfg w))
  ∧ (∀ k n, processed_nodes w !! k = Some n
            ↔ n ∈ nodes (cfg w) ∧ node_key n = k)
  ∧ current_node w ∈ nodes (cfg w)
  ∧ walks first (edges (cfg w))
  ∧ walk_end first (edges (cfg w)) = current_node w
  ∧ Forall (fun e => source e ∈ nodes (cfg w) ∧ target e ∈ nodes (cfg w))
      (edges (cfg w)).

(** The number of steps that end a block and have a successor in the
    list: the steps at which a builder looks for the next block. *)
Definition boundaries (split_opcodes : list string)
  (steps : list StandardizedStep) : nat :=
  length (filter (fun s => name_in (EvmInformation.opcode s) split_opcodes
                           = true)
            (removelast steps)).

(** The edge kinds of the dynamic builders. *)
Definition dynamic_kinds : list string :=
  ["JUMP"; "CALL"; "RETURN"; "DESTRUCT"; "TERMINATE"; "CREATE"]%string.

(** * Concrete inputs *)

Module Scenarios.

Definition ins (pc : Z) (name : string) (operand : Z) : SVA.Instruction :=
  {| SVA.pc := pc; SVA.name := name; SVA.operand := operand |}.

(** Bytecode [6001 6008 57 00 5b 00]. *)
Definition jumpi_listing : list SVA.Instruction :=
  [ins 0 "PUSH1" 1; ins 2 "PUSH1" 8; ins 4 "JUMPI" 0; ins 5 "STOP" 0;
   ins 6 "JUMPDEST" 0; ins 7 "STOP" 0].

(** Bytecode [00 5b 6005 56 5b 00]. *)
Definition jumpdest_listing : list SVA.Instruction :=
  [ins 0 "STOP" 0; ins 1 "JUMPDEST" 0; ins 2 "PUSH1" 5; ins 4 "JUMP" 0;
   ins 5 "JUMPDEST" 0; ins 6 "STOP" 0].

End Scenarios.

Module GapScenario.

(** Bytecode [00 6004 56 5b 01 5b 00] and its four basic blocks. *)
Definition listing : list SVA.Instruction :=
  [Scenarios.ins 0 "STOP" 0; Scenarios.ins 1 "PUSH1" 4;
   Scenarios.ins 3 "JUMP" 0; Scenarios.ins 4 "JUMPDEST" 0;
   Scenarios.ins 5 "ADD" 0; Scenarios.ins 6 "JUMPDEST" 0;
   Scenarios.ins 7 "STOP" 0].

Definition bytecode : string := "0x006004565b015b00".

Definition contract : string := "0x00000000000000000000000000000000000000c0".

Definition block (start_pc end_pc terminator : string)
  (instructions : list (string * string)) : Block :=
  {| BasicBlock.address := contract;
     BasicBlock.start_pc := start_pc;
     BasicBlock.end_pc := end_pc;
     BasicBlock.terminator := terminator;
     BasicBlock.instructions := instructions |}.

Definition blocks : list Block :=
  [block "0x0" "0x0" "STOP" [("0x0", "STOP")];
   block "0x1" "0x3" "JUMP" [("0x1", "PUSH1"); ("0x3", "JUMP")];
   block "0x4" "0x5" "ADD" [("0x4", "JUMPDEST"); ("0x5", "ADD")];
   block "0x6" "0x7" "STOP" [("0x6", "JUMPDEST"); ("0x7", "STOP")]]%string.

End GapScenario.

Module TakenScenario.

(** The three basic blocks of [Scenarios.jumpi_listing]. *)
Definition blocks : list Block :=
  [GapScenario.block "0x0" "0x4" "JUMPI"
     [("0x0", "PUSH1"); ("0x2", "PUSH1"); ("0x4", "JUMPI")];
   GapScenario.block "0x5" "0x5" "STOP" [("0x5", "STOP")];
   GapScenario.block "0x6" "0x7" "STOP"
     [("0x6", "JUMPDEST"); ("0x7", "STOP")]]%string.

End TakenScenario.

Module JumpiScenario.

(** Bytecode [34 6005 57 00 5b 00]: CALLVALUE, PUSH1 5, JUMPI, STOP,
    JUMPDEST, STOP. *)
Definition listing : list SVA.Instruction :=
  [Scenarios.ins 0 "CALLVALUE" 0; Scenarios.ins 1 "PUSH1" 5;
   Scenarios.ins 3 "JUMPI" 0; Scenarios.ins 4 "STOP" 0;
   Scenarios.ins 5 "JUMPDEST" 0; Scenarios.ins 6 "STOP" 0].

Definition bytecode : string := "0x34600557005b00".

Definition head_block : Block :=
  GapScenario.block "0x0" "0x3" "JUMPI"
    [("0x0", "CALLVALUE"); ("0x1", "PUSH1"); ("0x3", "JUMPI")]%string.
Definition stop_block : Block :=
  GapScenario.block "0x4" "0x4" "STOP" [("0x4", "STOP")]%string.
Definition dest_block : Block :=
  GapScenario.block "0x5" "0x6" "STOP"
    [("0x5", "JUMPDEST"); ("0x6", "STOP")]%string.

Definition blocks : list Block := [head_block; stop_block; dest_block].

Definition created : CFG * gmap (string * string) BlockNode :=
  Static.create_nodes bytecode blocks.

Definition taken : Edge :=
  {| edge_id := 1;
     source := node_of head_block;
     target := node_of dest_block;
     edge_type := "CONDITION_TRUE" |}.

(** The static graph of the listing. *)
Definition built : CFG :=
  {| tx_hash := String.append "static_complete_" GapScenario.contract;
     nodes := [node_of head_block; node_of stop_block; node_of dest_block];
     edges := [{| edge_id := 0;
                  source := node_of head_block;
                  target := node_of stop_block;
                  edge_type := "CONDITION_FALSE" |};
               taken];
     _next_edge_id := 2 |}.

End JumpiScenario.

Module PruneScenario.

(** The graph and [node_map] of [GapScenario] after edge synthesis:
    four nodes, a JUMP edge from the block at pc 1 to the block at pc 4
    and a SEQUENCE edge from the block at pc 4 to the block at pc 6. *)
Definition synthesized : CFG * gmap (string * string) BlockNode :=
  match Static.synthesize_edges GapScenario.listing GapScenario.bytecode
          GapScenario.blocks with
  | Ok st => st
  | Raise _ => (CFGStructure.new "", ∅)
  end.

Definition pruned : result CFG :=
  fst <$> Static.remove_unreachable_instruction_blocks
            synthesized.1 synthesized.2.

(** The graph and [node_map] of [GapScenario] after node creation, and
    two of its blocks. *)
Definition created : CFG * gmap (string * string) BlockNode :=
  Static.create_nodes GapScenario.bytecode GapScenario.blocks.

Definition jump_block : Block :=
  GapScenario.block "0x1" "0x3" "JUMP"
    [("0x1", "PUSH1"); ("0x3", "JUMP")]%string.

Definition dest_block : Block :=
  GapScenario.block "0x4" "0x5" "ADD"
    [("0x4", "JUMPDEST"); ("0x5", "ADD")]%string.

End PruneScenario.

Module CallBlockScenario.

(** Bytecode [5a f4 00]: GAS, DELEGATECALL, STOP. *)
Definition call_block : Block :=
  GapScenario.block "0x0" "0x1" "DELEGATECALL"
    [("0x0", "GAS"); ("0x1", "DELEGATECALL")]%string.

Definition next_block : Block :=
  GapScenario.block "0x2" "0x2" "STOP" [("0x2", "STOP")]%string.

End CallBlockScenario.

Module SelfdestructScenario.

Definition contract : string := "0x00000000000000000000000000000000000000d0".

(** Bytecode [33 ff]: CALLER, SELFDESTRUCT. *)
Definition entry : Block :=
  {| BasicBlock.address := contract;
     BasicBlock.start_pc := "0x0";
     BasicBlock.end_pc := "0x1";
     BasicBlock.terminator := "SELFDESTRUCT";
     BasicBlock.instructions := [("0x0", "CALLER"); ("0x1", "SELFDESTRUCT")]
  |}%string.

Definition step (pc opcode : string) (stack : list string)
  : StandardizedStep :=
  {| EvmInformation.address := contract;
     EvmInformation.pc := pc;
     EvmInformation.opcode := opcode;
     EvmInformation.stack := stack |}.

(** The contract is called twice in one transaction and runs to its
    SELFDESTRUCT both times; these are its steps. *)
Definition steps : list StandardizedStep :=
  [step "0x0" "CALLER" [];
   step "0x1" "SELFDESTRUCT" ["0xa0"];
   step "0x0" "CALLER" [];
   step "0x1" "SELFDESTRUCT" ["0xa0"]]%string.

Definition trace : EvmInformation.StandardizedTrace :=
  {| EvmInformation.tx_hash := "0x01"; EvmInformation.steps := steps |}.

End SelfdestructScenario.

Module CallScenario.

(** A stand-in for [Web3.to_checksum_address] that, like it, accepts a
    20-byte hexadecimal address with its [0x] prefix and rejects every
    other string.  The formatter lowercases the result, so the case of the
    checksum does not matter. *)
Definition hex_address (s : string) : option string :=
  match s with
  | String "0" (String "x" digits) =>
      if PyStr.all_hex digits && bool_decide (String.length digits = 40%nat)
      then Some s else None
  | _ => None
  end.

Definition caller : string := "0x00000000000000000000000000000000000000a0".
Definition callee : string := "0x00000000000000000000000000000000000000b0".

Definition raw (pc : Z) (op : string) (stack : list string)
  : EvmInformation.StructLog :=
  {| EvmInformation.log_pc := pc;
     EvmInformation.log_op := op;
     EvmInformation.log_stack := stack |}.

(** A CALL whose address operand is printed as a 20-byte address. *)
Definition call_with_address : list EvmInformation.StructLog :=
  [raw 0 "GAS" []; raw 1 "CALL" ["0x0"; callee; "0xffff"]; raw 0 "STOP" []].

(** The same CALL with the operand printed as the full 32-byte word. *)
Definition call_with_word : list EvmInformation.StructLog :=
  [raw 0 "GAS" [];
   raw 1 "CALL"
     ["0x0";
      "0x00000000000000000000000000000000000000000000000000000000000000b0";
      "0xffff"];
   raw 0 "STOP" []].

(** A call into the callee, one step there, and the return. *)
Definition call_and_return : list EvmInformation.StructLog :=
  [raw 0 "GAS" []; raw 1 "CALL" ["0x0"; callee; "0xffff"];
   raw 0 "PUSH1" []; raw 2 "RETURN" ["0x0"; "0x0"]].

End CallScenario.

Module SkipScenario.

(** The trace jumps from the block at pc 0 to pc 9, where the block list
    has no block, and from there to the block at pc 3. *)
Definition steps : list StandardizedStep :=
  [SelfdestructScenario.step "0x0" "PUSH1" [];
   SelfdestructScenario.step "0x2" "JUMP" ["0x9"];
   SelfdestructScenario.step "0x9" "JUMPDEST" [];
   SelfdestructScenario.step "0xa" "PUSH1" [];
   SelfdestructScenario.step "0xc" "JUMP" ["0x3"];
   SelfdestructScenario.step "0x3" "STOP" []]%string.

Definition block (start_pc end_pc terminator : string)
  (instructions : list (string * string)) : Block :=
  {| BasicBlock.address := SelfdestructScenario.contract;
     BasicBlock.start_pc := start_pc;
     BasicBlock.end_pc := end_pc;
     BasicBlock.terminator := terminator;
     BasicBlock.instructions := instructions |}.

Definition entry : Block :=
  block "0x0" "0x2" "JUMP" [("0x0", "PUSH1"); ("0x2", "JUMP")]%string.

Definition blocks : list Block :=
  [entry; block "0x3" "0x3" "STOP" [("0x3", "STOP")]]%string.

Definition trace : EvmInformation.StandardizedTrace :=
  {| EvmInformation.tx_hash := "0x02"; EvmInformation.steps := steps |}.

End SkipScenario.

Module DynamicScenario.

(** The graphs the two dynamic builders make of [SkipScenario]. *)
Definition transaction_graph : CFG * list printed :=
  match CFGConstructor.construct_cfg SkipScenario.blocks SkipScenario.trace
  with
  | Ok r => r
  | Raise _ => (CFGStructure.new "", [])
  end.

Definition contract_graph : CFG * list printed :=
  match ContractCFGConnector.connect_contract_cfg SkipScenario.blocks
          SkipScenario.steps
  with
  | Ok r => r
  | Raise _ => (CFGStructure.new "", [])
  end.

(** A caller that calls a callee and stops when the callee has
    returned: the raw trace, the trace the formatter makes of it, the
    blocks of both contracts and the caller's graph as main.py builds
    it. *)
Definition logs : list EvmInformation.StructLog :=
  CallScenario.call_and_return ++ [CallScenario.raw 2 "STOP" []].

Definition formatted : EvmInformation.StandardizedTrace :=
  EvmInformation.get_standardized_trace CallScenario.hex_address "0x03"
    CallScenario.caller logs.

Definition block (address start_pc end_pc terminator : string)
  (instructions : list (string * string)) : Block :=
  {| BasicBlock.address := address;
     BasicBlock.start_pc := start_pc;
     BasicBlock.end_pc := end_pc;
     BasicBlock.terminator := terminator;
     BasicBlock.instructions := instructions |}.

Definition all_blocks : list Block :=
  [block CallScenario.caller "0x0" "0x1" "CALL"
     [("0x0", "GAS"); ("0x1", "CALL")];
   block CallScenario.caller "0x2" "0x2" "STOP" [("0x2", "STOP")];
   block CallScenario.callee "0x0" "0x2" "RETURN"
     [("0x0", "PUSH1"); ("0x2", "RETURN")]]%string.

Definition caller_graph : CFG * list printed :=
  match Main.contract_cfg all_blocks formatted CallScenario.caller with
  | Some (Ok r) => r
  | _ => (CFGStructure.new "", [])
  end.

End DynamicScenario.

(** * Properties *)

(** ** Maps built by a loop of insertions *)

Section FoldInsert.

Context {K V A : Type} `{Countable K}.
Variable f : A → K.
Variable g : A → V.

Lemma fold_insert_snoc m l x :
  fold_insert f g m (l ++ [x]) = <[f x := g x]> (fold_insert f g m l).
Proof. unfold fold_insert. by rewrite foldl_snoc. Qed.

Lemma fold_insert_fresh m l k :
  k ∉ f <$> l → fold_insert f g m l !! k = m !! k.
Proof.
  induction l as [|x l IH] using rev_ind; [done|].
  rewrite fmap_app, not_elem_of_app, fold_insert_snoc. simpl.
  intros [Hl Hx]. rewrite lookup_insert_ne; [by apply IH|].
  intros <-. apply Hx. by left.
Qed.

Lemma fold_insert_lookup_Some m l k v :
  fold_insert f g m l !! k = Some v →
  (∃ x, x ∈ l ∧ f x = k ∧ g x = v) ∨ m !! k = Some v.
Proof.
  induction l as [|x l IH] using rev_ind; [by right|].
  rewrite fold_insert_snoc. destruct (decide (f x = k)) as [<-|Hne].
  - rewrite lookup_insert_eq. intros [= <-]. left. exists x.
    split; [|done]. apply elem_of_app. right. by left.
  - rewrite lookup_insert_ne by done. intros Hk.
    destruct (IH Hk) as [(y & Hy & ? & ?)|?]; [left|by right].
    exists y. split; [|done]. apply elem_of_app. by left.
Qed.

Lemma fold_insert_lookup_NoDup m l x :
  NoDup (f <$> l) → x ∈ l → fold_insert f g m l !! f x = Some (g x).
Proof.
  induction l as [|y l IH] using rev_ind; [by rewrite elem_of_nil|].
  rewrite fmap_app, NoDup_app, fold_insert_snoc. simpl.
  intros (Hl & Hfresh & _) [Hx|Hx%list_elem_of_singleton]%elem_of_app.
  - rewrite lookup_insert_ne; [by apply IH|].
    intros Heq. apply (Hfresh (f x)).
    + apply list_elem_of_fmap. by exists x.
    + rewrite Heq. by left.
  - subst. by rewrite lookup_insert_eq.
Qed.

Lemma fold_insert_is_Some m l x :
  x ∈ l → is_Some (fold_insert f g m l !! f x).
Proof.
  induction l as [|y l IH] using rev_ind; [by rewrite elem_of_nil|].
  rewrite fold_insert_snoc.
  intros [Hx|Hx%list_elem_of_singleton]%elem_of_app.
  - destruct (decide (f y = f x)) as [->|?].
    + by rewrite lookup_insert_eq.
    + rewrite lookup_insert_ne by done. by apply IH.
  - subst. by rewrite lookup_insert_eq.
Qed.

End FoldInsert.

(** ** The indexes of the builders *)

Module IndexFacts.

Lemma base_block_map_fold blocks :
  base_block_map blocks = fold_insert BasicBlock.key id ∅ blocks.
Proof. done. Qed.

Lemma base_block_map_Some blocks k b :
  base_block_map blocks !! k = Some b → b ∈ blocks ∧ BasicBlock.key b = k.
Proof.
  rewrite base_block_map_fold. intros Hk.
  apply fold_insert_lookup_Some in Hk as [(x & Hx & Hkey & <-)|Hk]; [done|].
  by rewrite lookup_empty in Hk.
Qed.

Lemma base_block_map_NoDup blocks b :
  NoDup (BasicBlock.key <$> blocks) → b ∈ blocks →
  base_block_map blocks !! BasicBlock.key b = Some b.
Proof.
  intros. rewrite base_block_map_fold.
  by apply (fold_insert_lookup_NoDup BasicBlock.key id).
Qed.

Lemma pc_to_start_pc_Some blocks a p sp :
  Static.pc_to_start_pc blocks !! (a, p) = Some sp →
  ∃ b, b ∈ blocks ∧ BasicBlock.address b = a ∧ BasicBlock.start_pc b = sp
       ∧ holds b p.
Proof.
  unfold Static.pc_to_start_pc.
  induction blocks as [|b blocks IH] using rev_ind.
  { simpl. by rewrite lookup_empty. }
  rewrite foldl_snoc. intros Hk.
  apply (fold_insert_lookup_Some
           (fun instr : string * string => (BasicBlock.address b, instr.1))
           (fun _ => BasicBlock.start_pc b)) in Hk
    as [(x & Hx & [= <- <-] & <-)|Hk].
  - exists b. split_and!; try done.
    + apply elem_of_app. right. by left.
    + apply list_elem_of_fmap. by exists x.
  - destruct (IH Hk) as (b' & Hb' & ?). exists b'. split; [|done].
    apply elem_of_app. by left.
Qed.

Lemma pc_to_start_pc_is_Some blocks b p :
  b ∈ blocks → holds b p →
  ∃ sp b', Static.pc_to_start_pc blocks !! (BasicBlock.address b, p) = Some sp
           ∧ b' ∈ blocks ∧ BasicBlock.address b' = BasicBlock.address b
           ∧ BasicBlock.start_pc b' = sp.
Proof.
  intros Hb Hp.
  assert (is_Some (Static.pc_to_start_pc blocks !! (BasicBlock.address b, p)))
    as [sp Hsp].
  { unfold Static.pc_to_start_pc. revert Hb.
    induction blocks as [|b0 blocks IH] using rev_ind;
      [by rewrite elem_of_nil|].
    rewrite foldl_snoc.
    intros [Hin|Hin%list_elem_of_singleton]%elem_of_app.
    - specialize (IH Hin). destruct IH as [sp IH].
      match goal with
      | |- is_Some (foldl _ ?m ?l !! ?k) =>
          destruct (decide (k ∈ (fun instr : string * string =>
                       (BasicBlock.address b0, instr.1)) <$> l)) as [Hk|Hk]
      end.
      + apply list_elem_of_fmap in Hk as (x & -> & Hx).
        apply (fold_insert_is_Some
                 (fun instr : string * string =>
                    (BasicBlock.address b0, instr.1))
                 (fun _ => BasicBlock.start_pc b0)). done.
      + exists sp. rewrite <- IH.
        by apply (fold_insert_fresh
                 (fun instr : string * string =>
                    (BasicBlock.address b0, instr.1))
                 (fun _ => BasicBlock.start_pc b0)).
    - subst b0. apply list_elem_of_fmap in Hp as (x & -> & Hx).
      by apply (fold_insert_is_Some
                 (fun instr : string * string =>
                    (BasicBlock.address b, instr.1))
                 (fun _ => BasicBlock.start_pc b)). }
  exists sp. apply pc_to_start_pc_Some in Hsp as Hsp'.
  destruct Hsp' as (b' & ? & ? & ? & _). by exists b'.
Qed.

Lemma contract_pc_to_start_pc blocks :
  ContractCFGConnector.pc_to_start_pc blocks = Static.pc_to_start_pc blocks.
Proof. done. Qed.

Lemma block_by_start_pc_eq blocks :
  Static.block_by_start_pc blocks = base_block_map blocks.
Proof. done. Qed.

End IndexFacts.

(** ** The stack-value analyzer *)

Module SVAFacts.

Import SimpleStackValueAnalyzer.

Lemma instr_by_pc_fold instructions :
  instr_by_pc instructions = fold_insert pc id ∅ instructions.
Proof. done. Qed.

Lemma pop_snoc stack x : pop (stack ++ [x]) = Some (stack, x).
Proof. unfold pop. by rewrite last_snoc, removelast_last. Qed.

Lemma index_middle (before : list Instruction) jump after :
  jump ∉ before → index (before ++ jump :: after) jump = Some (length before).
Proof.
  intros Hfresh. unfold index.
  assert (list_find (fun y => y = jump) (before ++ jump :: after)
          = Some (length before, jump)) as ->; [|done].
  apply list_find_Some. split_and!.
  - by rewrite list_lookup_middle.
  - done.
  - intros j y Hj Hlt ->. apply Hfresh.
    rewrite lookup_app_l in Hj by done. by eapply list_elem_of_lookup_2.
Qed.

(** At a jump site of a listing with distinct pcs, the analyzer runs
    the loop over the instructions before the site, last one first. *)
Lemma get_jump_target_at (before : list Instruction) jump after :
  NoDup (pc <$> before ++ jump :: after) →
  name_in (name jump) ["JUMP"; "JUMPI"]%string = true →
  get_jump_target (before ++ jump :: after) (pc jump)
  = simulate (reverse before) [].
Proof.
  intros Hnd Hname. unfold get_jump_target.
  rewrite instr_by_pc_fold.
  rewrite (fold_insert_lookup_NoDup pc id ∅ _ jump Hnd)
    by (apply elem_of_app; right; by left).
  simpl. rewrite Hname, index_middle.
  - by rewrite take_app_length.
  - intros Hin. rewrite fmap_app, NoDup_app in Hnd.
    destruct Hnd as (_ & Hfresh & _). apply (Hfresh (pc jump)).
    + apply list_elem_of_fmap. by exists jump.
    + simpl. by left.
Qed.

(** The loop does not look past an opcode it does not interpret. *)
Lemma simulate_stops_at_unsupported scan other rest stack :
  supported other = false →
  simulate (scan ++ other :: rest) stack = simulate scan stack.
Proof.
  intros Hother. revert stack.
  induction scan as [|instr scan IH]; intros stack; simpl.
  - unfold supported in Hother. unfold step.
    repeat (apply orb_false_elim in Hother as [Hother ?]).
    by repeat match goal with H : _ = false |- _ => rewrite H; clear H end.
  - destruct (step instr stack); auto.
Qed.

Lemma two_on_top (stack : list Z) :
  (2 ≤ length stack)%nat → ∃ rest a b, stack = rest ++ [a; b].
Proof.
  destruct stack as [|b stack _] using rev_ind; [simpl; lia|].
  destruct stack as [|a stack _] using rev_ind.
  - rewrite length_app. simpl. lia.
  - intros _. exists stack, a, b. by rewrite <- app_assoc.
Qed.

(** On the mnemonics of the table an iteration never raises. *)
Lemma step_never_throws instr stack e :
  well_named instr = true → step instr stack ≠ Throw e.
Proof.
  unfold well_named, step.
  destruct (PyStr.startswith (name instr) "PUSH"); [done|].
  destruct (PyStr.startswith (name instr) "DUP").
  { destruct (PyStr.int (PyStr.from 3 (name instr))) as [n|]; [|done].
    intros Hn%bool_decide_eq_true.
    destruct (decide (n ≤ Z.of_nat (length stack))); [|done].
    unfold getitem. rewrite decide_True by lia.
    destruct (lookup_lt_is_Some_2 stack (Z.to_nat (n - 1))) as [v ->];
      [lia | done]. }
  destruct (PyStr.startswith (name instr) "SWAP").
  { destruct (PyStr.int (PyStr.from 4 (name instr))) as [n|]; [|done].
    intros Hint%bool_decide_eq_true.
    destruct (decide (n + 1 ≤ Z.of_nat (length stack))); [|done].
    unfold getitem. rewrite (decide_False (P := 0 ≤ - n - 1)) by lia.
    rewrite (decide_False (P := 0 ≤ - 1)) by lia.
    rewrite !decide_True by lia.
    destruct (lookup_lt_is_Some_2 stack
                (Z.to_nat (Z.of_nat (length stack) + (- n - 1))))
      as [deep ->]; [lia|].
    destruct (lookup_lt_is_Some_2 stack
                (Z.to_nat (Z.of_nat (length stack) + - 1)))
      as [top ->]; [lia | done]. }
  intros _.
  destruct (name_in (name instr) ["POP"%string]).
  { by destruct (pop stack) as [[? ?]|]. }
  destruct (name_in (name instr) arithmetic); [|done].
  destruct (decide (2 ≤ Z.of_nat (length stack))) as [Hlen|]; [|done].
  destruct (two_on_top stack) as (rest & a & b & ->); [lia|].
  replace (rest ++ [a; b]) with ((rest ++ [a]) ++ [b])
    by (by rewrite <- app_assoc).
  by rewrite !pop_snoc.
Qed.

Lemma simulate_returns scan stack :
  Forall (fun instr => well_named instr = true) scan →
  ∃ target, simulate scan stack = Ok target.
Proof.
  intros Hscan. revert stack.
  induction Hscan as [|instr scan Hinstr _ IH]; intros stack; simpl.
  - by eexists.
  - destruct (step instr stack) as [stack'| | |e] eqn:Hstep;
      [apply IH | by eexists | by eexists |].
    by apply step_never_throws in Hstep.
Qed.

(** On a listing with the mnemonics of the table the analyzer returns. *)
Lemma get_jump_target_returns instructions jump_pc :
  Forall (fun instr => well_named instr = true) instructions →
  ∃ target, get_jump_target instructions jump_pc = Ok target.
Proof.
  intros Hnames. unfold get_jump_target.
  destruct (instr_by_pc instructions !! jump_pc) as [jump|] eqn:Hjump;
    [|by eexists].
  destruct (name_in (name jump) ["JUMP"; "JUMPI"]%string); [|by eexists].
  rewrite instr_by_pc_fold in Hjump.
  apply fold_insert_lookup_Some in Hjump as [(x & Hx & _ & Hid)|Hjump];
    [|by rewrite lookup_empty in Hjump].
  simpl in Hid. subst x.
  unfold index.
  destruct (list_find (fun y => y = jump) instructions) as [[i y]|] eqn:Hfind.
  - simpl. apply simulate_returns.
    apply Forall_reverse, Forall_take. done.
  - apply list_find_None in Hfind.
    rewrite Forall_forall in Hfind. by destruct (Hfind jump Hx).
Qed.

(** An opcode the loop interprets never takes the final [else]. *)
Lemma step_supported instr stack :
  supported instr = true → step instr stack ≠ Break.
Proof.
  unfold supported, step.
  destruct (PyStr.startswith (name instr) "PUSH"); [done|].
  destruct (PyStr.startswith (name instr) "DUP").
  { intros _. destruct (PyStr.int _) as [n|]; [|done].
    destruct (decide _); [|done]. by destruct (getitem _ _). }
  destruct (PyStr.startswith (name instr) "SWAP").
  { intros _. destruct (PyStr.int _) as [n|]; [|done].
    destruct (decide _); [|done].
    by destruct (getitem stack (- n - 1)), (getitem stack (- 1)). }
  destruct (name_in (name instr) ["POP"%string]).
  { intros _. by destruct (pop stack) as [[? ?]|]. }
  destruct (name_in (name instr) arithmetic); [|done].
  intros _. destruct (decide _); [|done].
  destruct (pop stack) as [[stack1 ?]|]; [|done].
  by destruct (pop stack1) as [[? ?]|].
Qed.

(** The loop gives up only at an operation the stack is too short
    for. *)
Lemma step_ReturnNone instr stack :
  step instr stack = ReturnNone → too_short instr stack.
Proof.
  unfold step, too_short.
  destruct (PyStr.startswith (name instr) "PUSH"); [done|].
  destruct (PyStr.startswith (name instr) "DUP") eqn:Hdup.
  { destruct (PyStr.int _) as [n|] eqn:Hint; [|done].
    destruct (decide _) as [|Hlen]; [by destruct (getitem _ _)|].
    intros _. right. right. left. exists n. split_and!; [done..|lia]. }
  destruct (PyStr.startswith (name instr) "SWAP") eqn:Hswap.
  { destruct (PyStr.int _) as [n|] eqn:Hint; [|done].
    destruct (decide _) as [|Hlen];
      [by destruct (getitem stack (- n - 1)), (getitem stack (- 1))|].
    intros _. right. right. right. exists n. split_and!; [done..|lia]. }
  destruct (name_in (name instr) ["POP"%string]) eqn:Hpop.
  { unfold pop. destruct (last stack) eqn:Hlast; [done|].
    intros _. left. split.
    - apply bool_decide_eq_true, list_elem_of_singleton in Hpop. done.
    - by apply last_None in Hlast. }
  destruct (name_in (name instr) arithmetic) eqn:Harith; [|done].
  destruct (decide _) as [|Hlen].
  { destruct (pop stack) as [[stack1 ?]|]; [|done].
    by destruct (pop stack1) as [[? ?]|]. }
  intros _. right. left. split; [done|lia].
Qed.

Lemma scanned_ReturnNone scan : ∀ stack0,
  scanned scan stack0 = ReturnNone →
  ∃ visited instr rest stack,
    scan = visited ++ instr :: rest
    ∧ scanned visited stack0 = Next stack
    ∧ step instr stack = ReturnNone.
Proof.
  induction scan as [|instr scan IH]; intros stack0; simpl; [done|].
  destruct (step instr stack0) as [stack'| | |e] eqn:Hstep; try done.
  - intros Hrun.
    destruct (IH stack' Hrun) as (visited & i & rest & stack & -> & Hv & Hi).
    exists (instr :: visited), i, rest, stack. simpl. by rewrite Hstep.
  - intros _. by exists [], instr, scan, stack0.
Qed.

(** Over opcodes the loop interprets, [simulate] is the run of the loop
    body followed by the final [if stack: return stack[-1]]. *)
Lemma simulate_scanned scan : ∀ stack,
  Forall (fun instr => supported instr = true) scan →
  scanned scan stack ≠ Break
  ∧ simulate scan stack
    = match scanned scan stack with
      | Next stack' => Ok (last stack')
      | Break | ReturnNone => Ok None
      | Throw e => Raise e
      end.
Proof.
  induction scan as [|instr scan IH]; intros stack Hscan; simpl; [done|].
  apply Forall_cons in Hscan as [Hinstr Hscan].
  pose proof (step_supported instr stack Hinstr) as Hbreak.
  destruct (step instr stack) as [stack'| | |e]; try done.
  by apply IH.
Qed.

End SVAFacts.

(** C9.  Applied to a stack with at least two elements, [deeper] below
    [top], each of ADD, SUB, MUL and DIV pops both and pushes one result,
    computed with [deeper] as the left operand and [top] as the right
    one.  DIV is the floor division of the integers (Python's [//]) and
    gives 0 when the divisor [top] is 0. *)
Theorem arithmetic_pops_two_pushes_result
  (instr : SVA.Instruction) (rest : list Z) (deeper top : Z) :
  name_in (SVA.name instr) SVA.arithmetic = true →
  (∃ result, SVA.step instr (rest ++ [deeper; top])
             = SVA.Next (rest ++ [result]))
  ∧ (SVA.name instr = "ADD"%string →
     SVA.step instr (rest ++ [deeper; top])
     = SVA.Next (rest ++ [deeper + top]))
  ∧ (SVA.name instr = "SUB"%string →
     SVA.step instr (rest ++ [deeper; top])
     = SVA.Next (rest ++ [deeper - top]))
  ∧ (SVA.name instr = "MUL"%string →
     SVA.step instr (rest ++ [deeper; top])
     = SVA.Next (rest ++ [deeper * top]))
  ∧ (SVA.name instr = "DIV"%string → top ≠ 0 →
     SVA.step instr (rest ++ [deeper; top])
     = SVA.Next (rest ++ [deeper `div` top]))
  ∧ (SVA.name instr = "DIV"%string → top = 0 →
     SVA.step instr (rest ++ [deeper; top]) = SVA.Next (rest ++ [0])).
Proof.
  intros Hname.
  assert (SVA.step instr (rest ++ [deeper; top]) =
    SVA.Next (rest ++ [
      if String.eqb (SVA.name instr) "ADD" then deeper + top
      else if String.eqb (SVA.name instr) "SUB" then deeper - top
      else if String.eqb (SVA.name instr) "MUL" then deeper * top
      else if decide (top = 0) then 0 else deeper `div` top])) as Hstep.
  { destruct instr as [ipc iname iop]. simpl in *.
    unfold SVA.arithmetic, name_in in Hname.
    apply bool_decide_eq_true in Hname.
    assert (iname = "ADD" ∨ iname = "SUB" ∨ iname = "MUL" ∨ iname = "DIV")%string
      as Hcases by (rewrite !elem_of_cons, elem_of_nil in Hname; tauto).
    clear Hname. unfold SVA.step.
    replace (rest ++ [deeper; top]) with ((rest ++ [deeper]) ++ [top])
      by (by rewrite <- app_assoc).
    destruct Hcases as [Hn | [Hn | [Hn | Hn]]]; subst iname; simpl;
      rewrite !SVAFacts.pop_snoc; rewrite !length_app; simpl;
      (destruct (decide _) as [|Hlen]; [done | exfalso; lia]). }
  rewrite Hstep. clear Hstep Hname.
  destruct instr as [ipc iname iop]. simpl.
  split_and!; [by eexists | intros Hn; subst iname; simpl ..].
  - done.
  - done.
  - done.
  - intros Htop. by rewrite decide_False.
  - intros Htop. by rewrite decide_True.
Qed.

Lemma arithmetic_pops_two_pushes_result_witness :
  SVA.step {| SVA.pc := 4; SVA.name := "SUB"; SVA.operand := 0 |} [7; 9; 2]
  = SVA.Next [7; 7]
  ∧ SVA.step {| SVA.pc := 4; SVA.name := "DIV"; SVA.operand := 0 |} [7; 9; 0]
    = SVA.Next [7; 0].
Proof.
  split.
  - apply (arithmetic_pops_two_pushes_result
             {| SVA.pc := 4; SVA.name := "SUB"; SVA.operand := 0 |}
             [7] 9 2 eq_refl).
    reflexivity.
  - apply (arithmetic_pops_two_pushes_result
             {| SVA.pc := 4; SVA.name := "DIV"; SVA.operand := 0 |}
             [7] 9 0 eq_refl); reflexivity.
Defined.

Lemma is_Ok_true {A : Type} (r : result A) :
  is_Ok r = true → ∃ a, r = Ok a.
Proof. destruct r as [a|e]; [by exists a | done]. Qed.

(** Decide a closed decidable proposition by evaluation. *)
Ltac decide_by_eval :=
  match goal with
  | |- ?P => apply (bool_decide_unpack P); vm_compute; exact I
  end.

(** C1.  The claim asks for the instructions before the jump site to be
    simulated in their original forward order.  On the listing PUSH1 1,
    PUSH1 8, JUMPI, ... the analyzer visits PUSH1 8 first and PUSH1 1
    last, and so returns 1; the forward simulation returns 8, the value
    the JUMPI finds on top of the stack. *)
Theorem get_jump_target_visits_prefix_backwards :
  SVA.get_jump_target Scenarios.jumpi_listing 4 = Ok (Some 1)
  ∧ SVA.get_jump_target_forward Scenarios.jumpi_listing 4 = Ok (Some 8).
Proof. split; vm_compute; reflexivity. Qed.

(** C2, as stated, fails: a JUMPDEST (not a supported opcode) before the
    jump site does not make the analyzer give up. *)
Lemma unsupported_opcode_does_not_abort :
  ¬ (∀ before other run jump after,
       NoDup (SVA.pc <$> before ++ other :: run ++ jump :: after) →
       name_in (SVA.name jump) ["JUMP"; "JUMPI"]%string = true →
       SVA.supported other = false →
       SVA.get_jump_target (before ++ other :: run ++ jump :: after)
         (SVA.pc jump) = Ok None).
Proof.
  intros Hclaim.
  specialize (Hclaim [Scenarios.ins 0 "STOP" 0]
                (Scenarios.ins 1 "JUMPDEST" 0)
                [Scenarios.ins 2 "PUSH1" 5]
                (Scenarios.ins 4 "JUMP" 0)
                [Scenarios.ins 5 "JUMPDEST" 0; Scenarios.ins 6 "STOP" 0]).
  assert (SVA.get_jump_target Scenarios.jumpdest_listing 4 = Ok None)
    as Habs.
  { apply Hclaim; [decide_by_eval|done..]. }
  vm_compute in Habs. discriminate.
Qed.

(** C2, amended.  An opcode outside the supported set ends the scan
    without giving up: that opcode and everything before it are ignored,
    and the result is the one the analyzer gives for the listing that
    starts right after it.  When the instructions between that opcode
    and the jump site are all supported, the result is the top of the
    abstract stack the loop builds over them, visiting the one next to
    the jump first; it is "unknown" exactly when that stack is empty or
    one of them found the stack too short, and the analyzer raises only
    what one of them raised. *)
Theorem unsupported_opcode_ends_the_scan
  (before : list SVA.Instruction) (other : SVA.Instruction)
  (run : list SVA.Instruction) (jump : SVA.Instruction)
  (after : list SVA.Instruction) :
  NoDup (SVA.pc <$> before ++ other :: run ++ jump :: after) →
  name_in (SVA.name jump) ["JUMP"; "JUMPI"]%string = true →
  SVA.supported other = false →
  let result :=
    SVA.get_jump_target (before ++ other :: run ++ jump :: after)
      (SVA.pc jump) in
  result = SVA.get_jump_target (run ++ jump :: after) (SVA.pc jump)
  ∧ (Forall (fun instr => SVA.supported instr = true) run →
     result = match scanned (reverse run) [] with
              | SVA.Next stack => Ok (last stack)
              | SVA.ReturnNone | SVA.Break => Ok None
              | SVA.Throw e => Raise e
              end
     ∧ scanned (reverse run) [] ≠ SVA.Break
     ∧ (result = Ok None
        ↔ scanned (reverse run) [] = SVA.Next []
          ∨ scanned (reverse run) [] = SVA.ReturnNone)
     ∧ (scanned (reverse run) [] = SVA.ReturnNone →
        ∃ visited instr rest stack,
          reverse run = visited ++ instr :: rest
          ∧ scanned visited [] = SVA.Next stack
          ∧ too_short instr stack)).
Proof.
  intros Hnd Hjump Hother result.
  assert (NoDup (SVA.pc <$> run ++ jump :: after)) as Hnd'.
  { rewrite fmap_app in Hnd. apply NoDup_app in Hnd as (_ & _ & Hnd).
    rewrite fmap_cons in Hnd. by apply NoDup_cons in Hnd as [_ Hnd]. }
  assert (result = SVA.simulate (reverse run) []) as Hresult.
  { unfold result.
    replace (before ++ other :: run ++ jump :: after)
      with ((before ++ other :: run) ++ jump :: after)
      by (by rewrite <- app_assoc).
    rewrite SVAFacts.get_jump_target_at; [|by rewrite <- app_assoc|done].
    rewrite reverse_app, reverse_cons, <- app_assoc. simpl.
    by apply SVAFacts.simulate_stops_at_unsupported. }
  split.
  - by rewrite (SVAFacts.get_jump_target_at run jump after Hnd' Hjump).
  - intros Hrun.
    destruct (SVAFacts.simulate_scanned (reverse run) [])
      as [Hbreak Hsim]; [by apply Forall_reverse|].
    rewrite Hresult, Hsim. split_and!.
    + done.
    + done.
    + destruct (scanned (reverse run) []) as [stack| | |e]; try done.
      * split.
        -- intros [= Hlast]. left. f_equal. by apply last_None.
        -- intros [[= ->]|?]; done.
      * split; [by right | done].
      * split; [done | by intros [?|?]].
    + intros Hgave_up.
      destruct (SVAFacts.scanned_ReturnNone _ _ Hgave_up)
        as (visited & instr & rest & stack & Hsplit & Hvisited & Hstep).
      exists visited, instr, rest, stack.
      split_and!; [done..|]. by apply SVAFacts.step_ReturnNone.
Qed.

Lemma unsupported_opcode_ends_the_scan_witness :
  SVA.get_jump_target Scenarios.jumpdest_listing 4 = Ok (Some 5)
  ∧ SVA.get_jump_target Scenarios.jumpdest_listing 4
    = SVA.get_jump_target
        [Scenarios.ins 2 "PUSH1" 5; Scenarios.ins 4 "JUMP" 0;
         Scenarios.ins 5 "JUMPDEST" 0; Scenarios.ins 6 "STOP" 0] 4.
Proof.
  destruct (unsupported_opcode_ends_the_scan
              [Scenarios.ins 0 "STOP" 0] (Scenarios.ins 1 "JUMPDEST" 0)
              [Scenarios.ins 2 "PUSH1" 5] (Scenarios.ins 4 "JUMP" 0)
              [Scenarios.ins 5 "JUMPDEST" 0; Scenarios.ins 6 "STOP" 0])
    as [Hsame Htop].
  - decide_by_eval.
  - reflexivity.
  - reflexivity.
  - destruct Htop as (Hresult & _); [repeat constructor|].
    split; [exact Hresult | exact Hsame].
Defined.

(** ** The static builder *)

Module StaticFacts.

Import StaticCompleteCFGBuilder.

Lemma create_nodes_fold (st : CFG * gmap (string * string) BlockNode) blocks :
  (foldl add_block_node st blocks).2
  = fold_insert BasicBlock.key node_of st.2 blocks
  ∧ nodes (foldl add_block_node st blocks).1
    = nodes st.1 ++ (node_of <$> blocks)
  ∧ edges (foldl add_block_node st blocks).1 = edges st.1
  ∧ _next_edge_id (foldl add_block_node st blocks).1 = _next_edge_id st.1.
Proof.
  revert st. induction blocks as [|b blocks IH]; intros st; simpl.
  - by rewrite app_nil_r.
  - destruct (IH (add_block_node st b)) as (-> & -> & -> & ->).
    simpl. by rewrite <- app_assoc.
Qed.

Lemma node_map_lookup bytecode blocks b :
  NoDup (BasicBlock.key <$> blocks) → b ∈ blocks →
  (create_nodes bytecode blocks).2 !! BasicBlock.key b = Some (node_of b).
Proof.
  intros Hnd Hb. unfold create_nodes.
  rewrite (proj1 (create_nodes_fold _ _)).
  by apply (fold_insert_lookup_NoDup BasicBlock.key node_of).
Qed.

Lemma find_block_by_pc_Ok blocks a p found :
  NoDup (BasicBlock.key <$> blocks) →
  _find_block_by_pc blocks a p = Ok found →
  found ∈ blocks ∧ BasicBlock.address found = a ∧ holds found p.
Proof.
  intros Hnd. unfold _find_block_by_pc, _find_block_by_start_pc.
  destruct (pc_to_start_pc blocks !! (a, p)) as [sp|] eqn:Hsp; [|done].
  rewrite IndexFacts.block_by_start_pc_eq.
  destruct (base_block_map blocks !! (a, sp)) as [b'|] eqn:Hb'; [|done].
  intros [= ->].
  apply IndexFacts.pc_to_start_pc_Some in Hsp as (b & Hb & Ha & Hs & Hp).
  apply IndexFacts.base_block_map_Some in Hb' as Hfound.
  destruct Hfound as [Hfound Hkey].
  assert (BasicBlock.key b = (a, sp)) as Hkb by (unfold BasicBlock.key; congruence).
  pose proof (IndexFacts.base_block_map_NoDup blocks b Hnd Hb) as Hlook.
  rewrite Hkb, Hb' in Hlook. injection Hlook as ->. done.
Qed.

Lemma find_block_by_pc_Raise blocks a p e :
  _find_block_by_pc blocks a p = Raise e →
  e = ValueError
  ∧ ∀ b, b ∈ blocks → BasicBlock.address b = a → ¬ holds b p.
Proof.
  unfold _find_block_by_pc, _find_block_by_start_pc.
  destruct (pc_to_start_pc blocks !! (a, p)) as [sp|] eqn:Hsp.
  - rewrite IndexFacts.block_by_start_pc_eq.
    destruct (base_block_map blocks !! (a, sp)) as [b'|] eqn:Hb'; [done|].
    apply IndexFacts.pc_to_start_pc_Some in Hsp as (b & Hb & Ha & Hs & Hp).
    pose proof (fold_insert_is_Some BasicBlock.key id ∅ blocks b Hb) as [x Hx].
    rewrite <- IndexFacts.base_block_map_fold in Hx.
    unfold BasicBlock.key in Hx. rewrite Ha, Hs, Hb' in Hx. done.
  - intros [= <-]. split; [done|]. intros b Hb <- Hp.
    destruct (IndexFacts.pc_to_start_pc_is_Some blocks b p Hb Hp)
      as (sp & _ & Hsome & _).
    by rewrite Hsp in Hsome.
Qed.

Lemma connect_to_pc_spec bytecode blocks avoid cfg cur a p ty :
  NoDup (BasicBlock.key <$> blocks) →
  connect_to_pc blocks avoid cfg (create_nodes bytecode blocks).2 cur a p ty
  = Ok match _find_block_by_pc blocks a p with
       | Ok found =>
           if avoid && bool_decide (node_of found = cur) then cfg
           else _connect_blocks cfg cur (node_of found) ty
       | Raise _ => cfg
       end.
Proof.
  intros Hnd. unfold connect_to_pc.
  destruct (_find_block_by_pc blocks a p) as [found|e] eqn:Hfind.
  - apply find_block_by_pc_Ok in Hfind as (Hin & _ & _); [|done].
    rewrite (node_map_lookup bytecode blocks found Hnd Hin).
    by destruct (avoid && bool_decide (node_of found = cur)).
  - by apply find_block_by_pc_Raise in Hfind as [-> _].
Qed.

Lemma appended_nil cfg : appended cfg [] = cfg.
Proof.
  destruct cfg. unfold appended. simpl. by rewrite app_nil_r, Nat.add_0_r.
Qed.

(** Successive calls of [_connect_blocks] append the edges in order and
    number them from the counter of the graph. *)
Lemma connect_all_appended cfg added :
  connect_all cfg added = appended cfg added.
Proof.
  revert cfg. induction added as [|[[s t] k] added IH]; intros cfg.
  - by rewrite appended_nil.
  - unfold connect_all in *. cbn [foldl]. rewrite IH.
    unfold appended, _connect_blocks. cbn [tx_hash nodes edges _next_edge_id
                                           length imap fst snd].
    f_equal.
    + rewrite <- app_assoc. f_equal. simpl. rewrite Nat.add_0_r. f_equal.
      apply imap_ext. intros i e _. simpl. f_equal. lia.
    + lia.
Qed.


Lemma get_edge_type_CONDITION_FALSE :
  _get_edge_type "CONDITION_FALSE" = "CONDITION_FALSE"%string.
Proof. vm_compute. reflexivity. Qed.

Lemma get_edge_type_CONDITION_TRUE :
  _get_edge_type "CONDITION_TRUE" = "CONDITION_TRUE"%string.
Proof. vm_compute. reflexivity. Qed.

End StaticFacts.


(** On the bytecode [6001 6008 57 00 5b 00] the analyzer resolves the
    JUMPI to 1, a pc no block holds, so the block at pc 0 only gets its
    CONDITION_FALSE edge. *)
Lemma static_cfg_of_jumpi_listing :
  summary <$> Static.build_static_cfg Scenarios.jumpi_listing
                "0x6001600857005b00" TakenScenario.blocks
  = Ok (["0x0"; "0x5"; "0x6"],
        [(0%nat, "0x0", "0x5", "CONDITION_FALSE")])%string.
Proof. vm_compute. reflexivity. Qed.

(** ** Pruning *)

Module PruneFacts.

Import StaticCompleteCFGBuilder.

Lemma remove_nodes_nodes cfg removed n :
  n ∈ nodes (foldl remove_node cfg removed) ↔ n ∈ nodes cfg ∧ n ∉ removed.
Proof.
  revert cfg. induction removed as [|r removed IH]; intros cfg; simpl.
  - rewrite elem_of_nil. tauto.
  - rewrite IH. simpl. rewrite list_elem_of_filter, not_elem_of_cons. tauto.
Qed.

Lemma remove_nodes_edges cfg removed e :
  e ∈ edges (foldl remove_node cfg removed)
  ↔ e ∈ edges cfg ∧ (source e ∉ removed) ∧ (target e ∉ removed).
Proof.
  revert cfg. induction removed as [|r removed IH]; intros cfg; simpl.
  - rewrite !elem_of_nil. tauto.
  - rewrite IH. simpl. rewrite list_elem_of_filter, !not_elem_of_cons.
    unfold touches. tauto.
Qed.

Lemma remove_nodes_sublist cfg removed :
  edges (foldl remove_node cfg removed) `sublist_of` edges cfg
  ∧ _next_edge_id (foldl remove_node cfg removed) = _next_edge_id cfg.
Proof.
  revert cfg. induction removed as [|r removed IH]; intros cfg; simpl.
  - done.
  - destruct (IH (remove_node cfg r)) as [Hsub ->]. split; [|done].
    etrans; [exact Hsub|]. simpl. apply sublist_filter.
Qed.

(** The second loop of [remove_unreachable_instruction_blocks] finds
    every key it deletes when the nodes to remove have distinct keys that
    are all in [node_map]. *)
Lemma removal_loop (cfg : CFG) (node_map : gmap (string * string) BlockNode)
  (removed : list BlockNode) :
  NoDup (node_key <$> removed) →
  (∀ n, n ∈ removed → is_Some (node_map !! node_key n)) →
  for_each
    (fun (st : CFG * gmap (string * string) BlockNode) node =>
       match st.2 !! (address node, start_pc node) with
       | Some _ =>
           Ok (remove_node st.1 node,
               delete (address node, start_pc node) st.2)
       | None => Raise KeyError
       end)
    (cfg, node_map) removed
  = Ok (foldl remove_node cfg removed,
        foldl (fun m n => delete (node_key n) m) node_map removed).
Proof.
  revert cfg node_map.
  induction removed as [|r removed IH]; intros cfg node_map Hnd Hin; [done|].
  rewrite fmap_cons in Hnd. apply NoDup_cons in Hnd as [Hfresh Hnd].
  simpl. destruct (Hin r) as [x Hx]; [by left|].
  change (address r, start_pc r) with (node_key r). rewrite Hx.
  apply IH; [done|]. intros n Hn.
  rewrite lookup_delete_ne.
  - apply Hin. by right.
  - intros Heq. apply Hfresh. rewrite Heq.
    apply list_elem_of_fmap. by exists n.
Qed.

Lemma unreachable_spec cfg n :
  unreachable cfg n = true →
  (∀ e, e ∈ edges cfg → target e ≠ n)
  ∧ BasicBlock.start_pc (base_block n) ≠ "0x0"%string
  ∧ ∀ pc, head (BasicBlock.instructions (base_block n))
          ≠ Some (pc, "JUMPDEST"%string).
Proof.
  unfold unreachable, has_incoming_edge.
  rewrite !andb_true_iff, !negb_true_iff, bool_decide_eq_false.
  intros [[Hin Hpc] Hfirst]. split_and!.
  - intros e He Ht. apply Hin. apply Exists_exists. by exists e.
  - by apply String.eqb_neq.
  - intros pc Hhead. rewrite Hhead in Hfirst. done.
Qed.

Lemma reachable_kept cfg n :
  BasicBlock.start_pc (base_block n) = "0x0"%string
  ∨ (∃ pc, head (BasicBlock.instructions (base_block n))
           = Some (pc, "JUMPDEST"%string)) →
  unreachable cfg n = false.
Proof.
  unfold unreachable. intros [Hpc|[pc Hhead]].
  - rewrite Hpc. simpl. by rewrite andb_false_r.
  - rewrite Hhead. simpl. by rewrite andb_false_r.
Qed.

Lemma pruned_graph_returns (cfg : CFG)
  (node_map : gmap (string * string) BlockNode) :
  NoDup (node_key <$> nodes cfg) →
  (∀ n, n ∈ nodes cfg → is_Some (node_map !! node_key n)) →
  ∃ st, remove_unreachable_instruction_blocks cfg node_map = Ok st.
Proof.
  intros Hnd Hmap. unfold remove_unreachable_instruction_blocks.
  eexists. apply removal_loop.
  - eapply sublist_NoDup; [exact Hnd|]. apply fmap_sublist, sublist_filter.
  - intros n [_ Hn]%list_elem_of_filter. by apply Hmap.
Qed.

End PruneFacts.

(** C4.  Pruning of a graph whose nodes have distinct keys, all of them
    in [node_map], returns; it keeps every node that starts at pc 0 and
    every node whose first instruction is JUMPDEST; a node it removes has
    no incoming edge, does not start at pc 0 and does not begin with
    JUMPDEST; no edge that is left touches a removed node, and the edges
    that are left are the edges between nodes that are left. *)
Theorem pruning_keeps_entry_and_jumpdest_blocks
  (cfg : CFG) (node_map : gmap (string * string) BlockNode) :
  NoDup (node_key <$> nodes cfg) →
  (∀ n, n ∈ nodes cfg → is_Some (node_map !! node_key n)) →
  ∃ cfg' node_map',
    Static.remove_unreachable_instruction_blocks cfg node_map
    = Ok (cfg', node_map')
    ∧ (∀ n, n ∈ nodes cfg →
            start_pc n = "0x0"%string
            ∨ (∃ pc, head (instructions n) = Some (pc, "JUMPDEST"%string)) →
            n ∈ nodes cfg')
    ∧ (∀ n, n ∈ nodes cfg → n ∉ nodes cfg' →
            (∀ e, e ∈ edges cfg → target e ≠ n)
            ∧ start_pc n ≠ "0x0"%string
            ∧ ∀ pc, head (instructions n) ≠ Some (pc, "JUMPDEST"%string))
    ∧ (∀ n e, n ∈ nodes cfg → n ∉ nodes cfg' → e ∈ edges cfg' →
              source e ≠ n ∧ target e ≠ n)
    ∧ (∀ n, n ∈ nodes cfg' → n ∈ nodes cfg)
    ∧ (∀ e, e ∈ edges cfg' ↔
            e ∈ edges cfg
            ∧ (source e ∈ nodes cfg → source e ∈ nodes cfg')
            ∧ (target e ∈ nodes cfg → target e ∈ nodes cfg')).
Proof.
  intros Hnd Hmap.
  set (removed := filter (fun node => Static.unreachable cfg node) (nodes cfg)).
  assert (∀ n, n ∈ removed ↔ Static.unreachable cfg n = true ∧ n ∈ nodes cfg)
    as Hremoved.
  { intros n. unfold removed. rewrite list_elem_of_filter.
    by rewrite Is_true_true. }
  exists (foldl remove_node cfg removed),
         (foldl (fun m n => delete (node_key n) m) node_map removed).
  assert (∀ n, n ∈ nodes cfg →
               (n ∈ nodes (foldl remove_node cfg removed)
                ↔ Static.unreachable cfg n = false)) as Hkept.
  { intros n Hn. rewrite PruneFacts.remove_nodes_nodes, Hremoved.
    destruct (Static.unreachable cfg n); split; intros; try done.
    - tauto.
    - split; [done|]. intros [? _]. done. }
  split_and!.
  - unfold Static.remove_unreachable_instruction_blocks. fold removed.
    apply PruneFacts.removal_loop.
    + unfold removed. eapply sublist_NoDup; [exact Hnd|].
      apply fmap_sublist, sublist_filter.
    + intros n Hn. apply Hmap. by apply Hremoved in Hn as [_ ?].
  - intros n Hn Hentry. apply Hkept; [done|].
    by apply PruneFacts.reachable_kept.
  - intros n Hn Hgone. apply PruneFacts.unreachable_spec.
    rewrite Hkept in Hgone by done. by destruct (Static.unreachable cfg n).
  - intros n e Hn Hgone He.
    apply PruneFacts.remove_nodes_edges in He as (_ & Hs & Ht).
    assert (n ∈ removed) as Hr.
    { rewrite PruneFacts.remove_nodes_nodes in Hgone.
      destruct (decide (n ∈ removed)); tauto. }
    split; intros Heq; subst n; done.
  - intros n Hn. by apply PruneFacts.remove_nodes_nodes in Hn as [? _].
  - intros e. rewrite PruneFacts.remove_nodes_edges.
    rewrite !PruneFacts.remove_nodes_nodes.
    split.
    + intros (He & Hs & Ht). tauto.
    + intros (He & Hs & Ht). split; [done|]. split; intros Hr.
      * apply Hremoved in Hr as Hr'. destruct Hr' as [_ Hin]. tauto.
      * apply Hremoved in Hr as Hr'. destruct Hr' as [_ Hin]. tauto.
Qed.

(** ** Edge ids *)

Module GraphFacts.

Lemma contiguous_new tx_hash : contiguous_ids (CFGStructure.new tx_hash).
Proof. done. Qed.

Lemma contiguous_add_node cfg n :
  contiguous_ids cfg → contiguous_ids (add_node cfg n).
Proof. done. Qed.

Lemma contiguous_add_edge cfg s t ty :
  contiguous_ids cfg → contiguous_ids (add_edge cfg s t ty).
Proof.
  intros [Hids Hnext]. unfold contiguous_ids. simpl.
  rewrite fmap_app, length_app, Hids, Hnext. simpl.
  split; [|lia]. by rewrite Nat.add_1_r, seq_S.
Qed.

Lemma contiguous_connect_blocks cfg s t ty :
  contiguous_ids cfg → contiguous_ids (Static._connect_blocks cfg s t ty).
Proof. apply contiguous_add_edge. Qed.

Lemma for_each_invariant {A S : Type} (P : S → Prop)
  (body : S → A → result S) (l : list A) :
  (∀ s x s', P s → body s x = Ok s' → P s') →
  ∀ s s', P s → for_each body s l = Ok s' → P s'.
Proof.
  intros Hbody. induction l as [|x l IH]; intros s s' Hs; simpl.
  - by intros [= <-].
  - destruct (body s x) as [s1|] eqn:Hx; [|done]. eauto.
Qed.

Lemma contiguous_connect_to_pc blocks avoid cfg node_map cur a p ty cfg' :
  contiguous_ids cfg →
  Static.connect_to_pc blocks avoid cfg node_map cur a p ty = Ok cfg' →
  contiguous_ids cfg'.
Proof.
  intros Hc. unfold Static.connect_to_pc.
  destruct (Static._find_block_by_pc blocks a p) as [found|[]]; try done.
  - destruct (node_map !! BasicBlock.key found) as [node|].
    + destruct (avoid && bool_decide (node = cur)); intros [= <-]; [done|].
      by apply contiguous_connect_blocks.
    + by intros [= <-].
  - by intros [= <-].
Qed.

Lemma contiguous_connect_block instrs blocks node_map cfg block cfg' :
  contiguous_ids cfg →
  Static.connect_block instrs blocks node_map cfg block = Ok cfg' →
  contiguous_ids cfg'.
Proof.
  intros Hc. unfold Static.connect_block.
  destruct (node_map !! BasicBlock.key block) as [cur|]; [|done].
  destruct (last (BasicBlock.instructions block)) as [[pc op]|];
    [|by intros [= <-]].
  destruct (PyStr.int16 pc) as [pc_int|]; [|done].
  destruct (String.eqb op "JUMPI").
  { unfold mbind, result_bind.
    destruct (Static.connect_to_pc blocks false cfg node_map cur _ _ _)
      as [cfg1|] eqn:H1; [|done].
    apply contiguous_connect_to_pc in H1; [|done].
    destruct (SVA.get_jump_target instrs pc_int) as [[t|]|]; try done.
    - by apply contiguous_connect_to_pc.
    - by intros [= <-]. }
  destruct (String.eqb op "JUMP").
  { unfold mbind, result_bind.
    destruct (SVA.get_jump_target instrs pc_int) as [[t|]|]; try done.
    - by apply contiguous_connect_to_pc.
    - by intros [= <-]. }
  destruct (name_in op _); [by intros [= <-]|].
  destruct (name_in op _); by apply contiguous_connect_to_pc.
Qed.

Lemma contiguous_synthesize_edges instrs bytecode blocks cfg node_map :
  Static.synthesize_edges instrs bytecode blocks = Ok (cfg, node_map) →
  contiguous_ids cfg.
Proof.
  unfold Static.synthesize_edges, mbind, result_bind.
  destruct (for_each _ _ _) as [cfg'|] eqn:Hloop; [|done].
  intros [= <- _]. revert Hloop.
  apply (for_each_invariant contiguous_ids).
  - intros s x s' Hs. by apply contiguous_connect_block.
  - unfold Static.create_nodes.
    destruct (StaticFacts.create_nodes_fold
                (CFGStructure.new
                   (String.append "static_complete_"
                      (Static.contract_address bytecode blocks)), ∅) blocks)
      as (_ & _ & Hedges & Hnext).
    unfold contiguous_ids. by rewrite Hedges, Hnext.
Qed.

Lemma removal_loop_graph (removed : list BlockNode) :
  ∀ (st st' : CFG * gmap (string * string) BlockNode),
    for_each
      (fun (st : CFG * gmap (string * string) BlockNode) node =>
         match st.2 !! (address node, start_pc node) with
         | Some _ =>
             Ok (remove_node st.1 node,
                 delete (address node, start_pc node) st.2)
         | None => Raise KeyError
         end)
      st removed = Ok st' →
    st'.1 = foldl remove_node st.1 removed.
Proof.
  induction removed as [|r removed IH]; intros st st'; simpl.
  - by intros [= <-].
  - destruct (st.2 !! (address r, start_pc r)); [|done].
    intros Hloop. by apply IH in Hloop.
Qed.

Lemma contiguous_enter_block w b ty :
  contiguous_ids (cfg w) → contiguous_ids (cfg (enter_block w b ty)).
Proof.
  intros Hc. unfold enter_block.
  destruct (processed_nodes w !! BasicBlock.key b); simpl;
    by apply contiguous_add_edge.
Qed.

Lemma transaction_loop_invariant (P : walk → Prop) blocks :
  (∀ w b ty, P w → P (enter_block w b ty)) →
  (∀ w i s, P w → P (warn w i s)) →
  ∀ steps idx w w',
    P w → CFGConstructor.loop blocks steps idx w = Ok w' → P w'.
Proof.
  intros Henter Hwarn. induction steps as [|s steps IH]; intros idx w w' Hw.
  - by intros [= <-].
  - simpl. destruct (name_in _ _); [|by apply IH].
    destruct steps as [|next steps']; [by intros [= <-]|].
    destruct (CFGConstructor._find_base_block blocks _ _) as [b|[]];
      try done; apply IH; auto.
Qed.

Lemma contract_loop_invariant (P : walk → Prop) blocks :
  (∀ w b ty, P w → P (enter_block w b ty)) →
  (∀ w i s, P w → P (warn w i s)) →
  ∀ steps idx w w',
    P w → ContractCFGConnector.loop blocks steps idx w = Ok w' → P w'.
Proof.
  intros Henter Hwarn. induction steps as [|s steps IH]; intros idx w w' Hw.
  - by intros [= <-].
  - simpl. destruct (name_in _ _); [|by apply IH].
    destruct steps as [|next steps']; [by intros [= <-]|].
    destruct (ContractCFGConnector.block_of_step blocks _) as [b|[]];
      try done; apply IH; auto.
Qed.

Lemma connect_to_pc_nodes blocks avoid cfg node_map cur a p ty cfg' :
  Static.connect_to_pc blocks avoid cfg node_map cur a p ty = Ok cfg' →
  nodes cfg' = nodes cfg.
Proof.
  unfold Static.connect_to_pc.
  destruct (Static._find_block_by_pc blocks a p) as [found|[]]; try done.
  - destruct (node_map !! BasicBlock.key found) as [node|].
    + by destruct (avoid && bool_decide (node = cur)); intros [= <-].
    + by intros [= <-].
  - by intros [= <-].
Qed.

Lemma connect_block_nodes instrs blocks node_map cfg block cfg' :
  Static.connect_block instrs blocks node_map cfg block = Ok cfg' →
  nodes cfg' = nodes cfg.
Proof.
  unfold Static.connect_block.
  destruct (node_map !! BasicBlock.key block) as [cur|]; [|done].
  destruct (last (BasicBlock.instructions block)) as [[pc op]|];
    [|by intros [= <-]].
  destruct (PyStr.int16 pc) as [pc_int|]; [|done].
  destruct (String.eqb op "JUMPI").
  { unfold mbind, result_bind.
    destruct (Static.connect_to_pc blocks false cfg node_map cur _ _ _)
      as [cfg1|] eqn:H1; [|done].
    apply connect_to_pc_nodes in H1. rewrite <- H1.
    destruct (SVA.get_jump_target instrs pc_int) as [[t|]|]; try done.
    - apply connect_to_pc_nodes.
    - by intros [= <-]. }
  destruct (String.eqb op "JUMP").
  { unfold mbind, result_bind.
    destruct (SVA.get_jump_target instrs pc_int) as [[t|]|]; try done.
    - apply connect_to_pc_nodes.
    - by intros [= <-]. }
  destruct (name_in op _); [by intros [= <-]|].
  destruct (name_in op _); apply connect_to_pc_nodes.
Qed.

(** With one block per key, the graph the builder hands to the pruning
    has nodes with distinct keys, all of them in [node_map]. *)
Lemma synthesized_graph_is_prunable instrs bytecode blocks cfg node_map :
  NoDup (BasicBlock.key <$> blocks) →
  Static.synthesize_edges instrs bytecode blocks = Ok (cfg, node_map) →
  nodes cfg = node_of <$> blocks
  ∧ NoDup (node_key <$> nodes cfg)
  ∧ ∀ n, n ∈ nodes cfg → is_Some (node_map !! node_key n).
Proof.
  intros Hnd. unfold Static.synthesize_edges, mbind, result_bind.
  destruct (for_each _ _ _) as [cfg'|] eqn:Hloop; [|done].
  intros [= <- <-].
  destruct (StaticFacts.create_nodes_fold
              (CFGStructure.new
                 (String.append "static_complete_"
                    (Static.contract_address bytecode blocks)), ∅) blocks)
    as (Hmap & Hnodes & _ & _).
  assert (nodes cfg' = node_of <$> blocks) as Hcfg.
  { revert Hloop.
    apply (for_each_invariant (fun c => nodes c = node_of <$> blocks)).
    - intros s x s' Hs Hx. apply connect_block_nodes in Hx. congruence.
    - exact Hnodes. }
  split; [done|]. rewrite Hcfg. split.
  - rewrite <- list_fmap_compose. exact Hnd.
  - intros n (b & -> & Hb)%list_elem_of_fmap.
    unfold Static.create_nodes. rewrite Hmap.
    apply (fold_insert_is_Some BasicBlock.key node_of ∅ blocks b Hb).
Qed.

Lemma for_each_returns {A S : Type} (body : S → A → result S) (l : list A) :
  (∀ s x, x ∈ l → ∃ s', body s x = Ok s') →
  ∀ s, ∃ s', for_each body s l = Ok s'.
Proof.
  induction l as [|x l IH]; intros Hbody s; simpl.
  - by exists s.
  - destruct (Hbody s x) as [s1 ->]; [by left|].
    apply IH. intros s0 y Hy. apply Hbody. by right.
Qed.

Lemma connect_to_pc_returns blocks avoid cfg node_map cur a p ty :
  ∃ cfg', Static.connect_to_pc blocks avoid cfg node_map cur a p ty = Ok cfg'.
Proof.
  unfold Static.connect_to_pc.
  destruct (Static._find_block_by_pc blocks a p) as [found|e] eqn:Hfind.
  - destruct (node_map !! BasicBlock.key found) as [node|]; [|by eexists].
    destruct (avoid && bool_decide (node = cur)); by eexists.
  - apply StaticFacts.find_block_by_pc_Raise in Hfind as [-> _]. by eexists.
Qed.

Lemma connect_block_returns instrs blocks node_map cfg block :
  Forall (fun instr => SVA.well_named instr = true) instrs →
  is_Some (node_map !! BasicBlock.key block) →
  (∀ pc op, last (BasicBlock.instructions block) = Some (pc, op) →
            is_Some (PyStr.int16 pc)) →
  ∃ cfg', Static.connect_block instrs blocks node_map cfg block = Ok cfg'.
Proof.
  intros Hnames [cur Hcur] Hpc. unfold Static.connect_block. rewrite Hcur.
  destruct (last (BasicBlock.instructions block)) as [[pc op]|];
    [|by eexists].
  destruct (Hpc pc op eq_refl) as [pc_int ->].
  destruct (SVAFacts.get_jump_target_returns instrs pc_int Hnames)
    as [target Htarget].
  destruct (String.eqb op "JUMPI").
  { unfold mbind, result_bind.
    destruct (connect_to_pc_returns blocks false cfg node_map cur
                (BasicBlock.address block)
                (PyStr.to_hex (pc_int + Static._get_opcode_length "JUMPI"))
                (Static._get_edge_type "CONDITION_FALSE")) as [cfg1 ->].
    rewrite Htarget. destruct target as [t|]; [|by eexists].
    apply connect_to_pc_returns. }
  destruct (String.eqb op "JUMP").
  { unfold mbind, result_bind. rewrite Htarget.
    destruct target as [t|]; [|by eexists]. apply connect_to_pc_returns. }
  destruct (name_in op _); [by eexists|].
  destruct (name_in op _); apply connect_to_pc_returns.
Qed.

(** The static builder returns a graph for a listing with the mnemonics
    of the table and blocks with one block per key whose pcs read as
    hexadecimal numbers. *)
Lemma build_static_cfg_returns instrs bytecode blocks :
  Forall (fun instr => SVA.well_named instr = true) instrs →
  NoDup (BasicBlock.key <$> blocks) →
  (∀ block pc op, block ∈ blocks →
                  last (BasicBlock.instructions block) = Some (pc, op) →
                  is_Some (PyStr.int16 pc)) →
  ∃ cfg, Static.build_static_cfg instrs bytecode blocks = Ok cfg.
Proof.
  intros Hnames Hnd Hpc.
  assert (∃ st, Static.synthesize_edges instrs bytecode blocks = Ok st)
    as [[graph node_map] Hsyn].
  { unfold Static.synthesize_edges, mbind, result_bind.
    destruct (for_each_returns
                (Static.connect_block instrs blocks
                   (Static.create_nodes bytecode blocks).2) blocks)
      with (s := (Static.create_nodes bytecode blocks).1) as [graph ->];
      [|by eexists].
    intros s block Hblock. apply connect_block_returns; [done| |eauto].
    rewrite (StaticFacts.node_map_lookup bytecode blocks block Hnd Hblock).
    by eexists. }
  unfold Static.build_static_cfg, mbind, result_bind. rewrite Hsyn.
  cbn [fst snd].
  apply synthesized_graph_is_prunable in Hsyn as (_ & Hkeys & Hmap); [|done].
  destruct (PruneFacts.pruned_graph_returns graph node_map Hkeys Hmap) as [st' ->].
  by eexists.
Qed.

End GraphFacts.

(** C5, as stated, fails for the static CFG after pruning: the block at
    pc 1 is pruned together with its JUMP edge, which has id 0, and the
    one edge that is left keeps id 1. *)
Lemma pruning_leaves_a_gap_in_edge_ids :
  ¬ (∀ instrs bytecode blocks cfg,
       Static.build_static_cfg instrs bytecode blocks = Ok cfg →
       edge_id <$> edges cfg = seq 0 (length (edges cfg))).
Proof.
  intros Hclaim.
  specialize (Hclaim GapScenario.listing GapScenario.bytecode
                GapScenario.blocks).
  destruct (Static.build_static_cfg GapScenario.listing GapScenario.bytecode
              GapScenario.blocks) as [cfg|] eqn:Hbuild.
  - specialize (Hclaim cfg eq_refl).
    vm_compute in Hbuild. injection Hbuild as <-.
    vm_compute in Hclaim. discriminate.
  - vm_compute in Hbuild. discriminate.
Qed.

(** C5, amended.  Ids are handed out in insertion order from 0 and never
    reused.  In a graph built by either dynamic builder, and in the static
    graph before pruning, the ids of the edges are exactly 0 .. E - 1.
    After pruning, the ids of the edges that are left are an increasing
    subsequence of 0 .. counter - 1; removed edges leave gaps. *)
Theorem edge_ids_contiguous_until_pruning
  (instrs : list SVA.Instruction) (bytecode : string) (blocks : list Block)
  (all_base_blocks : list Block) (trace : EvmInformation.StandardizedTrace)
  (contract_steps : list StandardizedStep) :
  (∀ cfg out,
     CFGConstructor.construct_cfg all_base_blocks trace = Ok (cfg, out) →
     contiguous_ids cfg)
  ∧ (∀ cfg out,
       ContractCFGConnector.connect_contract_cfg blocks contract_steps
       = Ok (cfg, out) →
       contiguous_ids cfg)
  ∧ (∀ cfg node_map,
       Static.synthesize_edges instrs bytecode blocks = Ok (cfg, node_map) →
       contiguous_ids cfg)
  ∧ (∀ cfg,
       Static.build_static_cfg instrs bytecode blocks = Ok cfg →
       edge_id <$> edges cfg `sublist_of` seq 0 (_next_edge_id cfg)).
Proof.
  split_and!.
  - intros cfg0 out. unfold CFGConstructor.construct_cfg.
    destruct (EvmInformation.steps trace) as [|first rest] eqn:Hsteps.
    { intros [= <- _]. apply GraphFacts.contiguous_new. }
    destruct (CFGConstructor._find_base_block all_base_blocks _ _)
      as [b|[]]; try done.
    unfold mbind, result_bind.
    destruct (CFGConstructor.loop _ _ _ _) as [w|] eqn:Hloop; [|done].
    intros [= <- _]. revert Hloop.
    apply (GraphFacts.transaction_loop_invariant
             (fun w => contiguous_ids (cfg w))).
    + intros. by apply GraphFacts.contiguous_enter_block.
    + done.
    + done.
  - intros cfg0 out. unfold ContractCFGConnector.connect_contract_cfg.
    destruct blocks as [|b0 blocks'].
    { intros [= <- _]. apply GraphFacts.contiguous_new. }
    destruct contract_steps as [|first rest].
    { intros [= <- _]. apply GraphFacts.contiguous_new. }
    destruct (ContractCFGConnector.block_of_step _ _) as [b|[]]; try done.
    unfold mbind, result_bind.
    destruct (ContractCFGConnector.loop _ _ _ _) as [w|] eqn:Hloop; [|done].
    intros [= <- _]. revert Hloop.
    apply (GraphFacts.contract_loop_invariant
             (fun w => contiguous_ids (cfg w))).
    + intros. by apply GraphFacts.contiguous_enter_block.
    + done.
    + done.
  - intros cfg0 node_map. apply GraphFacts.contiguous_synthesize_edges.
  - intros cfg'. unfold Static.build_static_cfg, mbind, result_bind.
    destruct (Static.synthesize_edges instrs bytecode blocks)
      as [[cfg0 node_map]|] eqn:Hsyn; [|done].
    apply GraphFacts.contiguous_synthesize_edges in Hsyn as [Hids Hnext].
    destruct (Static.remove_unreachable_instruction_blocks _ _)
      as [st'|] eqn:Hprune; [|done].
    intros [= <-].
    apply GraphFacts.removal_loop_graph in Hprune. simpl in Hprune.
    rewrite Hprune.
    destruct (PruneFacts.remove_nodes_sublist cfg0
                (filter (fun node => Static.unreachable cfg0 node)
                   (nodes cfg0))) as [Hsub ->].
    rewrite Hnext, <- Hids. by apply fmap_sublist.
Qed.

(** ** The per-contract dynamic builder and SELFDESTRUCT *)

(** C6.  The claim asks the per-contract builder to treat terminators as
    the transaction builder does, with a DESTRUCT edge after a
    SELFDESTRUCT step that is followed by a step in a known block.  Its
    set of split opcodes spells the opcode [SELFdestruct], which no step
    carries, so on the steps below it adds no edge, while the
    transaction builder adds the DESTRUCT edge on the same steps. *)
Theorem contract_builder_misses_selfdestruct :
  name_in "SELFDESTRUCT" ContractCFGConnector.split_opcodes = false
  ∧ name_in "SELFDESTRUCT" CFGConstructor.split_opcodes = true
  ∧ (fst <$> ContractCFGConnector.connect_contract_cfg
               [SelfdestructScenario.entry] SelfdestructScenario.steps)
    = Ok {| tx_hash := String.append "contract_" SelfdestructScenario.contract;
            nodes := [node_of SelfdestructScenario.entry];
            edges := [];
            _next_edge_id := 0 |}
  ∧ (fst <$> CFGConstructor.construct_cfg
               [SelfdestructScenario.entry] SelfdestructScenario.trace)
    = Ok {| tx_hash := "0x01";
            nodes := [node_of SelfdestructScenario.entry];
            edges := [{| edge_id := 0;
                         source := node_of SelfdestructScenario.entry;
                         target := node_of SelfdestructScenario.entry;
                         edge_type := "DESTRUCT" |}];
            _next_edge_id := 1 |}.
Proof. split_and!; vm_compute; reflexivity. Qed.

(** ** Trace ingestion *)

Module TraceFacts.

Import EvmInformation.

Section Tracker.

Variable to_checksum_address : string → option string.

Abbreviation ingest := (EvmInformation.ingest to_checksum_address).
Abbreviation start := (EvmInformation.start to_checksum_address).

Lemma ingest_emitted t step :
  emitted (ingest t step) = emitted t ++ [labelled (current_address t) step].
Proof.
  unfold EvmInformation.ingest.
  by destruct (if name_in _ call_opcodes then _ else _).
Qed.

Lemma ingest_next t step :
  next_address (ingest t step) = current_address (ingest t step).
Proof.
  unfold EvmInformation.ingest.
  by destruct (if name_in _ call_opcodes then _ else _).
Qed.

Lemma run_next t l :
  next_address t = current_address t →
  next_address (foldl ingest t l) = current_address (foldl ingest t l).
Proof.
  destruct l as [|x l _] using rev_ind; [done|].
  intros _. rewrite foldl_snoc. apply ingest_next.
Qed.

Lemma run_length t l :
  length (emitted (foldl ingest t l)) = (length (emitted t) + length l)%nat.
Proof.
  revert t. induction l as [|x l IH]; intros t; simpl; [lia|].
  rewrite IH, ingest_emitted, length_app. simpl. lia.
Qed.

Lemma run_prefix t l : emitted t `prefix_of` emitted (foldl ingest t l).
Proof.
  revert t. induction l as [|x l IH]; intros t; simpl; [done|].
  etrans; [|apply IH]. rewrite ingest_emitted. by apply prefix_app_r.
Qed.

Lemma emitted_lookup tx_to (struct_logs : list StructLog) k step :
  struct_logs !! k = Some step →
  emitted (foldl ingest (start tx_to) struct_logs) !! k
  = Some (labelled
            (current_address (foldl ingest (start tx_to) (take k struct_logs)))
            step).
Proof.
  intros Hk.
  rewrite <- (take_drop_middle struct_logs k step Hk) at 1.
  rewrite foldl_app. simpl.
  eapply prefix_lookup_Some; [|apply run_prefix].
  rewrite ingest_emitted.
  rewrite lookup_app_r; rewrite run_length; simpl;
    rewrite length_take_le by (apply lookup_lt_Some in Hk; lia);
    [|lia].
  by rewrite Nat.sub_diag.
Qed.

Lemma second_from_top_snoc rest (item top : string) :
  second_from_top (rest ++ [item; top]) = Some item.
Proof.
  unfold second_from_top. rewrite length_app. simpl.
  replace (length rest + 2 - 2)%nat with (length rest + 0)%nat by lia.
  by rewrite lookup_app_r, Nat.add_0_r, Nat.sub_diag by lia.
Qed.

End Tracker.

End TraceFacts.

(** C7, as stated, fails: a CALL step whose second-from-top stack item is
    not accepted as an address (here a 32-byte word) switches nothing, and
    the next step keeps the caller's label. *)
Lemma call_with_invalid_address_keeps_label :
  ¬ (∀ to_checksum_address tx_hash tx_to struct_logs k step rest item top e,
       struct_logs !! k = Some step →
       name_in (PyStr.upper (EvmInformation.log_op step))
         EvmInformation.call_opcodes = true →
       EvmInformation.log_stack step = rest ++ [item; top] →
       EvmInformation.steps
         (EvmInformation.get_standardized_trace to_checksum_address
            tx_hash tx_to struct_logs) !! S k = Some e →
       EvmInformation.address e
       = EvmInformation._normalize_address to_checksum_address item).
Proof.
  intros Hclaim.
  specialize (Hclaim CallScenario.hex_address "0x01"%string
                CallScenario.caller CallScenario.call_with_word 1%nat
                (CallScenario.raw 1 "CALL"
                   ["0x0";
                    "0x00000000000000000000000000000000000000000000000000000000000000b0";
                    "0xffff"]%string)
                ["0x0"%string]
                "0x00000000000000000000000000000000000000000000000000000000000000b0"%string
                "0xffff"%string
                (labelled CallScenario.caller
                   (CallScenario.raw 0 "STOP" []))
                eq_refl eq_refl eq_refl eq_refl).
  vm_compute in Hclaim. discriminate.
Qed.

(** C7, amended.  The step emitted for a raw step carries the address
    that is current when the step is reached, and the step after it
    carries the address that is current once the opcode has been
    accounted for.  At a CALL, CALLCODE, DELEGATECALL or STATICCALL whose
    raw stack has at least two items and whose second-from-top item
    normalizes to an address, the current address is pushed onto the call
    stack and the normalized item becomes the current address; at any
    other CALL-family step neither the call stack nor the current address
    changes. *)
Theorem steps_are_labelled_before_the_opcode_acts
  (to_checksum_address : string → option string) (tx_hash tx_to : string)
  (struct_logs : list EvmInformation.StructLog) (k : nat)
  (step : EvmInformation.StructLog) :
  struct_logs !! k = Some step →
  let run := foldl (EvmInformation.ingest to_checksum_address)
               (EvmInformation.start to_checksum_address tx_to) in
  let before := run (take k struct_logs) in
  let after := EvmInformation.ingest to_checksum_address before step in
  let trace := EvmInformation.get_standardized_trace to_checksum_address
                 tx_hash tx_to struct_logs in
  let unchanged :=
    EvmInformation.call_stack after = EvmInformation.call_stack before
    ∧ EvmInformation.current_address after
      = EvmInformation.current_address before in
  EvmInformation.steps trace !! k
  = Some (labelled (EvmInformation.current_address before) step)
  ∧ (∀ e, EvmInformation.steps trace !! S k = Some e →
          EvmInformation.address e = EvmInformation.current_address after)
  ∧ (name_in (PyStr.upper (EvmInformation.log_op step))
       EvmInformation.call_opcodes = true →
     (∀ rest item top,
        EvmInformation.log_stack step = rest ++ [item; top] →
        if String.eqb
             (EvmInformation._normalize_address to_checksum_address item) ""
        then unchanged
        else EvmInformation.call_stack after
             = EvmInformation.call_stack before
               ++ [EvmInformation.current_address before]
             ∧ EvmInformation.current_address after
               = EvmInformation._normalize_address to_checksum_address item)
     ∧ ((length (EvmInformation.log_stack step) < 2)%nat → unchanged)).
Proof.
  intros Hk run before after trace unchanged.
  assert (EvmInformation.next_address before
          = EvmInformation.current_address before) as Hnext.
  { by apply TraceFacts.run_next. }
  split_and!.
  - by apply TraceFacts.emitted_lookup.
  - intros e He.
    assert (is_Some (struct_logs !! S k)) as [step' Hk'].
    { apply lookup_lt_is_Some. apply lookup_lt_Some in He.
      unfold trace, EvmInformation.get_standardized_trace in He.
      simpl in He. rewrite TraceFacts.run_length in He. simpl in He. lia. }
    unfold trace, EvmInformation.get_standardized_trace in He. simpl in He.
    rewrite (TraceFacts.emitted_lookup _ _ _ _ _ Hk') in He.
    injection He as <-. simpl.
    by rewrite (take_S_r _ _ _ Hk), foldl_snoc.
  - intros Hcall. split.
    + intros rest item top Hstack.
      subst unchanged after. unfold EvmInformation.ingest.
      rewrite Hcall, Hstack, TraceFacts.second_from_top_snoc.
      rewrite decide_True by (rewrite length_app; simpl; lia).
      by destruct (String.eqb _ "").
    + intros Hshort. subst unchanged after. unfold EvmInformation.ingest.
      rewrite Hcall. by rewrite decide_False by lia.
Qed.

(** ** The dynamic builders and unknown blocks *)

Module WalkFacts.

Lemma transaction_find_raises blocks a p e :
  CFGConstructor._find_base_block blocks a p = Raise e →
  e = ValueError ∧ base_block_map blocks !! (a, p) = None.
Proof.
  unfold CFGConstructor._find_base_block.
  destruct (base_block_map blocks !! (a, p)); [done|]. by intros [= <-].
Qed.


(** Neither loop raises. *)
Lemma transaction_loop_returns blocks steps idx w :
  ∃ w', CFGConstructor.loop blocks steps idx w = Ok w'.
Proof.
  revert idx w. induction steps as [|s steps IH]; intros idx w; simpl.
  - by exists w.
  - destruct (name_in _ _); [|apply IH].
    destruct steps as [|next steps']; [by exists w|].
    destruct (CFGConstructor._find_base_block blocks _ _) as [b|e] eqn:Hfind;
      [apply IH|].
    apply transaction_find_raises in Hfind as [-> _]. apply IH.
Qed.


Lemma transaction_loop_cons blocks s next rest idx w :
  CFGConstructor.loop blocks (s :: next :: rest) idx w
  = if name_in (EvmInformation.opcode s) CFGConstructor.split_opcodes then
      match CFGConstructor._find_base_block blocks
              (EvmInformation.address next) (EvmInformation.pc next) with
      | Ok next_base_block =>
          CFGConstructor.loop blocks (next :: rest) (S idx)
            (enter_block w next_base_block
               (_get_edge_type (EvmInformation.opcode s)))
      | Raise ValueError =>
          CFGConstructor.loop blocks (next :: rest) (S idx)
            (warn w (S idx) next)
      | Raise e => Raise e
      end
    else CFGConstructor.loop blocks (next :: rest) (S idx) w.
Proof. done. Qed.

Lemma transaction_loop_last blocks t idx w :
  CFGConstructor.loop blocks [t] idx w = Ok w.
Proof.
  simpl. by destruct (name_in (EvmInformation.opcode t)
                        CFGConstructor.split_opcodes).
Qed.

(** The walk up to a step [t] only looks at the steps before [t] and at
    [t] itself. *)
Lemma transaction_loop_app blocks before t rest idx w :
  CFGConstructor.loop blocks (before ++ t :: rest) idx w
  = (reached ← CFGConstructor.loop blocks (before ++ [t]) idx w;
     CFGConstructor.loop blocks (t :: rest) (idx + length before)%nat reached).
Proof.
  revert idx w. induction before as [|s before IH]; intros idx w.
  - change ([] ++ t :: rest) with (t :: rest). change ([] ++ [t]) with [t].
    rewrite transaction_loop_last. simpl. by rewrite Nat.add_0_r.
  - replace (idx + length (s :: before))%nat
      with (S idx + length before)%nat by (simpl; lia).
    destruct before as [|next before'].
    + change ([s] ++ t :: rest) with (s :: t :: rest).
      change ([s] ++ [t]) with (s :: t :: []).
      rewrite (transaction_loop_cons blocks s t rest),
        (transaction_loop_cons blocks s t []).
      destruct (name_in (EvmInformation.opcode s)
                  CFGConstructor.split_opcodes); [|apply (IH (S idx) w)].
      destruct (CFGConstructor._find_base_block blocks _ _) as [b|[]];
        try done; apply (IH (S idx)).
    + change ((s :: next :: before') ++ t :: rest)
        with (s :: next :: (before' ++ t :: rest)).
      change ((s :: next :: before') ++ [t])
        with (s :: next :: (before' ++ [t])).
      rewrite (transaction_loop_cons blocks s next (before' ++ t :: rest)),
        (transaction_loop_cons blocks s next (before' ++ [t])).
      destruct (name_in (EvmInformation.opcode s)
                  CFGConstructor.split_opcodes); [|apply (IH (S idx) w)].
      destruct (CFGConstructor._find_base_block blocks _ _) as [b|[]];
        try done; apply (IH (S idx)).
Qed.

Lemma output_grows blocks steps idx w w' :
  CFGConstructor.loop blocks steps idx w = Ok w' →
  output w `prefix_of` output w'.
Proof.
  apply (GraphFacts.transaction_loop_invariant
           (fun w' => output w `prefix_of` output w')).
  - intros w0 b ty. unfold enter_block.
    by destruct (processed_nodes w0 !! BasicBlock.key b).
  - intros w0 i s Hw0. simpl. etrans; [exact Hw0|]. by apply prefix_app_r.
  - done.
Qed.

End WalkFacts.

(** C8.  Let [u] be a step that follows a split opcode [t] and whose
    (address, pc) is not the key of any block.  Whatever state the walk
    is in when it reaches [t], it does not raise: it prints the warning
    for [u] and goes on with [u] and the steps after it, with the same
    graph, the same nodes and the same current node, so no node and no
    edge is added for [u].  In a trace whose first step starts a known
    block, [construct_cfg] therefore returns a graph, and the warning for
    [u] is among what it printed. *)
Theorem unknown_block_after_terminator_is_skipped
  (all_base_blocks : list Block) (t u : StandardizedStep)
  (rest : list StandardizedStep) :
  name_in (EvmInformation.opcode t) CFGConstructor.split_opcodes = true →
  base_block_map all_base_blocks
    !! (EvmInformation.address u, EvmInformation.pc u) = None →
  (∀ idx w,
     CFGConstructor.loop all_base_blocks (t :: u :: rest) idx w
     = CFGConstructor.loop all_base_blocks (u :: rest) (S idx)
         (warn w (S idx) u)
     ∧ (∃ w', CFGConstructor.loop all_base_blocks (t :: u :: rest) idx w
              = Ok w')
     ∧ cfg (warn w (S idx) u) = cfg w
     ∧ current_node (warn w (S idx) u) = current_node w
     ∧ processed_nodes (warn w (S idx) u) = processed_nodes w
     ∧ output (warn w (S idx) u)
       = output w ++ [Warning (S idx) (EvmInformation.address u)
                        (EvmInformation.pc u)])
  ∧ (∀ tx_hash before first first_block,
       head (before ++ [t]) = Some first →
       CFGConstructor._find_base_block all_base_blocks
         (EvmInformation.address first) (EvmInformation.pc first)
       = Ok first_block →
       let trace := {| EvmInformation.tx_hash := tx_hash;
                       EvmInformation.steps := before ++ t :: u :: rest |} in
       let at_u := S (length before) in
       ∃ reached graph out,
         CFGConstructor.loop all_base_blocks (before ++ [t]) 0%nat
           (first_walk tx_hash first_block) = Ok reached
         ∧ CFGConstructor.construct_cfg all_base_blocks trace
           = (w ← CFGConstructor.loop all_base_blocks (u :: rest) at_u
                    (warn reached at_u u);
              Ok (cfg w, output w))
         ∧ CFGConstructor.construct_cfg all_base_blocks trace
           = Ok (graph, out)
         ∧ Warning at_u (EvmInformation.address u) (EvmInformation.pc u)
           ∈ out).
Proof.
  intros Ht Hu.
  assert (∀ idx w,
            CFGConstructor.loop all_base_blocks (t :: u :: rest) idx w
            = CFGConstructor.loop all_base_blocks (u :: rest) (S idx)
                (warn w (S idx) u)) as Hskip.
  { intros idx w. rewrite WalkFacts.transaction_loop_cons, Ht.
    unfold CFGConstructor._find_base_block. by rewrite Hu. }
  split.
  { intros idx w. split_and!; try done.
    apply WalkFacts.transaction_loop_returns. }
  intros tx_hash before first first_block Hhead Hfirst trace at_u.
  destruct (WalkFacts.transaction_loop_returns all_base_blocks
              (before ++ [t]) 0%nat (first_walk tx_hash first_block))
    as [reached Hreached].
  destruct (WalkFacts.transaction_loop_returns all_base_blocks (u :: rest)
              at_u (warn reached at_u u)) as [final Hfinal].
  exists reached, (cfg final), (output final).
  assert (CFGConstructor.construct_cfg all_base_blocks trace
          = (w ← CFGConstructor.loop all_base_blocks (u :: rest) at_u
                   (warn reached at_u u);
             Ok (cfg w, output w))) as Hrun.
  { unfold CFGConstructor.construct_cfg, trace. simpl.
    assert (head (before ++ t :: u :: rest) = Some first) as Hhead'.
    { by destruct before. }
    destruct (before ++ t :: u :: rest) as [|first' steps'] eqn:Hsteps;
      [done|].
    injection Hhead' as ->. rewrite Hfirst, <- Hsteps.
    rewrite WalkFacts.transaction_loop_app, Hreached.
    unfold mbind at 2. unfold result_bind. simpl Nat.add.
    by rewrite Hskip. }
  split_and!; try done.
  - rewrite Hrun, Hfinal. done.
  - apply WalkFacts.output_grows in Hfinal.
    eapply elem_of_prefix; [|exact Hfinal].
    simpl. apply elem_of_app. right. by left.
Qed.



(** ** The theorems at concrete inputs *)


Lemma pruning_keeps_entry_and_jumpdest_blocks_witness :
  (start_pc <$> nodes PruneScenario.synthesized.1)
  = ["0x0"; "0x1"; "0x4"; "0x6"]%string
  ∧ ∃ cfg',
      PruneScenario.pruned = Ok cfg'
      ∧ (∀ n, n ∈ nodes PruneScenario.synthesized.1 →
              start_pc n = "0x0"%string
              ∨ (∃ pc, head (instructions n) = Some (pc, "JUMPDEST"%string)) →
              n ∈ nodes cfg')
      ∧ (∀ n e, n ∈ nodes PruneScenario.synthesized.1 → n ∉ nodes cfg' →
                e ∈ edges cfg' → source e ≠ n ∧ target e ≠ n).
Proof.
  split; [vm_compute; reflexivity|].
  destruct (pruning_keeps_entry_and_jumpdest_blocks
              PruneScenario.synthesized.1 PruneScenario.synthesized.2)
    as (cfg' & node_map' & Hrun & Hkept & _ & Hedges & _).
  - decide_by_eval.
  - apply Forall_forall. decide_by_eval.
  - exists cfg'. unfold PruneScenario.pruned. rewrite Hrun.
    split_and!; [reflexivity | exact Hkept | exact Hedges].
Defined.

Lemma edge_ids_contiguous_until_pruning_witness :
  contiguous_ids PruneScenario.synthesized.1
  ∧ (∃ cfg, Static.build_static_cfg GapScenario.listing GapScenario.bytecode
              GapScenario.blocks = Ok cfg
            ∧ edge_id <$> edges cfg `sublist_of` seq 0 (_next_edge_id cfg))
  ∧ (∃ cfg out, CFGConstructor.construct_cfg [SelfdestructScenario.entry]
                  SelfdestructScenario.trace = Ok (cfg, out)
                ∧ contiguous_ids cfg).
Proof.
  pose proof (edge_ids_contiguous_until_pruning GapScenario.listing
                GapScenario.bytecode GapScenario.blocks
                [SelfdestructScenario.entry] SelfdestructScenario.trace
                SelfdestructScenario.steps)
    as (Htx & _ & Hsyn & Hbuild).
  split_and!.
  - unfold PruneScenario.synthesized.
    destruct (is_Ok_true
                (Static.synthesize_edges GapScenario.listing
                   GapScenario.bytecode GapScenario.blocks))
      as [[cfg node_map] Hrun]; [vm_compute; reflexivity|].
    rewrite Hrun. by apply (Hsyn cfg node_map).
  - destruct (is_Ok_true
                (Static.build_static_cfg GapScenario.listing
                   GapScenario.bytecode GapScenario.blocks))
      as [cfg Hrun]; [vm_compute; reflexivity|].
    exists cfg. split; [exact Hrun|]. by apply Hbuild.
  - destruct (is_Ok_true
                (CFGConstructor.construct_cfg [SelfdestructScenario.entry]
                   SelfdestructScenario.trace))
      as [[cfg out] Hrun]; [vm_compute; reflexivity|].
    exists cfg, out. split; [exact Hrun|]. by apply (Htx cfg out).
Defined.

Lemma steps_are_labelled_before_the_opcode_acts_witness :
  let run := foldl (EvmInformation.ingest CallScenario.hex_address)
               (EvmInformation.start CallScenario.hex_address
                  CallScenario.caller) in
  let before := run (take 1 CallScenario.call_with_address) in
  let after := run (take 2 CallScenario.call_with_address) in
  EvmInformation.current_address before = CallScenario.caller
  ∧ EvmInformation.call_stack after
    = EvmInformation.call_stack before ++ [CallScenario.caller]
  ∧ EvmInformation.current_address after = CallScenario.callee.
Proof.
  pose proof (steps_are_labelled_before_the_opcode_acts
                CallScenario.hex_address "0x01" CallScenario.caller
                CallScenario.call_with_address 1
                (CallScenario.raw 1 "CALL"
                   ["0x0"; CallScenario.callee; "0xffff"]%string)
                eq_refl) as (_ & _ & Hcall).
  destruct (Hcall eq_refl) as [Hswitch _].
  specialize (Hswitch ["0x0"%string] CallScenario.callee "0xffff"%string
                eq_refl).
  split; [reflexivity|]. exact Hswitch.
Defined.

Lemma unknown_block_after_terminator_is_skipped_witness :
  (∃ graph out,
     CFGConstructor.construct_cfg SkipScenario.blocks SkipScenario.trace
     = Ok (graph, out)
     ∧ Warning 2 SelfdestructScenario.contract "0x9" ∈ out)
  ∧ (fun r => (summary r.1, r.2))
      <$> CFGConstructor.construct_cfg SkipScenario.blocks SkipScenario.trace
    = Ok ((["0x0"; "0x3"], [(0%nat, "0x0", "0x3", "JUMP")]),
          [Warning 2 SelfdestructScenario.contract "0x9"])%string.
Proof.
  split; [|vm_compute; reflexivity].
  destruct (unknown_block_after_terminator_is_skipped
              SkipScenario.blocks
              (SelfdestructScenario.step "0x2" "JUMP" ["0x9"%string])
              (SelfdestructScenario.step "0x9" "JUMPDEST" [])
              (drop 3 SkipScenario.steps))
    as [_ Htrace].
  - reflexivity.
  - vm_compute. reflexivity.
  - destruct (Htrace "0x02"%string
                [SelfdestructScenario.step "0x0" "PUSH1" []]
                (SelfdestructScenario.step "0x0" "PUSH1" [])
                SkipScenario.entry)
      as (reached & graph & out & _ & _ & Hrun & Hwarned).
    + reflexivity.
    + vm_compute. reflexivity.
    + exists graph, out. split; [exact Hrun | exact Hwarned].
Defined.


(** * Further properties *)

(** ** The analyzer, opcode by opcode *)

Module OpcodeFacts.

Import SimpleStackValueAnalyzer.

Lemma dup_is_not_push s :
  PyStr.startswith s "DUP" = true → PyStr.startswith s "PUSH" = false.
Proof.
  unfold PyStr.startswith. destruct s as [|c s]; [done|].
  cbn [String.prefix].
  destruct (ascii_dec "D" c) as [<-|]; [|done]. intros _.
  by destruct (ascii_dec "P" "D").
Qed.

Lemma swap_is_not_push_or_dup s :
  PyStr.startswith s "SWAP" = true →
  PyStr.startswith s "PUSH" = false ∧ PyStr.startswith s "DUP" = false.
Proof.
  unfold PyStr.startswith. destruct s as [|c s]; [done|].
  cbn [String.prefix].
  destruct (ascii_dec "S" c) as [<-|]; [|done]. intros _.
  by destruct (ascii_dec "P" "S"), (ascii_dec "D" "S").
Qed.

Lemma unsupported_breaks instr stack :
  supported instr = false → step instr stack = Break.
Proof.
  unfold supported, step. intros Hs.
  repeat (apply orb_false_elim in Hs as [Hs ?]).
  by repeat match goal with H : _ = false |- _ => rewrite H; clear H end.
Qed.

Lemma not_at_any_pc instructions (jump_pc : Z) :
  jump_pc ∉ pc <$> instructions → instr_by_pc instructions !! jump_pc = None.
Proof.
  intros Hpc. rewrite SVAFacts.instr_by_pc_fold.
  by rewrite (fold_insert_fresh pc id ∅ instructions jump_pc Hpc).
Qed.

End OpcodeFacts.

(** X1.  Asked about a pc where the listing has no instruction, or where
    the instruction is neither JUMP nor JUMPI, the analyzer answers
    "unknown" without looking at anything else. *)
Theorem get_jump_target_off_a_jump_site
  (instructions : list SVA.Instruction) (jump_pc : Z) :
  (jump_pc ∉ SVA.pc <$> instructions →
   SVA.get_jump_target instructions jump_pc = Ok None)
  ∧ (∀ instr,
       NoDup (SVA.pc <$> instructions) → instr ∈ instructions →
       SVA.pc instr = jump_pc →
       name_in (SVA.name instr) ["JUMP"; "JUMPI"]%string = false →
       SVA.get_jump_target instructions jump_pc = Ok None).
Proof.
  split.
  - intros Hpc. unfold SVA.get_jump_target.
    by rewrite OpcodeFacts.not_at_any_pc.
  - intros instr Hnd Hin <- Hname. unfold SVA.get_jump_target.
    rewrite SVAFacts.instr_by_pc_fold.
    rewrite (fold_insert_lookup_NoDup SVA.pc id ∅ instructions instr Hnd Hin).
    simpl. by rewrite Hname.
Qed.

Lemma get_jump_target_off_a_jump_site_witness :
  SVA.get_jump_target Scenarios.jumpi_listing 3 = Ok None
  ∧ SVA.get_jump_target Scenarios.jumpi_listing 6 = Ok None.
Proof.
  split.
  - apply (get_jump_target_off_a_jump_site Scenarios.jumpi_listing 3).
    decide_by_eval.
  - apply (proj2 (get_jump_target_off_a_jump_site Scenarios.jumpi_listing 6)
             (Scenarios.ins 6 "JUMPDEST" 0)).
    + decide_by_eval.
    + decide_by_eval.
    + reflexivity.
    + reflexivity.
Defined.

(** X2.  An operation that finds too few elements on the abstract stack
    makes the analyzer answer "unknown" at once, whatever instructions
    are still to be visited: POP on the empty stack, an arithmetic
    opcode on fewer than two elements, DUPn on fewer than n and SWAPn on
    fewer than n + 1. *)
Theorem underflow_gives_unknown
  (instr : SVA.Instruction) (rest : list SVA.Instruction) (stack : list Z) :
  (SVA.name instr = "POP"%string → stack = [] →
   SVA.simulate (instr :: rest) stack = Ok None)
  ∧ (name_in (SVA.name instr) SVA.arithmetic = true →
     (length stack < 2)%nat →
     SVA.simulate (instr :: rest) stack = Ok None)
  ∧ (∀ n, PyStr.startswith (SVA.name instr) "DUP" = true →
          PyStr.int (PyStr.from 3 (SVA.name instr)) = Some n →
          Z.of_nat (length stack) < n →
          SVA.simulate (instr :: rest) stack = Ok None)
  ∧ (∀ n, PyStr.startswith (SVA.name instr) "SWAP" = true →
          PyStr.int (PyStr.from 4 (SVA.name instr)) = Some n →
          Z.of_nat (length stack) < n + 1 →
          SVA.simulate (instr :: rest) stack = Ok None).
Proof.
  destruct instr as [ipc iname iop]. simpl. split_and!.
  - intros -> ->. reflexivity.
  - intros Hname Hlen.
    unfold SVA.arithmetic, name_in in Hname.
    apply bool_decide_eq_true in Hname.
    assert (iname = "ADD" ∨ iname = "SUB" ∨ iname = "MUL" ∨ iname = "DIV")%string
      as Hcases by (rewrite !elem_of_cons, elem_of_nil in Hname; tauto).
    unfold SVA.step.
    destruct Hcases as [Hn | [Hn | [Hn | Hn]]]; subst iname; simpl;
      by rewrite decide_False by lia.
  - intros n Hdup Hint Hlen. unfold SVA.step. simpl.
    rewrite (OpcodeFacts.dup_is_not_push _ Hdup), Hdup, Hint.
    by rewrite decide_False by lia.
  - intros n Hswap Hint Hlen. unfold SVA.step. simpl.
    destruct (OpcodeFacts.swap_is_not_push_or_dup _ Hswap) as [-> ->].
    rewrite Hswap, Hint. by rewrite decide_False by lia.
Qed.

Lemma underflow_gives_unknown_witness :
  SVA.simulate [Scenarios.ins 3 "SWAP2" 0; Scenarios.ins 1 "PUSH1" 5] [7; 9]
  = Ok None.
Proof.
  apply (underflow_gives_unknown (Scenarios.ins 3 "SWAP2" 0)
           [Scenarios.ins 1 "PUSH1" 5] [7; 9]) with (n := 2).
  - reflexivity.
  - reflexivity.
  - simpl. lia.
Defined.

(** X3.  DUPn appends a copy of [stack[n - 1]], the n-th element counted
    from the bottom of the abstract stack: DUP1 copies the element
    pushed first, whatever is on top. *)
Theorem dup_copies_from_the_bottom
  (instr : SVA.Instruction) (n : Z) (stack : list Z) (v : Z) :
  PyStr.startswith (SVA.name instr) "DUP" = true →
  PyStr.int (PyStr.from 3 (SVA.name instr)) = Some n →
  1 ≤ n →
  stack !! Z.to_nat (n - 1) = Some v →
  SVA.step instr stack = SVA.Next (stack ++ [v]).
Proof.
  intros Hdup Hint Hn Hv. unfold SVA.step.
  rewrite (OpcodeFacts.dup_is_not_push _ Hdup), Hdup, Hint.
  apply lookup_lt_Some in Hv as Hlen.
  rewrite decide_True by lia.
  unfold SVA.getitem. rewrite decide_True by lia. by rewrite Hv.
Qed.

Lemma dup_copies_from_the_bottom_witness :
  SVA.step (Scenarios.ins 3 "DUP1" 0) [7; 9] = SVA.Next [7; 9; 7].
Proof.
  apply (dup_copies_from_the_bottom (Scenarios.ins 3 "DUP1" 0) 1 [7; 9] 7).
  - reflexivity.
  - reflexivity.
  - lia.
  - reflexivity.
Defined.

(** X4.  SWAPn exchanges the top of the abstract stack with the element
    n places below it and leaves everything else where it is; doing it
    twice gives the stack back. *)
Theorem swap_exchanges_top_and_nth_below
  (instr : SVA.Instruction) (n : Z) (front : list Z) (a : Z) (mid : list Z)
  (b : Z) :
  PyStr.startswith (SVA.name instr) "SWAP" = true →
  PyStr.int (PyStr.from 4 (SVA.name instr)) = Some n →
  Z.of_nat (length mid) = n - 1 →
  SVA.step instr (front ++ a :: mid ++ [b])
  = SVA.Next (front ++ b :: mid ++ [a])
  ∧ SVA.step instr (front ++ b :: mid ++ [a])
    = SVA.Next (front ++ a :: mid ++ [b]).
Proof.
  intros Hswap Hint Hmid.
  assert (∀ x y, SVA.step instr (front ++ x :: mid ++ [y])
                 = SVA.Next (front ++ y :: mid ++ [x])) as Hstep.
  { intros x y. unfold SVA.step.
    destruct (OpcodeFacts.swap_is_not_push_or_dup _ Hswap) as [-> ->].
    rewrite Hswap, Hint.
    set (stack := front ++ x :: mid ++ [y]).
    assert (stack = (front ++ x :: mid) ++ [y]) as Hstack
      by (unfold stack; by rewrite <- app_assoc).
    assert (length stack = (length front + S (length mid + 1))%nat) as Hlen.
    { unfold stack. rewrite length_app. simpl. by rewrite length_app. }
    assert (length (front ++ x :: mid) = (length front + S (length mid))%nat)
      as Hbelow by (rewrite length_app; done).
    rewrite decide_True by lia.
    assert (Z.to_nat (Z.of_nat (length stack) + (- n - 1)) = length front)
      as Hdeep by lia.
    assert (Z.to_nat (Z.of_nat (length stack) + - 1)
            = length (front ++ x :: mid)) as Htop by lia.
    assert (SVA.getitem stack (- n - 1) = Some x) as ->.
    { unfold SVA.getitem. rewrite decide_False by lia.
      rewrite decide_True by lia. rewrite Hdeep. unfold stack.
      by rewrite list_lookup_middle. }
    assert (SVA.getitem stack (- 1) = Some y) as ->.
    { unfold SVA.getitem. rewrite decide_False by lia.
      rewrite decide_True by lia. rewrite Htop, Hstack.
      by rewrite list_lookup_middle. }
    f_equal. unfold SVA.setitem.
    rewrite (decide_False (P := 0 ≤ - n - 1)) by lia.
    rewrite (decide_False (P := 0 ≤ - 1)) by lia.
    rewrite length_insert, Hdeep, Htop, Hstack.
    rewrite insert_app_r_alt by lia. rewrite Nat.sub_diag. simpl.
    rewrite <- app_assoc. simpl.
    rewrite insert_app_r_alt by lia. rewrite Nat.sub_diag. simpl.
    reflexivity. }
  split; apply Hstep.
Qed.

Lemma swap_exchanges_top_and_nth_below_witness :
  SVA.step (Scenarios.ins 3 "SWAP2" 0) [1; 2; 3; 4] = SVA.Next [1; 4; 3; 2].
Proof.
  apply (swap_exchanges_top_and_nth_below (Scenarios.ins 3 "SWAP2" 0) 2
           [1] 2 [3] 4).
  - reflexivity.
  - reflexivity.
  - reflexivity.
Defined.

(** X5.  The pattern the analyzer resolves as the machine does: when the
    instruction right before the jump is PUSHn v and that PUSH is the
    first instruction of the listing or follows an opcode outside the
    supported set, the resolved target is v. *)
Theorem push_before_jump_resolves
  (before : list SVA.Instruction) (push jump : SVA.Instruction)
  (after : list SVA.Instruction) :
  NoDup (SVA.pc <$> before ++ push :: jump :: after) →
  name_in (SVA.name jump) ["JUMP"; "JUMPI"]%string = true →
  PyStr.startswith (SVA.name push) "PUSH" = true →
  before = []
  ∨ (∃ earlier other, before = earlier ++ [other]
                      ∧ SVA.supported other = false) →
  SVA.get_jump_target (before ++ push :: jump :: after) (SVA.pc jump)
  = Ok (Some (SVA.operand push)).
Proof.
  intros Hnd Hjump Hpush Hbefore.
  replace (before ++ push :: jump :: after)
    with ((before ++ [push]) ++ jump :: after) in *
    by (by rewrite <- app_assoc).
  rewrite SVAFacts.get_jump_target_at by done.
  rewrite reverse_app. simpl. unfold SVA.step at 1. rewrite Hpush. simpl.
  destruct Hbefore as [->|(earlier & other & -> & Hother)]; [done|].
  rewrite reverse_app. simpl.
  by rewrite OpcodeFacts.unsupported_breaks.
Qed.

Lemma push_before_jump_resolves_witness :
  SVA.get_jump_target Scenarios.jumpdest_listing 4 = Ok (Some 5).
Proof.
  apply (push_before_jump_resolves
           [Scenarios.ins 0 "STOP" 0; Scenarios.ins 1 "JUMPDEST" 0]
           (Scenarios.ins 2 "PUSH1" 5) (Scenarios.ins 4 "JUMP" 0)
           [Scenarios.ins 5 "JUMPDEST" 0; Scenarios.ins 6 "STOP" 0]).
  - decide_by_eval.
  - reflexivity.
  - reflexivity.
  - right. exists [Scenarios.ins 0 "STOP" 0], (Scenarios.ins 1 "JUMPDEST" 0).
    split; reflexivity.
Defined.

(** X6.  On a listing whose DUP and SWAP mnemonics carry their number,
    at least 1 after DUP and not negative after SWAP, as every mnemonic
    of the disassembler's table does, the analyzer never raises: it
    returns a target or "unknown" for every pc. *)
Theorem analyzer_returns_on_table_mnemonics
  (instructions : list SVA.Instruction) (jump_pc : Z) :
  Forall (fun instr => SVA.well_named instr = true) instructions →
  ∃ target, SVA.get_jump_target instructions jump_pc = Ok target.
Proof. apply SVAFacts.get_jump_target_returns. Qed.

Lemma analyzer_returns_on_table_mnemonics_witness :
  ∃ target, SVA.get_jump_target GapScenario.listing 3 = Ok target.
Proof.
  apply (analyzer_returns_on_table_mnemonics GapScenario.listing 3).
  decide_by_eval.
Defined.

(** ** The other rules of the static builder *)

Module RuleFacts.

Import StaticCompleteCFGBuilder.

Lemma name_in_false s l : name_in s l = false ↔ s ∉ l.
Proof. unfold name_in. by rewrite bool_decide_eq_false. Qed.

Lemma connect_to_pc_edges bytecode blocks block avoid cfg p kind :
  NoDup (BasicBlock.key <$> blocks) →
  ∃ added,
    connect_to_pc blocks avoid cfg (create_nodes bytecode blocks).2
      (node_of block) (BasicBlock.address block) p kind
    = Ok (appended cfg added)
    ∧ successor_edges blocks block avoid p kind added.
Proof.
  intros Hnd. rewrite StaticFacts.connect_to_pc_spec by done.
  setoid_rewrite <- StaticFacts.connect_all_appended.
  unfold successor_edges.
  destruct (_find_block_by_pc blocks (BasicBlock.address block) p)
    as [found|e] eqn:Hfind.
  - apply StaticFacts.find_block_by_pc_Ok in Hfind as Hfound; [|done].
    destruct (decide (found = block)) as [->|Hne].
    + rewrite !bool_decide_eq_true_2 by done.
      destruct avoid; simpl.
      * by exists [].
      * by exists [(node_of block, node_of block, kind)].
    + rewrite !bool_decide_eq_false_2; [|done|by intros [= ?]].
      rewrite andb_false_r.
      by exists [(node_of block, node_of found, kind)].
  - apply StaticFacts.find_block_by_pc_Raise in Hfind as [_ Hnone].
    by exists [].
Qed.

(** The three cases of [_get_opcode_length]. *)
Lemma opcode_length_cases opcode :
  (PyStr.startswith opcode "PUSH" = false → _get_opcode_length opcode = 1)
  ∧ (PyStr.startswith opcode "PUSH" = true →
     PyStr.int (PyStr.from 4 opcode) = None →
     _get_opcode_length opcode = 1)
  ∧ (∀ n, PyStr.startswith opcode "PUSH" = true →
          PyStr.int (PyStr.from 4 opcode) = Some n →
          _get_opcode_length opcode = 1 + n).
Proof.
  unfold _get_opcode_length. split_and!.
  - by intros ->.
  - by intros -> ->.
  - by intros n -> ->.
Qed.

Lemma get_edge_type_JUMP : _get_edge_type "JUMP" = "JUMP"%string.
Proof. vm_compute. reflexivity. Qed.

Lemma get_edge_type_SEQUENCE : _get_edge_type "SEQUENCE" = "SEQUENCE"%string.
Proof. vm_compute. reflexivity. Qed.

End RuleFacts.

(** X7.  For a block that ends in JUMP the resulting graph is the graph
    with one more edge, of kind JUMP and with the next edge id, from the
    block to the block holding the target the analyzer resolved, when it
    resolved one and a block of the contract holds it, unless that block
    is the source block itself; in every other case, and when the target
    is unknown, the graph is returned as it was. *)
Theorem jump_block_successor
  (sva_instructions : list SVA.Instruction) (contract_bytecode : string)
  (contract_blocks : list Block) (block : Block) (pc : string) (pc_int : Z)
  (target : option Z) (cfg : CFG) :
  NoDup (BasicBlock.key <$> contract_blocks) →
  block ∈ contract_blocks →
  last (BasicBlock.instructions block) = Some (pc, "JUMP"%string) →
  PyStr.int16 pc = Some pc_int →
  SVA.get_jump_target sva_instructions pc_int = Ok target →
  ∃ added,
    Static.connect_block sva_instructions contract_blocks
      (Static.create_nodes contract_bytecode contract_blocks).2 cfg block
    = Ok (appended cfg added)
    ∧ match target with
      | Some t =>
          successor_edges contract_blocks block true (PyStr.to_hex t)
            "JUMP" added
      | None => added = []
      end.
Proof.
  intros Hnd Hblock Hlast Hpc Htarget.
  unfold Static.connect_block.
  rewrite (StaticFacts.node_map_lookup _ _ _ Hnd Hblock), Hlast, Hpc.
  change (String.eqb "JUMP" "JUMPI") with false.
  change (String.eqb "JUMP" "JUMP") with true. cbv iota.
  unfold mbind, result_bind. rewrite Htarget.
  destruct target as [t|];
    [|exists []; by rewrite StaticFacts.appended_nil].
  rewrite RuleFacts.get_edge_type_JUMP.
  by apply RuleFacts.connect_to_pc_edges.
Qed.

Lemma jump_block_successor_witness :
  Static.connect_block GapScenario.listing GapScenario.blocks
    PruneScenario.created.2 PruneScenario.created.1 PruneScenario.jump_block
  = Ok (appended PruneScenario.created.1
          [(node_of PruneScenario.jump_block,
            node_of PruneScenario.dest_block, "JUMP"%string)]).
Proof.
  destruct (jump_block_successor GapScenario.listing GapScenario.bytecode
              GapScenario.blocks PruneScenario.jump_block "0x3" 3 (Some 4)
              PruneScenario.created.1)
    as (added & Hrun & Hadded).
  - decide_by_eval.
  - decide_by_eval.
  - reflexivity.
  - reflexivity.
  - vm_compute. reflexivity.
  - unfold successor_edges in Hadded.
    assert (Static._find_block_by_pc GapScenario.blocks
              (BasicBlock.address PruneScenario.jump_block) (PyStr.to_hex 4)
            = Ok PruneScenario.dest_block) as Hfind
      by (vm_compute; reflexivity).
    rewrite Hfind in Hadded. destruct Hadded as [-> _]. exact Hrun.
Defined.

(** X8.  A block without instructions, and a block that ends in STOP,
    RETURN, REVERT, INVALID or SELFDESTRUCT, gets no outgoing edge.  The
    pc of the last instruction is read as a hexadecimal number before
    the opcode is looked at: a pc that is not one makes the builder
    raise ValueError whatever the opcode is. *)
Theorem halting_block_has_no_successor
  (sva_instructions : list SVA.Instruction) (contract_blocks : list Block)
  (node_map : gmap (string * string) BlockNode) (cfg : CFG) (block : Block) :
  is_Some (node_map !! BasicBlock.key block) →
  (BasicBlock.instructions block = [] →
   Static.connect_block sva_instructions contract_blocks node_map cfg block
   = Ok cfg)
  ∧ (∀ pc op pc_int,
       last (BasicBlock.instructions block) = Some (pc, op) →
       PyStr.int16 pc = Some pc_int →
       op ∈ ["STOP"; "RETURN"; "REVERT"; "INVALID"; "SELFDESTRUCT"]%string →
       Static.connect_block sva_instructions contract_blocks node_map cfg
         block = Ok cfg)
  ∧ (∀ pc op,
       last (BasicBlock.instructions block) = Some (pc, op) →
       PyStr.int16 pc = None →
       Static.connect_block sva_instructions contract_blocks node_map cfg
         block = Raise ValueError).
Proof.
  intros [cur Hcur]. unfold Static.connect_block. rewrite Hcur.
  split_and!.
  - by intros ->.
  - intros pc op pc_int -> -> Hop.
    rewrite !elem_of_cons, elem_of_nil in Hop.
    destruct Hop as [-> | [-> | [-> | [-> | [-> | []]]]]]; reflexivity.
  - by intros pc op -> ->.
Qed.

Lemma halting_block_has_no_successor_witness :
  Static.connect_block GapScenario.listing GapScenario.blocks
    PruneScenario.created.2 PruneScenario.created.1
    (GapScenario.block "0x0" "0x0" "STOP" [("0x0", "STOP")]%string)
  = Ok PruneScenario.created.1.
Proof.
  apply (halting_block_has_no_successor GapScenario.listing
           GapScenario.blocks PruneScenario.created.2
           PruneScenario.created.1
           (GapScenario.block "0x0" "0x0" "STOP" [("0x0", "STOP")]%string))
    with (pc := "0x0"%string) (op := "STOP"%string) (pc_int := 0).
  - decide_by_eval.
  - reflexivity.
  - reflexivity.
  - decide_by_eval.
Defined.

(** X9.  For a block that ends in CALL, CALLCODE, DELEGATECALL,
    STATICCALL, CREATE or CREATE2 the resulting graph is the graph with
    one more edge, with the next edge id, from the block to the block
    holding the pc after that instruction, when a block of the contract
    holds it, and the same graph otherwise.  The kind of the edge is
    CALL for CALL and CALLCODE, DELEGATECALL and STATICCALL for these
    two, CREATE for CREATE and CREATE2. *)
Theorem call_block_falls_through
  (sva_instructions : list SVA.Instruction) (contract_bytecode : string)
  (contract_blocks : list Block) (block : Block) (pc : string) (pc_int : Z)
  (op kind : string) (cfg : CFG) :
  NoDup (BasicBlock.key <$> contract_blocks) →
  block ∈ contract_blocks →
  last (BasicBlock.instructions block) = Some (pc, op) →
  PyStr.int16 pc = Some pc_int →
  (op, kind) ∈ [("CALL", "CALL"); ("CALLCODE", "CALL");
                ("DELEGATECALL", "DELEGATECALL");
                ("STATICCALL", "STATICCALL");
                ("CREATE", "CREATE"); ("CREATE2", "CREATE")]%string →
  ∃ added,
    Static.connect_block sva_instructions contract_blocks
      (Static.create_nodes contract_bytecode contract_blocks).2 cfg block
    = Ok (appended cfg added)
    ∧ successor_edges contract_blocks block false (PyStr.to_hex (pc_int + 1))
        kind added.
Proof.
  intros Hnd Hblock Hlast Hpc Hop.
  unfold Static.connect_block.
  rewrite (StaticFacts.node_map_lookup _ _ _ Hnd Hblock), Hlast, Hpc.
  rewrite !elem_of_cons, elem_of_nil in Hop.
  destruct Hop as [Hop | [Hop | [Hop | [Hop | [Hop | [Hop | []]]]]]];
    injection Hop as -> ->;
    match goal with
    | |- context [String.eqb ?o "JUMPI"] =>
        change (String.eqb o "JUMPI") with false;
        change (String.eqb o "JUMP") with false;
        change (name_in o ["STOP"; "RETURN"; "REVERT"; "INVALID";
                           "SELFDESTRUCT"]%string) with false;
        change (name_in o ["CALL"; "CALLCODE"; "DELEGATECALL"; "STATICCALL";
                           "CREATE"; "CREATE2"]%string) with true;
        change (Static._get_opcode_length o) with 1
    end; cbv iota;
    match goal with
    | |- context [Static._get_edge_type ?o] =>
        let k := eval vm_compute in (Static._get_edge_type o) in
        replace (Static._get_edge_type o) with k by (vm_compute; reflexivity)
    end;
    by apply RuleFacts.connect_to_pc_edges.
Qed.

Lemma call_block_falls_through_witness :
  ∃ added,
    Static.connect_block [] [CallBlockScenario.call_block;
                             CallBlockScenario.next_block]
      (Static.create_nodes "0x"
         [CallBlockScenario.call_block; CallBlockScenario.next_block]).2
      (CFGStructure.new "g") CallBlockScenario.call_block
    = Ok (appended (CFGStructure.new "g") added)
    ∧ added = [(node_of CallBlockScenario.call_block,
                node_of CallBlockScenario.next_block,
                "DELEGATECALL"%string)].
Proof.
  destruct (call_block_falls_through [] "0x"
              [CallBlockScenario.call_block; CallBlockScenario.next_block]
              CallBlockScenario.call_block "0x1" 1
              "DELEGATECALL" "DELEGATECALL" (CFGStructure.new "g"))
    as (added & Hrun & Hadded).
  - decide_by_eval.
  - decide_by_eval.
  - reflexivity.
  - reflexivity.
  - decide_by_eval.
  - exists added. split; [exact Hrun|].
    unfold successor_edges in Hadded.
    assert (Static._find_block_by_pc
              [CallBlockScenario.call_block; CallBlockScenario.next_block]
              (BasicBlock.address CallBlockScenario.call_block)
              (PyStr.to_hex (1 + 1))
            = Ok CallBlockScenario.next_block) as Hfind
      by (vm_compute; reflexivity).
    rewrite Hfind in Hadded. by destruct Hadded as [-> _].
Defined.

(** X10.  For a block whose last instruction is none of the opcodes the
    other rules name, the resulting graph is the graph with one more
    SEQUENCE edge, from the block to the block holding the pc after that
    instruction, when a block of the contract holds it, and the same
    graph otherwise.  The pc after an instruction is its pc plus its
    length: 1 + n for an opcode that starts with PUSH and whose suffix
    [int] reads as n (whatever the sign of n), 1 for a PUSH whose suffix
    [int] does not read and for every other opcode. *)
Theorem other_block_continues_in_sequence
  (sva_instructions : list SVA.Instruction) (contract_bytecode : string)
  (contract_blocks : list Block) (block : Block) (pc : string) (pc_int : Z)
  (op : string) (cfg : CFG) :
  NoDup (BasicBlock.key <$> contract_blocks) →
  block ∈ contract_blocks →
  last (BasicBlock.instructions block) = Some (pc, op) →
  PyStr.int16 pc = Some pc_int →
  op ∉ ["JUMPI"; "JUMP"; "STOP"; "RETURN"; "REVERT"; "INVALID";
        "SELFDESTRUCT"; "CALL"; "CALLCODE"; "DELEGATECALL"; "STATICCALL";
        "CREATE"; "CREATE2"]%string →
  ∃ added,
    Static.connect_block sva_instructions contract_blocks
      (Static.create_nodes contract_bytecode contract_blocks).2 cfg block
    = Ok (appended cfg added)
    ∧ successor_edges contract_blocks block false
        (PyStr.to_hex (pc_int + Static._get_opcode_length op))
        "SEQUENCE" added
    ∧ (PyStr.startswith op "PUSH" = false →
       Static._get_opcode_length op = 1)
    ∧ (PyStr.startswith op "PUSH" = true →
       PyStr.int (PyStr.from 4 op) = None →
       Static._get_opcode_length op = 1)
    ∧ (∀ n, PyStr.startswith op "PUSH" = true →
            PyStr.int (PyStr.from 4 op) = Some n →
            Static._get_opcode_length op = 1 + n).
Proof.
  intros Hnd Hblock Hlast Hpc Hop.
  rewrite !not_elem_of_cons in Hop.
  destruct Hop as (H1 & H2 & H3 & H4 & H5 & H6 & H7 & H8 & H9 & H10 & H11
                   & H12 & H13 & _).
  destruct (RuleFacts.connect_to_pc_edges contract_bytecode contract_blocks
              block false cfg
              (PyStr.to_hex (pc_int + Static._get_opcode_length op))
              "SEQUENCE" Hnd) as (added & Hrun & Hadded).
  exists added. split_and!.
  - unfold Static.connect_block.
    rewrite (StaticFacts.node_map_lookup _ _ _ Hnd Hblock), Hlast, Hpc.
    rewrite (proj2 (String.eqb_neq op "JUMPI") H1).
    rewrite (proj2 (String.eqb_neq op "JUMP") H2).
    rewrite (proj2 (RuleFacts.name_in_false op _))
      by (rewrite !not_elem_of_cons; split_and!; try done;
          apply not_elem_of_nil).
    rewrite (proj2 (RuleFacts.name_in_false op _))
      by (rewrite !not_elem_of_cons; split_and!; try done;
          apply not_elem_of_nil).
    by rewrite RuleFacts.get_edge_type_SEQUENCE.
  - done.
  - apply RuleFacts.opcode_length_cases.
  - apply RuleFacts.opcode_length_cases.
  - apply RuleFacts.opcode_length_cases.
Qed.

Lemma other_block_continues_in_sequence_witness :
  ∃ added,
    Static.connect_block GapScenario.listing GapScenario.blocks
      PruneScenario.created.2 PruneScenario.created.1
      PruneScenario.dest_block
    = Ok (appended PruneScenario.created.1 added)
    ∧ successor_edges GapScenario.blocks PruneScenario.dest_block false
        "0x6" "SEQUENCE" added.
Proof.
  destruct (other_block_continues_in_sequence GapScenario.listing
              GapScenario.bytecode GapScenario.blocks
              PruneScenario.dest_block "0x5" 5 "ADD"
              PruneScenario.created.1)
    as (added & Hrun & Hadded & _).
  - decide_by_eval.
  - decide_by_eval.
  - reflexivity.
  - reflexivity.
  - decide_by_eval.
  - exists added. split; [exact Hrun | exact Hadded].
Defined.

(** ** The static graph as a whole *)

Module BuildFacts.

Import StaticCompleteCFGBuilder.

Lemma connect_to_pc_static (blocks : list Block) (avoid : bool) (cfg : CFG)
  (node_map : gmap (string * string) BlockNode) (cur : BlockNode)
  (a p ty : string) (N : list BlockNode) (cfg' : CFG) :
  (∀ k n, node_map !! k = Some n → n ∈ N) →
  cur ∈ N → ty ∈ static_kinds →
  (ty ∈ ["JUMP"; "CONDITION_TRUE"]%string → avoid = true) →
  Forall (static_edge N) (edges cfg) →
  connect_to_pc blocks avoid cfg node_map cur a p ty = Ok cfg' →
  Forall (static_edge N) (edges cfg').
Proof.
  intros Hmap Hcur Hty Hjump Hedges. unfold connect_to_pc.
  destruct (_find_block_by_pc blocks a p) as [found|[]]; try done;
    [|by intros [= <-]].
  destruct (node_map !! BasicBlock.key found) as [node|] eqn:Hnode;
    [|by intros [= <-]].
  destruct (avoid && bool_decide (node = cur)) eqn:Hself;
    intros [= <-]; [done|].
  simpl. apply Forall_app. split; [done|].
  apply Forall_singleton. unfold static_edge. simpl. split_and!; eauto.
  intros Hkind Heq. rewrite (Hjump Hkind) in Hself. simpl in Hself.
  by apply bool_decide_eq_false in Hself.
Qed.

Lemma call_kinds op :
  name_in op ["CALL"; "CALLCODE"; "DELEGATECALL"; "STATICCALL"; "CREATE";
              "CREATE2"]%string = true →
  _get_edge_type op ∈ static_kinds
  ∧ _get_edge_type op ∉ ["JUMP"; "CONDITION_TRUE"]%string.
Proof.
  unfold name_in. rewrite bool_decide_eq_true.
  rewrite !elem_of_cons, elem_of_nil.
  intros [-> | [-> | [-> | [-> | [-> | [-> | []]]]]]];
    split; decide_by_eval.
Qed.

Lemma connect_block_static (instrs : list SVA.Instruction)
  (blocks : list Block) (node_map : gmap (string * string) BlockNode)
  (cfg : CFG) (block : Block) (N : list BlockNode) (cfg' : CFG) :
  (∀ k n, node_map !! k = Some n → n ∈ N) →
  Forall (static_edge N) (edges cfg) →
  connect_block instrs blocks node_map cfg block = Ok cfg' →
  Forall (static_edge N) (edges cfg').
Proof.
  intros Hmap Hedges. unfold connect_block.
  destruct (node_map !! BasicBlock.key block) as [cur|] eqn:Hcur; [|done].
  apply Hmap in Hcur.
  destruct (last (BasicBlock.instructions block)) as [[pc op]|];
    [|by intros [= <-]].
  destruct (PyStr.int16 pc) as [pc_int|]; [|done].
  destruct (String.eqb op "JUMPI").
  { unfold mbind, result_bind.
    destruct (connect_to_pc blocks false cfg node_map cur _ _ _)
      as [cfg1|] eqn:H1; [|done].
    apply (connect_to_pc_static _ _ _ _ _ _ _ _ N) in H1; try done;
      [|rewrite StaticFacts.get_edge_type_CONDITION_FALSE; decide_by_eval
       |rewrite StaticFacts.get_edge_type_CONDITION_FALSE;
        intros Hk; exfalso; revert Hk; decide_by_eval].
    destruct (SVA.get_jump_target instrs pc_int) as [[t|]|]; try done.
    - apply connect_to_pc_static; try done.
      rewrite StaticFacts.get_edge_type_CONDITION_TRUE. decide_by_eval.
    - by intros [= <-]. }
  destruct (String.eqb op "JUMP").
  { unfold mbind, result_bind.
    destruct (SVA.get_jump_target instrs pc_int) as [[t|]|]; try done.
    - apply connect_to_pc_static; try done.
      rewrite RuleFacts.get_edge_type_JUMP. decide_by_eval.
    - by intros [= <-]. }
  destruct (name_in op _); [by intros [= <-]|].
  destruct (name_in op _) eqn:Hcall.
  - destruct (call_kinds op Hcall) as [Hkind Hnot].
    apply connect_to_pc_static; try done.
  - apply connect_to_pc_static; try done.
    + rewrite RuleFacts.get_edge_type_SEQUENCE. decide_by_eval.
    + rewrite RuleFacts.get_edge_type_SEQUENCE.
      intros Hk. exfalso. revert Hk. decide_by_eval.
Qed.

Lemma synthesized_static instrs bytecode blocks cfg node_map :
  synthesize_edges instrs bytecode blocks = Ok (cfg, node_map) →
  nodes cfg = node_of <$> blocks
  ∧ Forall (static_edge (nodes cfg)) (edges cfg).
Proof.
  unfold synthesize_edges, mbind, result_bind.
  destruct (for_each _ _ _) as [cfg'|] eqn:Hloop; [|done].
  intros [= <- <-].
  destruct (StaticFacts.create_nodes_fold
              (CFGStructure.new
                 (String.append "static_complete_"
                    (contract_address bytecode blocks)), ∅) blocks)
    as (Hmap & Hnodes & Hedges & _).
  assert (nodes cfg' = node_of <$> blocks
          ∧ Forall (static_edge (node_of <$> blocks)) (edges cfg'))
    as [Hn He].
  { revert Hloop.
    apply (GraphFacts.for_each_invariant
             (fun c => nodes c = node_of <$> blocks
                       ∧ Forall (static_edge (node_of <$> blocks))
                           (edges c))).
    - intros s x s' [Hs1 Hs2] Hx. split.
      + apply GraphFacts.connect_block_nodes in Hx. congruence.
      + revert Hx. apply connect_block_static; [|done].
        intros k n Hk. unfold create_nodes in Hk. rewrite Hmap in Hk.
        apply fold_insert_lookup_Some in Hk as [(b & Hb & _ & <-)|Hk];
          [|cbn [snd] in Hk; by rewrite lookup_empty in Hk].
        apply list_elem_of_fmap. by exists b.
    - split; [exact Hnodes|]. unfold create_nodes. rewrite Hedges. done. }
  by rewrite Hn.
Qed.

Lemma remove_nodes_nodes_sublist cfg removed :
  nodes (foldl remove_node cfg removed) `sublist_of` nodes cfg.
Proof.
  revert cfg. induction removed as [|r removed IH]; intros cfg; simpl.
  - done.
  - etrans; [apply IH|]. simpl. apply sublist_filter.
Qed.

(** What every graph [build_static_cfg] returns satisfies. *)
Lemma built_static instrs bytecode blocks cfg :
  build_static_cfg instrs bytecode blocks = Ok cfg →
  nodes cfg `sublist_of` node_of <$> blocks
  ∧ Forall (static_edge (nodes cfg)) (edges cfg).
Proof.
  unfold build_static_cfg, mbind, result_bind.
  destruct (synthesize_edges instrs bytecode blocks)
    as [[cfg0 node_map]|] eqn:Hsyn; [|done].
  apply synthesized_static in Hsyn as [Hnodes Hedges].
  destruct (remove_unreachable_instruction_blocks _ _)
    as [st'|] eqn:Hprune; [|done].
  intros [= <-].
  apply GraphFacts.removal_loop_graph in Hprune. cbn [fst snd] in Hprune.
  rewrite Hprune. split.
  - rewrite <- Hnodes. apply remove_nodes_nodes_sublist.
  - apply Forall_forall. intros e He.
    apply PruneFacts.remove_nodes_edges in He as (He & Hs & Ht).
    rewrite Forall_forall in Hedges.
    destruct (Hedges e He) as (Hsrc & Htgt & Hkind & Hjump).
    unfold static_edge. rewrite !PruneFacts.remove_nodes_nodes. done.
Qed.

End BuildFacts.

(** X11.  Every graph the static builder returns is made of the
    contract's blocks: its nodes are nodes of blocks of the block list,
    in the order of the list, and each of its edges joins two nodes that
    are in the graph, also after pruning. *)
Theorem static_graph_is_closed
  (sva_instructions : list SVA.Instruction) (contract_bytecode : string)
  (contract_blocks : list Block) (cfg : CFG) :
  Static.build_static_cfg sva_instructions contract_bytecode contract_blocks
  = Ok cfg →
  nodes cfg `sublist_of` node_of <$> contract_blocks
  ∧ ∀ e, e ∈ edges cfg → source e ∈ nodes cfg ∧ target e ∈ nodes cfg.
Proof.
  intros Hbuild. apply BuildFacts.built_static in Hbuild as [Hn He].
  split; [done|]. intros e Hin. rewrite Forall_forall in He.
  by destruct (He e Hin) as (? & ? & _).
Qed.

Lemma static_graph_is_closed_witness :
  ∃ cfg,
    Static.build_static_cfg GapScenario.listing GapScenario.bytecode
      GapScenario.blocks = Ok cfg
    ∧ nodes cfg `sublist_of` node_of <$> GapScenario.blocks
    ∧ ∀ e, e ∈ edges cfg → source e ∈ nodes cfg ∧ target e ∈ nodes cfg.
Proof.
  destruct (is_Ok_true
              (Static.build_static_cfg GapScenario.listing
                 GapScenario.bytecode GapScenario.blocks))
    as [cfg Hrun]; [vm_compute; reflexivity|].
  exists cfg. split; [exact Hrun|].
  exact (static_graph_is_closed _ _ _ _ Hrun).
Defined.

(** X12.  No JUMP edge and no CONDITION_TRUE edge of a graph the static
    builder returns leads back to the block it leaves. *)
Theorem static_jump_edges_are_not_self_loops
  (sva_instructions : list SVA.Instruction) (contract_bytecode : string)
  (contract_blocks : list Block) (cfg : CFG) (e : Edge) :
  Static.build_static_cfg sva_instructions contract_bytecode contract_blocks
  = Ok cfg →
  e ∈ edges cfg →
  edge_type e = "JUMP"%string ∨ edge_type e = "CONDITION_TRUE"%string →
  source e ≠ target e.
Proof.
  intros Hbuild Hin Hkind.
  apply BuildFacts.built_static in Hbuild as [_ He].
  rewrite Forall_forall in He.
  destruct (He e Hin) as (_ & _ & _ & Hjump). apply Hjump.
  rewrite !elem_of_cons. tauto.
Qed.

(** X13.  The edges of a graph the static builder returns have one of
    eight kinds: CONDITION_FALSE, CONDITION_TRUE, JUMP, CALL,
    DELEGATECALL, STATICCALL, CREATE or SEQUENCE.  The other values of
    its edge-type table (JUMPI, RETURN, REVERT, DESTRUCT, TERMINATE,
    INVALID, UNKNOWN) never label an edge. *)
Theorem static_edge_kinds
  (sva_instructions : list SVA.Instruction) (contract_bytecode : string)
  (contract_blocks : list Block) (cfg : CFG) (e : Edge) :
  Static.build_static_cfg sva_instructions contract_bytecode contract_blocks
  = Ok cfg →
  e ∈ edges cfg →
  edge_type e ∈ static_kinds.
Proof.
  intros Hbuild Hin.
  apply BuildFacts.built_static in Hbuild as [_ He].
  rewrite Forall_forall in He. by destruct (He e Hin) as (_ & _ & ? & _).
Qed.

Lemma static_jump_edges_are_not_self_loops_witness :
  source JumpiScenario.taken ≠ target JumpiScenario.taken.
Proof.
  apply (static_jump_edges_are_not_self_loops JumpiScenario.listing
           JumpiScenario.bytecode JumpiScenario.blocks JumpiScenario.built
           JumpiScenario.taken).
  - vm_compute. reflexivity.
  - decide_by_eval.
  - right. reflexivity.
Defined.

Lemma static_edge_kinds_witness :
  edge_type JumpiScenario.taken ∈ static_kinds.
Proof.
  apply (static_edge_kinds JumpiScenario.listing JumpiScenario.bytecode
           JumpiScenario.blocks JumpiScenario.built JumpiScenario.taken).
  - vm_compute. reflexivity.
  - decide_by_eval.
Defined.

(** X14.  The static builder returns a graph, and raises nothing, when
    the listing has the mnemonics of the disassembler's table, the block
    list has one block per (address, start pc) and the pc of the last
    instruction of every block is a hexadecimal number. *)
Theorem static_builder_returns
  (sva_instructions : list SVA.Instruction) (contract_bytecode : string)
  (contract_blocks : list Block) :
  Forall (fun instr => SVA.well_named instr = true) sva_instructions →
  NoDup (BasicBlock.key <$> contract_blocks) →
  (∀ block pc op,
     block ∈ contract_blocks →
     last (BasicBlock.instructions block) = Some (pc, op) →
     is_Some (PyStr.int16 pc)) →
  ∃ cfg,
    Static.build_static_cfg sva_instructions contract_bytecode
      contract_blocks = Ok cfg.
Proof. apply GraphFacts.build_static_cfg_returns. Qed.

Lemma static_builder_returns_witness :
  ∃ cfg,
    Static.build_static_cfg GapScenario.listing GapScenario.bytecode
      GapScenario.blocks = Ok cfg.
Proof.
  apply (static_builder_returns GapScenario.listing GapScenario.bytecode
           GapScenario.blocks).
  - decide_by_eval.
  - decide_by_eval.
  - intros block pc op Hblock Hlast.
    assert (Forall
              (fun b => ∀ pc op,
                 last (BasicBlock.instructions b) = Some (pc, op) →
                 is_Some (PyStr.int16 pc)) GapScenario.blocks) as Hall.
    { repeat constructor; intros ? ? [= <- <-]; by eexists. }
    rewrite Forall_forall in Hall. by apply (Hall block Hblock pc op).
Defined.

(** X15.  Pruning changes nothing, neither the graph nor [node_map],
    when every node has an incoming edge, starts at pc 0, begins with
    JUMPDEST or has no instructions at all. *)
Theorem pruning_keeps_a_reachable_graph
  (cfg : CFG) (node_map : gmap (string * string) BlockNode) :
  (∀ n, n ∈ nodes cfg →
        (∃ e, e ∈ edges cfg ∧ target e = n)
        ∨ start_pc n = "0x0"%string
        ∨ instructions n = []
        ∨ (∃ pc, head (instructions n) = Some (pc, "JUMPDEST"%string))) →
  Static.remove_unreachable_instruction_blocks cfg node_map
  = Ok (cfg, node_map).
Proof.
  intros Hall. unfold Static.remove_unreachable_instruction_blocks.
  assert (filter (fun node => Static.unreachable cfg node) (nodes cfg) = [])
    as ->; [|done].
  destruct (filter _ _) as [|n l] eqn:Hfilter; [done|]. exfalso.
  assert (n ∈ filter (fun node => Static.unreachable cfg node) (nodes cfg))
    as [Hun Hn]%list_elem_of_filter by (rewrite Hfilter; left).
  apply Is_true_true in Hun.
  destruct (Hall n Hn) as [(e & He & Ht) | [Hpc | [Hnil | Hdest]]].
  - apply PruneFacts.unreachable_spec in Hun as (Hno & _). by apply (Hno e).
  - by rewrite PruneFacts.reachable_kept in Hun by (by left).
  - unfold Static.unreachable in Hun. unfold instructions in Hnil.
    rewrite Hnil in Hun. simpl in Hun. by rewrite andb_false_r in Hun.
  - by rewrite PruneFacts.reachable_kept in Hun by (by right).
Qed.

Lemma pruning_keeps_a_reachable_graph_witness :
  Static.remove_unreachable_instruction_blocks JumpiScenario.built ∅
  = Ok (JumpiScenario.built, ∅).
Proof.
  apply (pruning_keeps_a_reachable_graph JumpiScenario.built ∅).
  apply Forall_forall.
  apply Forall_cons_2;
    [|apply Forall_cons_2; [|apply Forall_cons_2; [|apply Forall_nil_2]]].
  - right. left. reflexivity.
  - left. eexists. split; [left|reflexivity].
  - right. right. right. by eexists.
Defined.

(** ** More on trace ingestion *)

Module TrackerFacts.

Import EvmInformation.

Section Tracker.

Variable to_checksum_address : string → option string.

Abbreviation ingest' := (EvmInformation.ingest to_checksum_address).

Lemma run_content t l :
  content_of <$> emitted (foldl ingest' t l)
  = (content_of <$> emitted t) ++ (content <$> l).
Proof.
  revert t. induction l as [|x l IH]; intros t; simpl.
  - by rewrite app_nil_r.
  - rewrite IH, TraceFacts.ingest_emitted, fmap_app, <- app_assoc. done.
Qed.

Lemma ingest_stays t step :
  next_address t = current_address t → stays t step →
  current_address (ingest' t step) = current_address t
  ∧ call_stack (ingest' t step) = call_stack t.
Proof.
  intros Hnext [Hcall Hhalt]. unfold EvmInformation.ingest. rewrite Hcall.
  destruct (name_in _ create_opcodes); [done|].
  destruct Hhalt as [->|Hdepth]; [done|].
  rewrite (bool_decide_eq_false_2 (1 < length (call_stack t))%nat) by lia.
  by rewrite andb_false_r.
Qed.

(** A run of opcodes that are neither calls nor halts. *)
Lemma run_plain t l :
  next_address t = current_address t →
  Forall (fun step =>
            name_in (PyStr.upper (log_op step)) call_opcodes = false
            ∧ name_in (PyStr.upper (log_op step)) halt_opcodes = false) l →
  current_address (foldl ingest' t l) = current_address t
  ∧ call_stack (foldl ingest' t l) = call_stack t
  ∧ emitted (foldl ingest' t l)
    = emitted t ++ (labelled (current_address t) <$> l).
Proof.
  intros Hnext Hl. revert t Hnext.
  induction Hl as [|x l [Hcall Hhalt] _ IH]; intros t Hnext; simpl.
  - by rewrite app_nil_r.
  - destruct (ingest_stays t x Hnext) as [Hcur Hstack];
      [split; [done|by left]|].
    destruct (IH (ingest' t x) (TraceFacts.ingest_next _ t x))
      as (-> & -> & ->).
    rewrite Hcur, Hstack, TraceFacts.ingest_emitted, <- app_assoc. done.
Qed.

End Tracker.

End TrackerFacts.

(** X16.  The formatter emits exactly one step per raw record, in the
    order of the records: the pc as a hexadecimal string, the opcode in
    upper case and the stack normalized.  Only the address label depends
    on what came before. *)
Theorem one_step_per_record
  (to_checksum_address : string → option string) (tx_hash tx_to : string)
  (struct_logs : list EvmInformation.StructLog) :
  (fun e => (EvmInformation.pc e, EvmInformation.opcode e,
             EvmInformation.stack e))
    <$> EvmInformation.steps
          (EvmInformation.get_standardized_trace to_checksum_address
             tx_hash tx_to struct_logs)
  = (fun r => (PyStr.to_hex (EvmInformation.log_pc r),
               PyStr.upper (EvmInformation.log_op r),
               EvmInformation._normalize_stack (EvmInformation.log_stack r)))
      <$> struct_logs.
Proof.
  unfold EvmInformation.get_standardized_trace. simpl.
  exact (TrackerFacts.run_content to_checksum_address
           (EvmInformation.start to_checksum_address tx_to) struct_logs).
Qed.

(** X17.  A step whose opcode is not in the CALL family, and is either
    not a halting opcode or is met with at most one address on the call
    stack, leaves the current address and the call stack as they are.
    This covers CREATE and CREATE2, whose new contract is never
    entered, and the STOP or RETURN that ends the outermost frame. *)
Theorem other_opcodes_keep_the_address
  (to_checksum_address : string → option string) (tx_to : string)
  (earlier : list EvmInformation.StructLog)
  (step : EvmInformation.StructLog) :
  let before := foldl (EvmInformation.ingest to_checksum_address)
                  (EvmInformation.start to_checksum_address tx_to) earlier in
  let after := EvmInformation.ingest to_checksum_address before step in
  name_in (PyStr.upper (EvmInformation.log_op step))
    EvmInformation.call_opcodes = false →
  name_in (PyStr.upper (EvmInformation.log_op step))
    EvmInformation.halt_opcodes = false
  ∨ (length (EvmInformation.call_stack before) ≤ 1)%nat →
  EvmInformation.current_address after
  = EvmInformation.current_address before
  ∧ EvmInformation.call_stack after = EvmInformation.call_stack before.
Proof.
  intros before after Hcall Hhalt.
  apply TrackerFacts.ingest_stays; [|by split].
  by apply TraceFacts.run_next.
Qed.

Lemma other_opcodes_keep_the_address_witness :
  let before := foldl (EvmInformation.ingest CallScenario.hex_address)
                  (EvmInformation.start CallScenario.hex_address
                     CallScenario.caller)
                  (take 2 CallScenario.call_with_address) in
  let after := EvmInformation.ingest CallScenario.hex_address before
                 (CallScenario.raw 0 "create2" []) in
  EvmInformation.current_address after = CallScenario.callee
  ∧ EvmInformation.call_stack after
    = [CallScenario.caller; CallScenario.caller].
Proof.
  apply (other_opcodes_keep_the_address CallScenario.hex_address
           CallScenario.caller (take 2 CallScenario.call_with_address)
           (CallScenario.raw 0 "create2" [])).
  - reflexivity.
  - left. reflexivity.
Defined.

Module ReturnFacts.

Import EvmInformation.

Lemma halt_is_no_call op :
  name_in op halt_opcodes = true →
  name_in op call_opcodes = false ∧ name_in op create_opcodes = false.
Proof.
  unfold name_in, halt_opcodes. rewrite bool_decide_eq_true.
  rewrite !elem_of_cons, elem_of_nil.
  by intros [-> | [-> | [-> | [-> | [-> | []]]]]].
Qed.

Lemma ingest_call f t step rest item top :
  name_in (PyStr.upper (log_op step)) call_opcodes = true →
  log_stack step = rest ++ [item; top] →
  _normalize_address f item ≠ ""%string →
  current_address (ingest f t step) = _normalize_address f item
  ∧ call_stack (ingest f t step) = call_stack t ++ [current_address t].
Proof.
  intros Hcall Hstack Hitem. unfold ingest.
  rewrite Hcall, Hstack, TraceFacts.second_from_top_snoc.
  rewrite decide_True by (rewrite length_app; simpl; lia).
  apply String.eqb_neq in Hitem. by rewrite Hitem.
Qed.

Lemma ingest_halt f t step :
  name_in (PyStr.upper (log_op step)) halt_opcodes = true →
  (∀ stack caller,
     call_stack t = stack ++ [caller] → stack ≠ [] →
     current_address (ingest f t step) = caller
     ∧ call_stack (ingest f t step) = stack)
  ∧ ((length (call_stack t) ≤ 1)%nat →
     next_address t = current_address t →
     current_address (ingest f t step) = current_address t
     ∧ call_stack (ingest f t step) = call_stack t).
Proof.
  intros Hhalt. destruct (halt_is_no_call _ Hhalt) as [Hcall Hcreate].
  split.
  - intros stack caller Hstack Hne. unfold ingest.
    rewrite Hcall, Hcreate, Hhalt, Hstack.
    rewrite bool_decide_eq_true_2
      by (rewrite length_app; simpl; destruct stack; [done|simpl; lia]).
    simpl. by rewrite last_snoc, removelast_last.
  - intros Hdepth Hnext. apply TrackerFacts.ingest_stays; [done|].
    split; [done|by right].
Qed.

End ReturnFacts.

(** X18.  A call and the return from it cancel out.  Take a CALL-family
    step whose second-from-top stack item normalizes to an address, then
    steps that neither call nor halt, then a halting step.  Those steps
    are labelled with the callee; after the halting step the current
    address and the call stack are what they were before the call.
    When the call stack was empty before the call (the transaction had
    no destination address), the halting step pops nothing and the
    callee stays the current address. *)
Theorem return_restores_the_caller
  (to_checksum_address : string → option string) (tx_to : string)
  (earlier : list EvmInformation.StructLog)
  (call : EvmInformation.StructLog) (inside : list EvmInformation.StructLog)
  (halt : EvmInformation.StructLog) (rest : list string) (item top : string) :
  let before := foldl (EvmInformation.ingest to_checksum_address)
                  (EvmInformation.start to_checksum_address tx_to) earlier in
  let callee := EvmInformation._normalize_address to_checksum_address item in
  let after := foldl (EvmInformation.ingest to_checksum_address) before
                 (call :: inside ++ [halt]) in
  name_in (PyStr.upper (EvmInformation.log_op call))
    EvmInformation.call_opcodes = true →
  EvmInformation.log_stack call = rest ++ [item; top] →
  callee ≠ ""%string →
  Forall (fun step =>
            name_in (PyStr.upper (EvmInformation.log_op step))
              EvmInformation.call_opcodes = false
            ∧ name_in (PyStr.upper (EvmInformation.log_op step))
                EvmInformation.halt_opcodes = false) inside →
  name_in (PyStr.upper (EvmInformation.log_op halt))
    EvmInformation.halt_opcodes = true →
  EvmInformation.emitted after
  = EvmInformation.emitted before
    ++ labelled (EvmInformation.current_address before) call
       :: (labelled callee <$> inside ++ [halt])
  ∧ (EvmInformation.call_stack before ≠ [] →
     EvmInformation.current_address after
     = EvmInformation.current_address before
     ∧ EvmInformation.call_stack after = EvmInformation.call_stack before)
  ∧ (EvmInformation.call_stack before = [] →
     EvmInformation.current_address after = callee
     ∧ EvmInformation.call_stack after
       = [EvmInformation.current_address before]).
Proof.
  intros before callee after Hcall Hstack Hcallee Hinside Hhalt.
  set (ingest := EvmInformation.ingest to_checksum_address) in *.
  set (entered := ingest before call).
  destruct (ReturnFacts.ingest_call to_checksum_address before call rest
              item top Hcall Hstack Hcallee) as [Hcur Hcs].
  fold ingest entered callee in Hcur, Hcs.
  destruct (TrackerFacts.run_plain to_checksum_address entered inside)
    as (Hcur' & Hcs' & Hem');
    [apply TraceFacts.ingest_next | done |].
  fold ingest in Hcur', Hcs', Hem'.
  set (inner := foldl ingest entered inside) in *.
  assert (after = ingest inner halt) as ->.
  { unfold after, inner, entered. simpl. by rewrite foldl_snoc. }
  destruct (ReturnFacts.ingest_halt to_checksum_address inner halt Hhalt)
    as [Hpop Hstay].
  fold ingest in Hpop, Hstay.
  split_and!.
  - unfold ingest at 1. rewrite TraceFacts.ingest_emitted.
    rewrite Hem', Hcur'. unfold entered, ingest at 1.
    rewrite TraceFacts.ingest_emitted. fold ingest entered. rewrite Hcur.
    rewrite fmap_app. simpl. rewrite <- !app_assoc. done.
  - intros Hne. apply Hpop; [|done]. by rewrite Hcs', Hcs.
  - intros Hnil. rewrite Hnil in Hcs. simpl in Hcs.
    destruct Hstay as [-> ->].
    + rewrite Hcs', Hcs. simpl. lia.
    + unfold inner. apply TraceFacts.run_next. apply TraceFacts.ingest_next.
    + by rewrite Hcur', Hcur, Hcs', Hcs.
Qed.

Lemma return_restores_the_caller_witness :
  let run := foldl (EvmInformation.ingest CallScenario.hex_address)
               (EvmInformation.start CallScenario.hex_address
                  CallScenario.caller) in
  EvmInformation.current_address (run CallScenario.call_and_return)
  = EvmInformation.current_address (run (take 1 CallScenario.call_and_return))
  ∧ EvmInformation.call_stack (run CallScenario.call_and_return)
    = EvmInformation.call_stack (run (take 1 CallScenario.call_and_return)).
Proof.
  pose proof (return_restores_the_caller CallScenario.hex_address
                CallScenario.caller (take 1 CallScenario.call_and_return)
                (CallScenario.raw 1 "CALL"
                   ["0x0"; CallScenario.callee; "0xffff"]%string)
                [CallScenario.raw 0 "PUSH1" []]
                (CallScenario.raw 2 "RETURN" ["0x0"; "0x0"]%string)
                ["0x0"%string] CallScenario.callee "0xffff"%string
                eq_refl eq_refl) as Hback.
  destruct Hback as (_ & Hback & _).
  - vm_compute. discriminate.
  - repeat constructor.
  - reflexivity.
  - apply Hback. vm_compute. discriminate.
Defined.

(** ** Stack normalization *)

Module NormalizeFacts.

Import EvmInformation.

Lemma prefixed_is_kept item :
  PyStr.startswith item "0x" = true → _normalize_stack [item] = [item].
Proof.
  intros Hitem. unfold _normalize_stack. cbn [map]. rewrite Hitem.
  destruct item; [discriminate Hitem|reflexivity].
Qed.

Lemma normalized_item_is_prefixed item :
  Forall (fun out => PyStr.startswith out "0x" = true)
    (_normalize_stack [item]).
Proof.
  unfold _normalize_stack. cbn [map]. apply Forall_singleton.
  destruct (String.eqb item "") eqn:Hempty; [reflexivity|].
  destruct (PyStr.startswith item "0x") eqn:Hprefix; [exact Hprefix|].
  unfold PyStr.startswith, String.append. cbn [String.prefix].
  destruct (ascii_dec "0" "0"); [|done].
  destruct (ascii_dec "x" "x"); [|done].
  by destruct item.
Qed.

End NormalizeFacts.

(** X19.  [_normalize_stack] works item by item and keeps every item at
    its place: the result has the length of the raw stack, an item that
    starts with [0x] is returned as it is (whatever its length and
    whatever the other items are), any other item, the empty one
    included, gets [0x] in front, so every item of the result starts
    with [0x], and normalizing twice is normalizing once. *)
Theorem normalize_stack_prefixes_items (raw_stack : list string) :
  length (EvmInformation._normalize_stack raw_stack) = length raw_stack
  ∧ (∀ i item,
       raw_stack !! i = Some item →
       PyStr.startswith item "0x" = true →
       EvmInformation._normalize_stack raw_stack !! i = Some item)
  ∧ (∀ i item,
       raw_stack !! i = Some item →
       PyStr.startswith item "0x" = false →
       EvmInformation._normalize_stack raw_stack !! i
       = Some (String.append "0x" item))
  ∧ Forall (fun item => PyStr.startswith item "0x" = true)
      (EvmInformation._normalize_stack raw_stack)
  ∧ (Forall (fun item => PyStr.startswith item "0x" = true) raw_stack →
     EvmInformation._normalize_stack raw_stack = raw_stack)
  ∧ EvmInformation._normalize_stack
      (EvmInformation._normalize_stack raw_stack)
    = EvmInformation._normalize_stack raw_stack.
Proof.
  assert (∀ l, Forall (fun item => PyStr.startswith item "0x" = true) l →
               EvmInformation._normalize_stack l = l) as Hkept.
  { induction 1 as [|item l Hitem _ IH]; [done|].
    change (EvmInformation._normalize_stack (item :: l))
      with (EvmInformation._normalize_stack [item]
            ++ EvmInformation._normalize_stack l).
    by rewrite NormalizeFacts.prefixed_is_kept, IH. }
  assert (Forall (fun item => PyStr.startswith item "0x" = true)
            (EvmInformation._normalize_stack raw_stack)) as Hprefixed.
  { induction raw_stack as [|item l IH]; [constructor|].
    change (EvmInformation._normalize_stack (item :: l))
      with (EvmInformation._normalize_stack [item]
            ++ EvmInformation._normalize_stack l).
    apply Forall_app. split; [|exact IH].
    apply NormalizeFacts.normalized_item_is_prefixed. }
  assert (∀ l i item,
            l !! i = Some item →
            EvmInformation._normalize_stack l !! i
            = Some (if PyStr.startswith item "0x" then item
                    else String.append "0x" item)) as Hat.
  { induction l as [|x l IH]; intros [|i] item Hi; try done.
    - injection Hi as ->. unfold EvmInformation._normalize_stack.
      cbn [map lookup list_lookup]. f_equal.
      destruct (String.eqb item "") eqn:Hempty; [|done].
      apply String.eqb_eq in Hempty as ->. reflexivity.
    - exact (IH i item Hi). }
  split_and!.
  - unfold EvmInformation._normalize_stack. by rewrite length_map.
  - intros i item Hi Hitem. by rewrite (Hat _ _ _ Hi), Hitem.
  - intros i item Hi Hitem. by rewrite (Hat _ _ _ Hi), Hitem.
  - exact Hprefixed.
  - exact (Hkept raw_stack).
  - by apply Hkept.
Qed.

Lemma normalize_stack_prefixes_items_witness :
  EvmInformation._normalize_stack ["ff"; "0x00ff"; ""]%string !! 1%nat
  = Some "0x00ff"%string
  ∧ EvmInformation._normalize_stack ["0x1"; "0x00ff"]%string
    = ["0x1"; "0x00ff"]%string.
Proof.
  split.
  - destruct (normalize_stack_prefixes_items ["ff"; "0x00ff"; ""]%string)
      as (_ & Hprefixed & _).
    apply Hprefixed; reflexivity.
  - destruct (normalize_stack_prefixes_items ["0x1"; "0x00ff"]%string)
      as (_ & _ & _ & _ & Hkept & _).
    apply Hkept. repeat constructor.
Defined.

(** ** The names main.py derives from hashes and addresses *)

Module StripFacts.

Lemma lstrip_length chars s :
  (String.length (PyStr.lstrip chars s) ≤ String.length s)%nat.
Proof.
  induction s as [|c s IH]; simpl; [lia|].
  destruct (bool_decide (c ∈ chars)); simpl; lia.
Qed.

Lemma lstrip_head chars s c rest :
  PyStr.lstrip chars s = String c rest → c ∉ chars.
Proof.
  induction s as [|c' s IH]; simpl; [done|].
  destruct (bool_decide (c' ∈ chars)) eqn:Hc; [exact IH|].
  intros [= -> ->]. by apply bool_decide_eq_false in Hc.
Qed.

Lemma lstrip_fixed chars s :
  PyStr.lstrip chars s = s ↔
  match s with EmptyString => True | String c _ => c ∉ chars end.
Proof.
  destruct s as [|c s]; [done|]. split.
  - apply lstrip_head.
  - intros Hc. simpl. by rewrite bool_decide_eq_false_2.
Qed.

End StripFacts.

(** X20.  The result directory is named by [tx_hash.lstrip('0x')], which
    strips every leading [0] and [x] character, not the prefix [0x]:
    the name never starts with [0] or [x]; for a hash [0x<digits>] it
    is [<digits>] exactly when the first digit is not [0] (and not
    [x]); and a leading zero digit is lost, so the hashes [0x0<digits>]
    and [0x<digits>] share a directory. *)
Theorem result_directory_name_strips_zeros (digits : string) :
  let clean s := match s with
                 | EmptyString => True
                 | String c _ => c ≠ "0"%char ∧ c ≠ "x"%char
                 end in
  clean (Main.tx_dir_name (String "0" (String "x" digits)))
  ∧ (Main.tx_dir_name (String "0" (String "x" digits)) = digits
     ↔ clean digits)
  ∧ Main.tx_dir_name (String "0" (String "x" (String "0" digits)))
    = Main.tx_dir_name (String "0" (String "x" digits))
  ∧ (String.length (Main.short_addr (String "0" (String "x" digits))) ≤ 8)%nat.
Proof.
  intros clean.
  assert (∀ s, clean s ↔ match s with
                         | EmptyString => True
                         | String c _ => c ∉ ["0"%char; "x"%char]
                         end) as Hclean.
  { intros [|c s]; [done|]. simpl.
    rewrite !not_elem_of_cons, elem_of_nil. tauto. }
  assert (∀ s, Main.tx_dir_name (String "0" (String "x" s))
               = PyStr.lstrip ["0"%char; "x"%char] s) as Hprefix.
  { intros s. unfold Main.tx_dir_name. cbn [PyStr.lstrip].
    rewrite !bool_decide_eq_true_2;
      [done| rewrite !elem_of_cons; auto | rewrite !elem_of_cons; auto]. }
  split_and!.
  - rewrite Hprefix, Hclean.
    destruct (PyStr.lstrip _ digits) as [|c rest] eqn:Hstrip; [done|].
    by apply StripFacts.lstrip_head in Hstrip.
  - rewrite Hprefix, Hclean. apply StripFacts.lstrip_fixed.
  - rewrite !Hprefix. cbn [PyStr.lstrip].
    rewrite bool_decide_eq_true_2; [done|]. rewrite !elem_of_cons; auto.
  - unfold Main.short_addr.
    generalize (PyStr.lstrip ["0"%char; "x"%char]
                  (String "0" (String "x" digits))).
    intros s. do 8 (destruct s as [|? s]; [vm_compute; lia|]).
    destruct s; vm_compute; lia.
Qed.

(** ** The addresses a trace mentions *)

Module AddressFacts.

Import EvmInformation.

Lemma second_from_top_inv (raw_stack : list string) item :
  (2 ≤ length raw_stack)%nat →
  second_from_top raw_stack = Some item →
  ∃ rest top, raw_stack = rest ++ [item; top].
Proof.
  intros Hlen Hitem.
  destruct raw_stack as [|top rest _] using rev_ind; [simpl in Hlen; lia|].
  destruct rest as [|item' rest _] using rev_ind;
    [rewrite length_app in Hlen; simpl in Hlen; lia|].
  exists rest, top. rewrite <- app_assoc. simpl.
  rewrite <- app_assoc in Hitem. simpl in Hitem.
  rewrite TraceFacts.second_from_top_snoc in Hitem. by injection Hitem as ->.
Qed.

Section Known.

Variable to_checksum_address : string → option string.
Variable K : string → Prop.

Lemma ingest_known t step :
  (∀ rest item top,
     name_in (PyStr.upper (log_op step)) call_opcodes = true →
     log_stack step = rest ++ [item; top] →
     K (_normalize_address to_checksum_address item)) →
  K (current_address t) ∧ K (next_address t) ∧ Forall K (call_stack t)
  ∧ Forall (fun e => K (address e)) (emitted t) →
  let t' := ingest to_checksum_address t step in
  K (current_address t') ∧ K (next_address t') ∧ Forall K (call_stack t')
  ∧ Forall (fun e => K (address e)) (emitted t').
Proof.
  intros Hcall (Hcur & Hnext & Hstack & Hemitted) t'.
  assert (Forall (fun e => K (address e)) (emitted t')) as Hemitted'.
  { unfold t'. rewrite TraceFacts.ingest_emitted.
    apply Forall_app. split; [done|]. by apply Forall_singleton. }
  assert (next_address t' = current_address t') as Hsame
    by apply TraceFacts.ingest_next.
  rewrite Hsame.
  cut (K (current_address t') ∧ Forall K (call_stack t')); [tauto|].
  unfold t', ingest.
  destruct (name_in (PyStr.upper (log_op step)) call_opcodes) eqn:Hop.
  - destruct (decide (2 ≤ length (log_stack step))%nat) as [Hlen|]; [|done].
    destruct (second_from_top (log_stack step)) as [item|] eqn:Hitem;
      [|done].
    destruct (second_from_top_inv _ _ Hlen Hitem) as (rest & top & Hraw).
    destruct (String.eqb _ _); [done|]. simpl. split.
    + by eapply Hcall.
    + apply Forall_app. split; [done|]. by apply Forall_singleton.
  - destruct (name_in _ create_opcodes); [done|].
    destruct (name_in _ halt_opcodes && _); [|done].
    destruct (last (call_stack t)) as [caller|] eqn:Hlast; [|done].
    apply last_Some in Hlast as [stack Hlast]. rewrite Hlast in Hstack |- *.
    rewrite removelast_last. simpl.
    apply Forall_app in Hstack as [Hstack Hcaller].
    split; [|done]. exact (proj1 (Forall_singleton _ _) Hcaller).
Qed.

Lemma run_known l : ∀ t,
  (∀ step rest item top,
     step ∈ l →
     name_in (PyStr.upper (log_op step)) call_opcodes = true →
     log_stack step = rest ++ [item; top] →
     K (_normalize_address to_checksum_address item)) →
  K (current_address t) ∧ K (next_address t) ∧ Forall K (call_stack t)
  ∧ Forall (fun e => K (address e)) (emitted t) →
  Forall (fun e => K (address e))
    (emitted (foldl (ingest to_checksum_address) t l)).
Proof.
  induction l as [|step l IH]; intros t Hcall Ht; simpl.
  - tauto.
  - apply IH.
    + intros step' rest item top Hin. apply Hcall. by right.
    + apply ingest_known; [|done].
      intros rest item top. apply Hcall. by left.
Qed.

End Known.

Lemma normalized_is_lower_checksum f a :
  _normalize_address f a ≠ ""%string →
  ∃ checksum, f a = Some checksum
              ∧ _normalize_address f a = PyStr.lower checksum.
Proof.
  unfold _normalize_address. destruct (String.eqb a ""); [done|].
  destruct (f a) as [checksum|]; [|done]. intros _. by exists checksum.
Qed.

End AddressFacts.

(** X21.  Every contract address [extract_contracts_from_trace] finds in
    a trace made by [get_standardized_trace] is non-empty and is the
    lower-cased checksum form of the transaction's destination or of the
    second-from-top stack item of a CALL-family step of the raw trace:
    created contracts and anything else never appear. *)
Theorem extracted_contracts_are_call_destinations
  (to_checksum_address : string → option string) (tx_hash tx_to : string)
  (struct_logs : list EvmInformation.StructLog) (contract : string) :
  contract ∈ EvmInformation.extract_contracts_from_trace
               (EvmInformation.get_standardized_trace to_checksum_address
                  tx_hash tx_to struct_logs) →
  contract ≠ ""%string
  ∧ ∃ origin checksum,
      to_checksum_address origin = Some checksum
      ∧ contract = PyStr.lower checksum
      ∧ (origin = tx_to
         ∨ ∃ step rest top,
             step ∈ struct_logs
             ∧ name_in (PyStr.upper (EvmInformation.log_op step))
                 EvmInformation.call_opcodes = true
             ∧ EvmInformation.log_stack step = rest ++ [origin; top]).
Proof.
  unfold EvmInformation.extract_contracts_from_trace,
    EvmInformation.get_standardized_trace. cbn [EvmInformation.steps].
  rewrite elem_of_list_to_set, list_elem_of_filter, list_elem_of_fmap.
  intros [Hne (e & -> & He)]. split; [done|].
  set (K := fun a : string =>
              ∃ origin,
                a = EvmInformation._normalize_address to_checksum_address
                      origin
                ∧ (origin = tx_to
                   ∨ ∃ step rest top,
                       step ∈ struct_logs
                       ∧ name_in (PyStr.upper (EvmInformation.log_op step))
                           EvmInformation.call_opcodes = true
                       ∧ EvmInformation.log_stack step
                         = rest ++ [origin; top])).
  assert (Forall (fun e => K (EvmInformation.address e))
            (EvmInformation.emitted
               (foldl (EvmInformation.ingest to_checksum_address)
                  (EvmInformation.start to_checksum_address tx_to)
                  struct_logs))) as Hknown.
  { apply AddressFacts.run_known.
    - intros step rest item top Hin Hcall Hstack. exists item.
      split; [done|]. right. by exists step, rest, top.
    - assert (K (EvmInformation._normalize_address to_checksum_address
                   tx_to)) as Hstart by (exists tx_to; auto).
      unfold EvmInformation.start. simpl. split_and!; try done.
      destruct (String.eqb _ _); [constructor|].
      by apply Forall_singleton. }
  rewrite Forall_forall in Hknown.
  destruct (Hknown e He) as (origin & Horigin & Hwhere).
  rewrite Horigin in Hne.
  destruct (AddressFacts.normalized_is_lower_checksum _ _ Hne)
    as (checksum & Hchecksum & Hlower).
  exists origin, checksum. split_and!; [done|congruence|done].
Qed.

Lemma extracted_contracts_are_call_destinations_witness :
  ∃ origin checksum,
    CallScenario.hex_address origin = Some checksum
    ∧ CallScenario.callee = PyStr.lower checksum
    ∧ (origin = CallScenario.caller
       ∨ ∃ step rest top,
           step ∈ CallScenario.call_and_return
           ∧ name_in (PyStr.upper (EvmInformation.log_op step))
               EvmInformation.call_opcodes = true
           ∧ EvmInformation.log_stack step = rest ++ [origin; top]).
Proof.
  apply (extracted_contracts_are_call_destinations CallScenario.hex_address
           "0x1"%string CallScenario.caller CallScenario.call_and_return
           CallScenario.callee).
  apply (bool_decide_unpack _). vm_compute. exact I.
Defined.

(** ** The dynamic builders *)

Module DynamicFacts.

Lemma walks_snoc first es e :
  walks first es → source e = walk_end first es → walks first (es ++ [e]).
Proof.
  revert first. induction es as [|e0 es IH]; intros first; simpl.
  - by intros _ ->.
  - intros [H0 Hw] He. split; [done|]. by apply IH.
Qed.

Lemma walk_end_snoc first es e : walk_end first (es ++ [e]) = target e.
Proof. revert first. induction es; intros first; simpl; auto. Qed.

Lemma first_walk_well_formed tx b : well_formed (node_of b) (first_walk tx b).
Proof.
  unfold well_formed, first_walk. simpl. split_and!; try done.
  - apply NoDup_singleton.
  - intros k n. rewrite lookup_singleton_Some, list_elem_of_singleton.
    split; [by intros [<- <-]|by intros [-> <-]].
  - by left.
Qed.

Lemma enter_block_well_formed first w b ty :
  well_formed first w → well_formed first (enter_block w b ty).
Proof.
  intros (Hhead & Hnd & Hidx & Hcur & Hwalk & Hend & Hedges).
  unfold enter_block.
  destruct (processed_nodes w !! BasicBlock.key b) as [node|] eqn:Hlookup.
  - apply Hidx in Hlookup as [Hnode Hkey].
    unfold well_formed. simpl. split_and!; try done.
    + apply walks_snoc; [done|]. by rewrite Hend.
    + apply walk_end_snoc.
    + apply Forall_app. split; [done|]. by apply Forall_singleton.
  - assert (∀ n, n ∈ nodes (cfg w) → node_key n ≠ BasicBlock.key b)
      as Hfresh.
    { intros n Hn Hk.
      assert (processed_nodes w !! BasicBlock.key b = Some n) as Hsome
        by (by apply Hidx).
      congruence. }
    unfold well_formed. simpl. split_and!.
    + by destruct (nodes (cfg w)).
    + rewrite fmap_app. apply NoDup_app. split_and!; [done| |].
      * intros k Hk. simpl. rewrite list_elem_of_singleton. intros ->.
        apply list_elem_of_fmap in Hk as (n & Hkn & Hn).
        by apply (Hfresh n).
      * apply NoDup_singleton.
    + intros k n.
      rewrite lookup_insert_Some, elem_of_app, list_elem_of_singleton, Hidx.
      split.
      * intros [[<- <-]|[Hne [Hn <-]]]; (split; [auto|done]).
      * intros [[Hn| ->] <-]; [right|by left].
        split; [|done]. intros Heq. by apply (Hfresh n).
    + apply elem_of_app. right. by left.
    + apply walks_snoc; [done|]. by rewrite Hend.
    + apply walk_end_snoc.
    + apply Forall_app. split.
      * eapply Forall_impl; [exact Hedges|]. simpl. intros e [Hs Ht].
        rewrite !elem_of_app. auto.
      * apply Forall_singleton. simpl. rewrite !elem_of_app.
        split; [by left|right; by left].
Qed.

Lemma warn_well_formed first w i s :
  well_formed first w → well_formed first (warn w i s).
Proof. done. Qed.

Lemma enter_block_tx_hash w b ty :
  tx_hash (cfg (enter_block w b ty)) = tx_hash (cfg w).
Proof.
  unfold enter_block. by destruct (processed_nodes w !! BasicBlock.key b).
Qed.

Lemma enter_block_nodes (P : BlockNode → Prop) w b ty :
  P (node_of b) → Forall P (nodes (cfg w)) →
  Forall P (nodes (cfg (enter_block w b ty))).
Proof.
  intros Hb Hw. unfold enter_block.
  destruct (processed_nodes w !! BasicBlock.key b); simpl; [done|].
  apply Forall_app. split; [done|]. by apply Forall_singleton.
Qed.

Lemma enter_block_edges (P : Edge → Prop) w b ty :
  (∀ e, edge_type e = ty → P e) → Forall P (edges (cfg w)) →
  Forall P (edges (cfg (enter_block w b ty))).
Proof.
  intros Hty Hw. unfold enter_block.
  destruct (processed_nodes w !! BasicBlock.key b); simpl;
    (apply Forall_app; split; [done|]); by apply Forall_singleton, Hty.
Qed.

Lemma enter_block_count w b ty :
  length (edges (cfg (enter_block w b ty))) = S (length (edges (cfg w)))
  ∧ output (enter_block w b ty) = output w.
Proof.
  unfold enter_block.
  destruct (processed_nodes w !! BasicBlock.key b); simpl;
    rewrite length_app; simpl; split; (lia || done).
Qed.

Lemma boundaries_cons split s next rest :
  boundaries split (s :: next :: rest)
  = ((if name_in (EvmInformation.opcode s) split then 1 else 0)
     + boundaries split (next :: rest))%nat.
Proof.
  unfold boundaries.
  change (removelast (s :: next :: rest))
    with (s :: removelast (next :: rest)).
  rewrite filter_cons.
  destruct (name_in (EvmInformation.opcode s) split) eqn:Hs.
  - by rewrite decide_True.
  - by rewrite decide_False.
Qed.

(** The loop of [construct_cfg]: what it does at a step that ends a
    block depends on that step and the next one only. *)
Lemma transaction_loop_steps (P : walk → Prop) (blocks : list Block)
  (all : list StandardizedStep) :
  (∀ w s next b,
     s ∈ all → next ∈ all →
     name_in (EvmInformation.opcode s) CFGConstructor.split_opcodes = true →
     CFGConstructor._find_base_block blocks (EvmInformation.address next)
       (EvmInformation.pc next) = Ok b →
     P w → P (enter_block w b (_get_edge_type (EvmInformation.opcode s)))) →
  (∀ w i s, P w → P (warn w i s)) →
  ∀ steps idx w w',
    steps ⊆ all → P w →
    CFGConstructor.loop blocks steps idx w = Ok w' → P w'.
Proof.
  intros Henter Hwarn.
  induction steps as [|s steps IH]; intros idx w w' Hsub Hw.
  - by intros [= <-].
  - assert (s ∈ all) as Hs by (apply Hsub; by left).
    assert (steps ⊆ all) as Hrest by (intros x Hx; apply Hsub; by right).
    simpl. destruct (name_in _ _) eqn:Hsplit; [|by apply IH].
    destruct steps as [|next steps']; [by intros [= <-]|].
    assert (next ∈ all) as Hnext by (apply Hrest; by left).
    destruct (CFGConstructor._find_base_block blocks _ _) as [b|[]] eqn:Hfind;
      try done; apply IH; auto.
    by apply (Henter w s next b).
Qed.

Lemma contract_loop_steps (P : walk → Prop) (blocks : list Block)
  (all : list StandardizedStep) :
  (∀ w s next b,
     s ∈ all → next ∈ all →
     name_in (EvmInformation.opcode s) ContractCFGConnector.split_opcodes
     = true →
     ContractCFGConnector.block_of_step blocks next = Ok b →
     P w → P (enter_block w b (_get_edge_type (EvmInformation.opcode s)))) →
  (∀ w i s, P w → P (warn w i s)) →
  ∀ steps idx w w',
    steps ⊆ all → P w →
    ContractCFGConnector.loop blocks steps idx w = Ok w' → P w'.
Proof.
  intros Henter Hwarn.
  induction steps as [|s steps IH]; intros idx w w' Hsub Hw.
  - by intros [= <-].
  - assert (s ∈ all) as Hs by (apply Hsub; by left).
    assert (steps ⊆ all) as Hrest by (intros x Hx; apply Hsub; by right).
    simpl. destruct (name_in _ _) eqn:Hsplit; [|by apply IH].
    destruct steps as [|next steps']; [by intros [= <-]|].
    assert (next ∈ all) as Hnext by (apply Hrest; by left).
    destruct (ContractCFGConnector.block_of_step blocks _) as [b|[]] eqn:Hfind;
      try done; apply IH; auto.
    by apply (Henter w s next b).
Qed.

Lemma transaction_loop_count blocks steps : ∀ idx w w',
  CFGConstructor.loop blocks steps idx w = Ok w' →
  (length (edges (cfg w')) + length (output w')
   = length (edges (cfg w)) + length (output w)
     + boundaries CFGConstructor.split_opcodes steps)%nat.
Proof.
  induction steps as [|s steps IH]; intros idx w w'.
  - intros [= <-]. unfold boundaries. simpl. lia.
  - destruct steps as [|next steps'].
    + rewrite WalkFacts.transaction_loop_last. intros [= <-].
      unfold boundaries. simpl. lia.
    + rewrite WalkFacts.transaction_loop_cons, boundaries_cons.
      destruct (name_in _ _); [|intros Hrun; apply IH in Hrun; lia].
      destruct (CFGConstructor._find_base_block blocks _ _) as [b|[]];
        try done; intros Hrun; apply IH in Hrun.
      * destruct (enter_block_count w b
                    (_get_edge_type (EvmInformation.opcode s)))
          as [Hedges Hout].
        rewrite Hedges, Hout in Hrun. lia.
      * simpl in Hrun. rewrite length_app in Hrun. simpl in Hrun. lia.
Qed.

Lemma split_kind op :
  name_in op CFGConstructor.split_opcodes = true →
  _get_edge_type op ∈ dynamic_kinds.
Proof.
  unfold name_in, CFGConstructor.split_opcodes.
  rewrite bool_decide_eq_true. intros Hop.
  repeat (apply elem_of_cons in Hop as [->|Hop]; [decide_by_eval|]).
  by apply elem_of_nil in Hop.
Qed.

Lemma contract_split_kind op :
  name_in op ContractCFGConnector.split_opcodes = true →
  op ≠ "SELFdestruct"%string →
  _get_edge_type op
  ∈ ["JUMP"; "CALL"; "RETURN"; "TERMINATE"; "CREATE"]%string.
Proof.
  unfold name_in, ContractCFGConnector.split_opcodes.
  rewrite bool_decide_eq_true. intros Hop Hne.
  repeat (apply elem_of_cons in Hop as [->|Hop];
          [first [decide_by_eval | done]|]).
  by apply elem_of_nil in Hop.
Qed.

Lemma upper_has_no_lower_d s : PyStr.upper s ≠ "SELFdestruct"%string.
Proof.
  do 4 (destruct s as [|? s]; [done|]).
  destruct s as [|c s]; [done|]. simpl. intros [= _ _ _ _ Hc _].
  revert Hc. destruct c as [[] [] [] [] [] [] [] []]; vm_compute; done.
Qed.

End DynamicFacts.

Module BuilderFacts.

Lemma transaction_unfold blocks trace graph out :
  CFGConstructor.construct_cfg blocks trace = Ok (graph, out) →
  (EvmInformation.steps trace = []
   ∧ graph = CFGStructure.new (EvmInformation.tx_hash trace) ∧ out = [])
  ∨ (∃ first rest first_block w',
       EvmInformation.steps trace = first :: rest
       ∧ CFGConstructor._find_base_block blocks
           (EvmInformation.address first) (EvmInformation.pc first)
         = Ok first_block
       ∧ CFGConstructor.loop blocks (first :: rest) 0%nat
           (first_walk (EvmInformation.tx_hash trace) first_block) = Ok w'
       ∧ graph = cfg w' ∧ out = output w').
Proof.
  unfold CFGConstructor.construct_cfg.
  destruct (EvmInformation.steps trace) as [|first rest].
  - intros [= <- <-]. by left.
  - destruct (CFGConstructor._find_base_block blocks _ _)
      as [first_block|[]] eqn:Hfirst; try done.
    destruct (CFGConstructor.loop blocks _ _ _) as [w'|] eqn:Hloop; [|done].
    simpl. intros [= <- <-]. right. by exists first, rest, first_block, w'.
Qed.

Lemma contract_unfold blocks steps graph out :
  ContractCFGConnector.connect_contract_cfg blocks steps = Ok (graph, out) →
  ((blocks = [] ∨ steps = [])
   ∧ graph = CFGStructure.new
               (String.append "contract_"
                  (ContractCFGConnector.contract_address blocks))
   ∧ out = [])
  ∨ (∃ first rest first_block w',
       steps = first :: rest
       ∧ ContractCFGConnector.block_of_step blocks first = Ok first_block
       ∧ ContractCFGConnector.loop blocks (first :: rest) 0%nat
           (first_walk
              (String.append "contract_"
                 (ContractCFGConnector.contract_address blocks))
              first_block) = Ok w'
       ∧ graph = cfg w' ∧ out = output w').
Proof.
  unfold ContractCFGConnector.connect_contract_cfg.
  destruct blocks as [|b0 bs]; [intros [= <- <-]; left; auto|].
  destruct steps as [|first rest]; [intros [= <- <-]; left; auto|].
  destruct (ContractCFGConnector.block_of_step (b0 :: bs) first)
    as [first_block|[]] eqn:Hfirst; try done.
  destruct (ContractCFGConnector.loop (b0 :: bs) _ _ _) as [w'|] eqn:Hloop;
    [|done].
  simpl. intros [= <- <-]. right. by exists first, rest, first_block, w'.
Qed.

Lemma find_base_block_Ok blocks a p b :
  CFGConstructor._find_base_block blocks a p = Ok b →
  b ∈ blocks ∧ BasicBlock.key b = (a, p).
Proof.
  unfold CFGConstructor._find_base_block.
  destruct (base_block_map blocks !! (a, p)) as [b'|] eqn:Hb; [|done].
  intros [= <-]. by apply IndexFacts.base_block_map_Some.
Qed.

Lemma block_of_step_Ok blocks step b :
  ContractCFGConnector.block_of_step blocks step = Ok b →
  b ∈ blocks ∧ BasicBlock.address b = EvmInformation.address step.
Proof.
  unfold ContractCFGConnector.block_of_step,
    ContractCFGConnector._find_base_block.
  destruct (ContractCFGConnector.pc_to_start_pc blocks !! _) as [sp|];
    [|done].
  destruct (base_block_map blocks !! _) as [b'|] eqn:Hb; [|done].
  intros [= <-]. apply IndexFacts.base_block_map_Some in Hb as [Hin Hkey].
  split; [done|]. by injection Hkey.
Qed.

Lemma contract_split_kind_cases op :
  name_in op ContractCFGConnector.split_opcodes = true →
  _get_edge_type op
  ∈ ["JUMP"; "CALL"; "RETURN"; "TERMINATE"; "CREATE"; "UNKNOWN"]%string
  ∧ (_get_edge_type op = "UNKNOWN"%string → op = "SELFdestruct"%string).
Proof.
  intros Hop. destruct (decide (op = "SELFdestruct"%string)) as [->|Hne].
  - split; [decide_by_eval|done].
  - pose proof (DynamicFacts.contract_split_kind op Hop Hne) as Hkind.
    split.
    + change (_get_edge_type op
              ∈ ["JUMP"; "CALL"; "RETURN"; "TERMINATE"; "CREATE"]%string
                ++ ["UNKNOWN"%string]).
      apply elem_of_app. by left.
    + intros Hunknown. rewrite Hunknown in Hkind.
      exfalso. revert Hkind. apply (bool_decide_unpack (_ ∉ _)).
      vm_compute. exact I.
Qed.

(** The graph of the contract builder: what its nodes and the kinds of
    its edges are. *)
Lemma contract_graph_contents blocks steps graph out :
  ContractCFGConnector.connect_contract_cfg blocks steps = Ok (graph, out) →
  tx_hash graph
  = String.append "contract_" (ContractCFGConnector.contract_address blocks)
  ∧ Forall (fun n => base_block n ∈ blocks
                     ∧ ∃ step, step ∈ steps
                               ∧ address n = EvmInformation.address step)
      (nodes graph)
  ∧ Forall (fun e =>
              edge_type e
              ∈ ["JUMP"; "CALL"; "RETURN"; "TERMINATE"; "CREATE";
                 "UNKNOWN"]%string
              ∧ (edge_type e = "UNKNOWN"%string →
                 ∃ s, s ∈ steps
                      ∧ EvmInformation.opcode s = "SELFdestruct"%string))
      (edges graph).
Proof.
  intros [(_ & -> & _)|(first & rest & first_block & w' & -> & Hfirst
                        & Hloop & -> & _)]%contract_unfold.
  { split_and!; [done|constructor|constructor]. }
  revert Hloop.
  apply (DynamicFacts.contract_loop_steps
           (fun w => tx_hash (cfg w) = _ ∧ Forall _ (nodes (cfg w))
                     ∧ Forall _ (edges (cfg w))) blocks (first :: rest)).
  - intros w s next b Hs Hnext Hsplit Hfind (Hhash & Hnodes & Hedges).
    split_and!.
    + by rewrite DynamicFacts.enter_block_tx_hash.
    + apply DynamicFacts.enter_block_nodes; [|done].
      apply block_of_step_Ok in Hfind as [Hin Haddress].
      split; [done|]. by exists next.
    + apply DynamicFacts.enter_block_edges; [|done].
      intros e ->.
      destruct (contract_split_kind_cases _ Hsplit) as [Hkind Hunknown].
      split; [done|]. intros Hu. exists s. auto.
  - done.
  - done.
  - simpl. split_and!; [done| |constructor].
    apply Forall_singleton.
    apply block_of_step_Ok in Hfirst as [Hin Haddress].
    split; [done|]. exists first. split; [by left|done].
Qed.

Lemma contract_graph_walk blocks steps graph out first rest :
  blocks ≠ [] → steps = first :: rest →
  ContractCFGConnector.connect_contract_cfg blocks steps = Ok (graph, out) →
  ∃ first_block,
    ContractCFGConnector.block_of_step blocks first = Ok first_block
    ∧ head (nodes graph) = Some (node_of first_block)
    ∧ NoDup (node_key <$> nodes graph)
    ∧ walks (node_of first_block) (edges graph)
    ∧ Forall (fun e => source e ∈ nodes graph ∧ target e ∈ nodes graph)
        (edges graph).
Proof.
  intros Hblocks ->.
  intros [([|] & _)|(first' & rest' & first_block & w' & [= <- <-] & Hfirst
                     & Hloop & -> & _)]%contract_unfold; try done.
  exists first_block. split; [done|].
  assert (well_formed (node_of first_block) w')
    as (Hhead & Hnd & _ & _ & Hwalk & _ & Hedges).
  { revert Hloop.
    apply (GraphFacts.contract_loop_invariant
             (well_formed (node_of first_block))).
    - intros w b ty. apply DynamicFacts.enter_block_well_formed.
    - intros w i s. apply DynamicFacts.warn_well_formed.
    - apply DynamicFacts.first_walk_well_formed. }
  done.
Qed.

End BuilderFacts.

(** X22.  The graph of the transaction builder is one walk.  When the
    trace has a first step and [construct_cfg] returns, the first node
    is the node of the first step's block, no two nodes have the same
    [(address, start_pc)], and the edges, in the order of their
    creation, form a single walk from the first node over nodes of the
    graph: each edge starts where the one before it ended.  The graph
    carries the trace's transaction hash. *)
Theorem transaction_graph_is_one_walk (all_base_blocks : list Block)
  (trace : EvmInformation.StandardizedTrace) (first : StandardizedStep)
  (rest : list StandardizedStep) (graph : CFG) (out : list printed) :
  EvmInformation.steps trace = first :: rest →
  CFGConstructor.construct_cfg all_base_blocks trace = Ok (graph, out) →
  ∃ first_block,
    CFGConstructor._find_base_block all_base_blocks
      (EvmInformation.address first) (EvmInformation.pc first)
    = Ok first_block
    ∧ tx_hash graph = EvmInformation.tx_hash trace
    ∧ head (nodes graph) = Some (node_of first_block)
    ∧ NoDup (node_key <$> nodes graph)
    ∧ walks (node_of first_block) (edges graph)
    ∧ Forall (fun e => source e ∈ nodes graph ∧ target e ∈ nodes graph)
        (edges graph).
Proof.
  intros Hsteps.
  intros [(Hnil & _)|(first' & rest' & first_block & w' & Hsteps' & Hfirst
                      & Hloop & -> & _)]%BuilderFacts.transaction_unfold;
    [congruence|].
  rewrite Hsteps in Hsteps'. injection Hsteps' as <- <-.
  exists first_block. split; [done|].
  assert (tx_hash (cfg w') = EvmInformation.tx_hash trace) as Hhash.
  { revert Hloop.
    apply (GraphFacts.transaction_loop_invariant
             (fun w => tx_hash (cfg w) = EvmInformation.tx_hash trace)).
    - intros w b ty. by rewrite DynamicFacts.enter_block_tx_hash.
    - done.
    - done. }
  assert (well_formed (node_of first_block) w')
    as (Hhead & Hnd & _ & _ & Hwalk & _ & Hedges).
  { revert Hloop.
    apply (GraphFacts.transaction_loop_invariant
             (well_formed (node_of first_block))).
    - intros w b ty. apply DynamicFacts.enter_block_well_formed.
    - intros w i s. apply DynamicFacts.warn_well_formed.
    - apply DynamicFacts.first_walk_well_formed. }
  done.
Qed.

Lemma transaction_graph_is_one_walk_witness :
  NoDup (node_key <$> nodes DynamicScenario.transaction_graph.1)
  ∧ walks (node_of SkipScenario.entry)
      (edges DynamicScenario.transaction_graph.1).
Proof.
  destruct (transaction_graph_is_one_walk SkipScenario.blocks
              SkipScenario.trace
              (SelfdestructScenario.step "0x0" "PUSH1" [])
              (tail SkipScenario.steps)
              DynamicScenario.transaction_graph.1
              DynamicScenario.transaction_graph.2)
    as (first_block & Hfirst & _ & _ & Hnd & Hwalk & _).
  - reflexivity.
  - vm_compute. reflexivity.
  - split; [exact Hnd|].
    assert (first_block = SkipScenario.entry) as <-; [|exact Hwalk].
    assert (CFGConstructor._find_base_block SkipScenario.blocks
              SelfdestructScenario.contract "0x0" = Ok SkipScenario.entry)
      as Hentry by (vm_compute; reflexivity).
    change (CFGConstructor._find_base_block SkipScenario.blocks
              SelfdestructScenario.contract "0x0" = Ok first_block)
      in Hfirst.
    congruence.
Defined.

(** X23.  Every node of the transaction graph wraps a block of the
    builder's block list whose [(address, start_pc)] is the
    [(address, pc)] of a step of the trace: blocks no step starts in
    never become nodes. *)
Theorem transaction_nodes_are_blocks_at_steps (all_base_blocks : list Block)
  (trace : EvmInformation.StandardizedTrace) (graph : CFG)
  (out : list printed) :
  CFGConstructor.construct_cfg all_base_blocks trace = Ok (graph, out) →
  Forall (fun n =>
            base_block n ∈ all_base_blocks
            ∧ ∃ step, step ∈ EvmInformation.steps trace
                      ∧ node_key n = (EvmInformation.address step,
                                      EvmInformation.pc step))
    (nodes graph).
Proof.
  intros [(_ & -> & _)|(first & rest & first_block & w' & Hsteps & Hfirst
                        & Hloop & -> & _)]%BuilderFacts.transaction_unfold;
    [constructor|].
  rewrite Hsteps. revert Hloop.
  apply (DynamicFacts.transaction_loop_steps
           (fun w => Forall _ (nodes (cfg w))) all_base_blocks
           (first :: rest)).
  - intros w s next b Hs Hnext Hsplit Hfind Hnodes.
    apply DynamicFacts.enter_block_nodes; [|done].
    apply BuilderFacts.find_base_block_Ok in Hfind as [Hin Hkey].
    split; [done|]. by exists next.
  - done.
  - done.
  - simpl. apply Forall_singleton.
    apply BuilderFacts.find_base_block_Ok in Hfirst as [Hin Hkey].
    split; [done|]. exists first. split; [by left|done].
Qed.

Lemma transaction_nodes_are_blocks_at_steps_witness :
  Forall (fun n =>
            base_block n ∈ SkipScenario.blocks
            ∧ ∃ step, step ∈ SkipScenario.steps
                      ∧ node_key n = (EvmInformation.address step,
                                      EvmInformation.pc step))
    (nodes DynamicScenario.transaction_graph.1).
Proof.
  apply (transaction_nodes_are_blocks_at_steps SkipScenario.blocks
           SkipScenario.trace DynamicScenario.transaction_graph.1
           DynamicScenario.transaction_graph.2).
  vm_compute. reflexivity.
Defined.

(** X24.  Every edge of the transaction graph has the kind
    [_get_edge_type] gives for the opcode of a block-ending step of the
    trace, which is one of JUMP, CALL, RETURN, DESTRUCT, TERMINATE and
    CREATE: the fallback kind UNKNOWN never occurs. *)
Theorem transaction_edge_kinds (all_base_blocks : list Block)
  (trace : EvmInformation.StandardizedTrace) (graph : CFG)
  (out : list printed) :
  CFGConstructor.construct_cfg all_base_blocks trace = Ok (graph, out) →
  Forall (fun e =>
            edge_type e ∈ dynamic_kinds
            ∧ ∃ s, s ∈ EvmInformation.steps trace
                   ∧ name_in (EvmInformation.opcode s)
                       CFGConstructor.split_opcodes = true
                   ∧ edge_type e = _get_edge_type (EvmInformation.opcode s))
    (edges graph).
Proof.
  intros [(_ & -> & _)|(first & rest & first_block & w' & Hsteps & Hfirst
                        & Hloop & -> & _)]%BuilderFacts.transaction_unfold;
    [constructor|].
  rewrite Hsteps. revert Hloop.
  apply (DynamicFacts.transaction_loop_steps
           (fun w => Forall _ (edges (cfg w))) all_base_blocks
           (first :: rest)).
  - intros w s next b Hs Hnext Hsplit Hfind Hedges.
    apply DynamicFacts.enter_block_edges; [|done].
    intros e ->. split; [by apply DynamicFacts.split_kind|]. by exists s.
  - done.
  - done.
  - constructor.
Qed.

Lemma transaction_edge_kinds_witness :
  Forall (fun e => edge_type e ∈ dynamic_kinds)
    (edges DynamicScenario.transaction_graph.1).
Proof.
  eapply Forall_impl.
  - apply (transaction_edge_kinds SkipScenario.blocks SkipScenario.trace
             DynamicScenario.transaction_graph.1
             DynamicScenario.transaction_graph.2).
    vm_compute. reflexivity.
  - intros e [Hkind _]. exact Hkind.
Defined.

(** X25.  The transaction builder accounts for every block boundary of
    the trace: each step with a block-ending opcode that is not the
    last step yields either one edge or one warning, so the number of
    edges plus the number of warnings is the number of such steps. *)
Theorem transaction_edges_and_warnings (all_base_blocks : list Block)
  (trace : EvmInformation.StandardizedTrace) (graph : CFG)
  (out : list printed) :
  CFGConstructor.construct_cfg all_base_blocks trace = Ok (graph, out) →
  (length (edges graph) + length out
   = boundaries CFGConstructor.split_opcodes (EvmInformation.steps trace))%nat.
Proof.
  intros [(-> & -> & ->)|(first & rest & first_block & w' & Hsteps & Hfirst
                          & Hloop & -> & ->)]%BuilderFacts.transaction_unfold;
    [reflexivity|].
  rewrite Hsteps. apply DynamicFacts.transaction_loop_count in Hloop.
  simpl in Hloop. lia.
Qed.

Lemma transaction_edges_and_warnings_witness :
  (length (edges DynamicScenario.transaction_graph.1)
   + length DynamicScenario.transaction_graph.2 = 2)%nat.
Proof.
  apply (transaction_edges_and_warnings SkipScenario.blocks
           SkipScenario.trace DynamicScenario.transaction_graph.1
           DynamicScenario.transaction_graph.2).
  vm_compute. reflexivity.
Defined.

(** X26.  The graph of the per-contract builder is one walk too.  With a
    non-empty block list and a first step, when [connect_contract_cfg]
    returns, the first node is the node of the block holding the first
    step, no two nodes have the same [(address, start_pc)], and the
    edges, in the order of their creation, form a single walk from the
    first node over nodes of the graph. *)
Theorem contract_graph_is_one_walk (contract_blocks : list Block)
  (contract_steps : list StandardizedStep) (first : StandardizedStep)
  (rest : list StandardizedStep) (graph : CFG) (out : list printed) :
  contract_blocks ≠ [] →
  contract_steps = first :: rest →
  ContractCFGConnector.connect_contract_cfg contract_blocks contract_steps
  = Ok (graph, out) →
  ∃ first_block,
    ContractCFGConnector.block_of_step contract_blocks first = Ok first_block
    ∧ head (nodes graph) = Some (node_of first_block)
    ∧ NoDup (node_key <$> nodes graph)
    ∧ walks (node_of first_block) (edges graph)
    ∧ Forall (fun e => source e ∈ nodes graph ∧ target e ∈ nodes graph)
        (edges graph).
Proof. apply BuilderFacts.contract_graph_walk. Qed.

Lemma contract_graph_is_one_walk_witness :
  ∃ first_block,
    ContractCFGConnector.block_of_step SkipScenario.blocks
      (SelfdestructScenario.step "0x0" "PUSH1" []) = Ok first_block
    ∧ head (nodes DynamicScenario.contract_graph.1)
      = Some (node_of first_block)
    ∧ NoDup (node_key <$> nodes DynamicScenario.contract_graph.1)
    ∧ walks (node_of first_block) (edges DynamicScenario.contract_graph.1)
    ∧ Forall (fun e => source e ∈ nodes DynamicScenario.contract_graph.1
                       ∧ target e ∈ nodes DynamicScenario.contract_graph.1)
        (edges DynamicScenario.contract_graph.1).
Proof.
  apply (contract_graph_is_one_walk SkipScenario.blocks SkipScenario.steps
           (SelfdestructScenario.step "0x0" "PUSH1" [])
           (tail SkipScenario.steps)
           DynamicScenario.contract_graph.1
           DynamicScenario.contract_graph.2).
  - discriminate.
  - reflexivity.
  - vm_compute. reflexivity.
Defined.

(** X27.  What the per-contract graph is made of.  The graph is named
    [contract_<address of the first block>]; every node wraps a block
    of the builder's block list at the address of one of the steps; and
    every edge kind is JUMP, CALL, RETURN, TERMINATE, CREATE or UNKNOWN,
    never DESTRUCT, with UNKNOWN only when a step carries the opcode
    spelled [SELFdestruct]. *)
Theorem contract_graph_nodes_and_kinds (contract_blocks : list Block)
  (contract_steps : list StandardizedStep) (graph : CFG)
  (out : list printed) :
  ContractCFGConnector.connect_contract_cfg contract_blocks contract_steps
  = Ok (graph, out) →
  tx_hash graph
  = String.append "contract_"
      (ContractCFGConnector.contract_address contract_blocks)
  ∧ Forall (fun n => base_block n ∈ contract_blocks
                     ∧ ∃ step, step ∈ contract_steps
                               ∧ address n = EvmInformation.address step)
      (nodes graph)
  ∧ Forall (fun e =>
              edge_type e
              ∈ ["JUMP"; "CALL"; "RETURN"; "TERMINATE"; "CREATE";
                 "UNKNOWN"]%string
              ∧ (edge_type e = "UNKNOWN"%string →
                 ∃ s, s ∈ contract_steps
                      ∧ EvmInformation.opcode s = "SELFdestruct"%string))
      (edges graph).
Proof. apply BuilderFacts.contract_graph_contents. Qed.

Lemma contract_graph_nodes_and_kinds_witness :
  tx_hash DynamicScenario.contract_graph.1
  = String.append "contract_" SelfdestructScenario.contract
  ∧ Forall (fun n => base_block n ∈ SkipScenario.blocks)
      (nodes DynamicScenario.contract_graph.1).
Proof.
  destruct (contract_graph_nodes_and_kinds SkipScenario.blocks
              SkipScenario.steps DynamicScenario.contract_graph.1
              DynamicScenario.contract_graph.2)
    as (Hname & Hnodes & _).
  - vm_compute. reflexivity.
  - split; [exact Hname|].
    eapply Forall_impl; [exact Hnodes|]. intros n [Hn _]. exact Hn.
Defined.

Module PipelineFacts.

Lemma emitted_opcode f tx_to logs s :
  s ∈ EvmInformation.emitted
        (foldl (EvmInformation.ingest f) (EvmInformation.start f tx_to) logs) →
  ∃ log, EvmInformation.opcode s = PyStr.upper (EvmInformation.log_op log).
Proof.
  intros Hs.
  assert (content_of s ∈ content <$> logs) as Hcontent.
  { pose proof (TrackerFacts.run_content f (EvmInformation.start f tx_to) logs)
      as Hrun.
    simpl in Hrun. rewrite <- Hrun. apply list_elem_of_fmap. by exists s. }
  apply list_elem_of_fmap in Hcontent as (log & Hlog & _).
  exists log. by injection Hlog.
Qed.

End PipelineFacts.

(** X28.  The per-contract graphs of main.py stay inside their contract.
    main.py gives the per-contract builder the blocks and the steps of
    one address of a trace made by [get_standardized_trace].  When the
    contract has blocks and the builder returns, the graph is named
    [contract_<address>], every node wraps one of the blocks at that
    address, every edge joins two such nodes, and the edge kinds are
    JUMP, CALL, RETURN, TERMINATE and CREATE only: the formatter writes
    opcodes in upper case, so neither DESTRUCT nor UNKNOWN occurs. *)
Theorem per_contract_graph_stays_in_its_contract
  (to_checksum_address : string → option string) (all_blocks : list Block)
  (tx_hash' tx_to : string) (struct_logs : list EvmInformation.StructLog)
  (contract_addr : string) (graph : CFG) (out : list printed) :
  Main.contract_cfg all_blocks
    (EvmInformation.get_standardized_trace to_checksum_address tx_hash' tx_to
       struct_logs)
    contract_addr
  = Some (Ok (graph, out)) →
  tx_hash graph = String.append "contract_" contract_addr
  ∧ Forall (fun n => address n = contract_addr ∧ base_block n ∈ all_blocks)
      (nodes graph)
  ∧ Forall (fun e =>
              address (source e) = contract_addr
              ∧ address (target e) = contract_addr
              ∧ edge_type e
                ∈ ["JUMP"; "CALL"; "RETURN"; "TERMINATE"; "CREATE"]%string)
      (edges graph).
Proof.
  unfold Main.contract_cfg.
  destruct (Main.contract_blocks all_blocks contract_addr) as [|b0 bs]
    eqn:Hblocks; [done|].
  intros Hsome.
  assert (ContractCFGConnector.connect_contract_cfg (b0 :: bs)
            (Main.contract_steps
               (EvmInformation.get_standardized_trace to_checksum_address
                  tx_hash' tx_to struct_logs) contract_addr)
          = Ok (graph, out)) as Hrun by congruence.
  clear Hsome.
  assert (∀ b, b ∈ b0 :: bs →
               BasicBlock.address b = contract_addr ∧ b ∈ all_blocks)
    as Hfilter.
  { intros b. rewrite <- Hblocks. unfold Main.contract_blocks.
    by rewrite list_elem_of_filter. }
  destruct (BuilderFacts.contract_graph_contents _ _ _ _ Hrun)
    as (Hname & Hnodes & Hkinds).
  assert (Forall (fun n => address n = contract_addr
                           ∧ base_block n ∈ all_blocks) (nodes graph))
    as Hinside.
  { eapply Forall_impl; [exact Hnodes|]. intros n [Hn _].
    by apply Hfilter. }
  split_and!.
  - rewrite Hname. simpl.
    by destruct (Hfilter b0) as [-> _]; [by left|].
  - exact Hinside.
  - assert (Forall (fun e => source e ∈ nodes graph ∧ target e ∈ nodes graph)
              (edges graph)) as Hends.
    { destruct (Main.contract_steps _ contract_addr) as [|first rest]
        eqn:Hsteps.
      - injection Hrun as <- _. constructor.
      - by destruct (BuilderFacts.contract_graph_walk (b0 :: bs) _ graph out
                       first rest ltac:(done) eq_refl Hrun)
          as (_ & _ & _ & _ & _ & Hends). }
    rewrite Forall_forall in Hinside. rewrite Forall_forall in Hends.
    rewrite Forall_forall in Hkinds.
    apply Forall_forall. intros e He.
    destruct (Hends e He) as [Hsource Htarget].
    destruct (Hkinds e He) as [Hkind Hunknown].
    split_and!; [by apply Hinside|by apply Hinside|].
    change (edge_type e
            ∈ ["JUMP"; "CALL"; "RETURN"; "TERMINATE"; "CREATE"]%string
              ++ ["UNKNOWN"%string]) in Hkind.
    apply elem_of_app in Hkind as [Hkind|Hkind%list_elem_of_singleton];
      [done|].
    destruct (Hunknown Hkind) as (s & Hs & Hopcode).
    unfold Main.contract_steps in Hs.
    apply list_elem_of_filter in Hs as [_ Hs].
    apply PipelineFacts.emitted_opcode in Hs as [log Hlog].
    rewrite Hlog in Hopcode.
    by apply DynamicFacts.upper_has_no_lower_d in Hopcode.
Qed.

Lemma per_contract_graph_stays_in_its_contract_witness :
  tx_hash DynamicScenario.caller_graph.1
  = String.append "contract_" CallScenario.caller
  ∧ summary DynamicScenario.caller_graph.1
    = (["0x0"; "0x2"], [(0%nat, "0x0", "0x2", "CALL")])%string.
Proof.
  split; [|vm_compute; reflexivity].
  apply (per_contract_graph_stays_in_its_contract CallScenario.hex_address
           DynamicScenario.all_blocks "0x03" CallScenario.caller
           DynamicScenario.logs CallScenario.caller
           DynamicScenario.caller_graph.1 DynamicScenario.caller_graph.2).
  vm_compute. reflexivity.
Defined.

(** X29.  The lookup of the per-contract builder fails in one way only.
    [block_of_step] first maps the step's [(address, pc)] to a start pc
    and then looks the block up by [(address, start_pc)].  The second
    lookup cannot fail once the first has succeeded, so the only
    exception is the [KeyError] of the first, raised exactly when no
    block at the step's address holds the step's pc; the [ValueError] of
    [_find_base_block] never reaches the builder's [except] clauses.
    A block that is found belongs to the block list, sits at the step's
    address and has the key of a block holding the pc; with one block
    per key it holds the pc itself. *)
Theorem block_of_step_raises_only_KeyError (contract_blocks : list Block)
  (step : StandardizedStep) :
  match ContractCFGConnector.block_of_step contract_blocks step with
  | Ok found =>
      found ∈ contract_blocks
      ∧ BasicBlock.address found = EvmInformation.address step
      ∧ (∃ b, b ∈ contract_blocks
              ∧ BasicBlock.key b = BasicBlock.key found
              ∧ holds b (EvmInformation.pc step))
      ∧ (NoDup (BasicBlock.key <$> contract_blocks) →
         holds found (EvmInformation.pc step))
  | Raise e =>
      e = KeyError
      ∧ ∀ b, b ∈ contract_blocks →
             BasicBlock.address b = EvmInformation.address step →
             ¬ holds b (EvmInformation.pc step)
  end.
Proof.
  unfold ContractCFGConnector.block_of_step,
    ContractCFGConnector._find_base_block.
  change (ContractCFGConnector.pc_to_start_pc contract_blocks)
    with (Static.pc_to_start_pc contract_blocks).
  destruct (Static.pc_to_start_pc contract_blocks !! _) as [sp|] eqn:Hsp.
  - apply IndexFacts.pc_to_start_pc_Some in Hsp as (b & Hb & Ha & Hs & Hp).
    pose proof (fold_insert_is_Some BasicBlock.key id ∅ contract_blocks b Hb)
      as [x Hx].
    rewrite <- IndexFacts.base_block_map_fold in Hx.
    unfold BasicBlock.key in Hx. rewrite Ha, Hs in Hx. rewrite Hx.
    apply IndexFacts.base_block_map_Some in Hx as Hfound.
    destruct Hfound as [Hin Hkey]. split_and!.
    + exact Hin.
    + by injection Hkey.
    + exists b. split_and!; [done| |done].
      rewrite Hkey. unfold BasicBlock.key. by rewrite Ha, Hs.
    + intros Hnd.
      pose proof (IndexFacts.base_block_map_NoDup contract_blocks b Hnd Hb)
        as Hb'.
      unfold BasicBlock.key in Hb'. rewrite Ha, Hs, Hx in Hb'.
      by injection Hb' as ->.
  - split; [done|]. intros b Hb Ha Hp.
    destruct (IndexFacts.pc_to_start_pc_is_Some contract_blocks b _ Hb Hp)
      as (sp & _ & Hsome & _).
    rewrite Ha, Hsp in Hsome. done.
Qed.

Lemma block_of_step_raises_only_KeyError_witness :
  ContractCFGConnector.block_of_step SkipScenario.blocks
    (SelfdestructScenario.step "0x9" "JUMPDEST" []) = Raise KeyError
  ∧ ¬ holds SkipScenario.entry "0x9".
Proof.
  pose proof (block_of_step_raises_only_KeyError SkipScenario.blocks
                (SelfdestructScenario.step "0x9" "JUMPDEST" [])) as Hfail.
  assert (ContractCFGConnector.block_of_step SkipScenario.blocks
            (SelfdestructScenario.step "0x9" "JUMPDEST" []) = Raise KeyError)
    as Hraise by (vm_compute; reflexivity).
  rewrite Hraise in Hfail. destruct Hfail as [_ Hfail].
  split; [exact Hraise|]. apply Hfail; [by left|reflexivity].
Defined.

Module ContractCountFacts.

Lemma contract_loop_count blocks steps : ∀ idx w w',
  ContractCFGConnector.loop blocks steps idx w = Ok w' →
  (length (edges (cfg w')) + length (output w')
   = length (edges (cfg w)) + length (output w)
     + boundaries ContractCFGConnector.split_opcodes steps)%nat.
Proof.
  induction steps as [|s steps IH]; intros idx w w'.
  - intros [= <-]. unfold boundaries. simpl. lia.
  - destruct steps as [|next steps'].
    + simpl. destruct (name_in _ _); intros [= <-];
        unfold boundaries; simpl; lia.
    + rewrite DynamicFacts.boundaries_cons.
      change (ContractCFGConnector.loop blocks (s :: next :: steps') idx w)
        with (if name_in (EvmInformation.opcode s)
                   ContractCFGConnector.split_opcodes
              then match ContractCFGConnector.block_of_step blocks next with
                   | Ok next_base_block =>
                       ContractCFGConnector.loop blocks (next :: steps')
                         (S idx)
                         (enter_block w next_base_block
                            (_get_edge_type (EvmInformation.opcode s)))
                   | Raise KeyError | Raise ValueError =>
                       ContractCFGConnector.loop blocks (next :: steps')
                         (S idx) (warn w (S idx) next)
                   | Raise e => Raise e
                   end
              else ContractCFGConnector.loop blocks (next :: steps')
                     (S idx) w).
      destruct (name_in _ _); [|intros Hrun; apply IH in Hrun; lia].
      destruct (ContractCFGConnector.block_of_step blocks next) as [b|[]];
        try done; intros Hrun; apply IH in Hrun.
      * destruct (DynamicFacts.enter_block_count w b
                    (_get_edge_type (EvmInformation.opcode s)))
          as [Hedges Hout].
        rewrite Hedges, Hout in Hrun. lia.
      * simpl in Hrun. rewrite length_app in Hrun. simpl in Hrun. lia.
      * simpl in Hrun. rewrite length_app in Hrun. simpl in Hrun. lia.
Qed.

End ContractCountFacts.

(** X30.  The per-contract builder accounts for every block boundary of
    its steps as the transaction builder does: the number of edges plus
    the number of warnings is the number of steps that carry one of its
    block-ending opcodes and are not the last step, and is 0 when the
    builder was given no block. *)
Theorem contract_edges_and_warnings (contract_blocks : list Block)
  (contract_steps : list StandardizedStep) (graph : CFG)
  (out : list printed) :
  ContractCFGConnector.connect_contract_cfg contract_blocks contract_steps
  = Ok (graph, out) →
  (length (edges graph) + length out
   = if bool_decide (contract_blocks = []) then 0
     else boundaries ContractCFGConnector.split_opcodes contract_steps)%nat.
Proof.
  intros Hrun.
  destruct (BuilderFacts.contract_unfold _ _ _ _ Hrun)
    as [(Hempty & -> & ->)
       |(first & rest & first_block & w' & -> & Hfirst & Hloop & -> & ->)].
  - simpl. case_bool_decide; [done|].
    destruct Hempty as [?| ->]; [done|reflexivity].
  - rewrite bool_decide_eq_false_2.
    + apply ContractCountFacts.contract_loop_count in Hloop.
      simpl in Hloop. lia.
    + intros ->. discriminate Hfirst.
Qed.

Lemma contract_edges_and_warnings_witness :
  (length (edges DynamicScenario.contract_graph.1)
   + length DynamicScenario.contract_graph.2 = 2)%nat.
Proof.
  apply (contract_edges_and_warnings SkipScenario.blocks SkipScenario.steps
           DynamicScenario.contract_graph.1
           DynamicScenario.contract_graph.2).
  vm_compute. reflexivity.
Defined.
